(** * Data-Dashboard-Boilerplate: chart, export and store logic

    A shallow embedding of the pure logic of the dashboard:
    - [Double]     : rounding to double precision, for the sums of trade values
    - [ChartCard]  : range-scoped export payload (ChartCard.jsx)
    - [LineChart]  : zoom range reporting, zoom enablement, tooltip snapping
    - [Charts]     : the empty-data / zero-width guard of the chart renderers
    - [Aggregators]: group-and-sum helpers (Home page modeData, aiClient groupAndSum)
    - [Csv]        : CSV serialisation (downloadCsv)
    - [ExportPng]  : the failure paths of exportChartPng
    - [TradeStore] : setFilter / resetFilters of the trade store
    - [Loader]     : loadData, normalize and the loose parsers of the trade store
    - [AiClient]   : applyFilters and describeFilters of the chat responder
    - [HomePage]   : latestYear and trendLineData of the Home page
    - [Layout]     : font size, line chart layout, tooltip position, label truncation
    - [Buttons]    : the PNG export name and the download button
    - [ChatStore]  : sendMessage of the chat store

    A finite JavaScript number is the rational it denotes ([Q]); NaN is
    the [None] of an [option Q].  The sums of trade values are rounded the
    way double additions are ([Double]); the zoom handler takes the
    rescaling of the zoom library as a parameter; the rest of the chart
    geometry is computed in exact arithmetic.  Strings are byte strings
    (UTF-8), so the byte-order mark is the three bytes EF BB BF. *)

From stdpp Require Import gmap strings.
From Stdlib Require Import String Ascii List ZArith QArith Qround Qabs Lia Lqa Permutation Bool.
From Stdlib Require Qcanon.
Import ListNotations.

Local Open Scope string_scope.
Local Open Scope list_scope.

(* ===================================================================== *)
(** ** JavaScript values and flat row objects *)
(* ===================================================================== *)

Module JS.

(** The values a flat row can hold: a column is a number, a string, null,
    or absent (reading it gives undefined). *)
Inductive jsval : Type :=
| JUndefined
| JNull
| JNum (q : Q)
| JStr (s : string).

(** A flat object: its own properties in [Object.keys] order. *)
Definition row : Type := list (string * jsval).

(** [r[k]] on the own properties: the first property named [k],
    undefined when there is none.  (What a row inherits from
    [Object.prototype] is in [has_member] below.) *)
Fixpoint get (r : row) (k : string) : jsval :=
  match r with
  | [] => JUndefined
  | (k', v) :: r' => if String.eqb k' k then v else get r' k
  end.

(** [Object.keys(r)] *)
Definition keys (r : row) : list string := List.map fst r.

(** [v !== undefined] *)
Definition is_defined (v : jsval) : bool :=
  match v with
  | JUndefined => false
  | _ => true
  end.

(** [Object.hasOwn(r, k)] *)
Definition has_own (r : row) (k : string) : bool :=
  List.existsb (fun kv => String.eqb (fst kv) k) r.

(** The members a plain object inherits from [Object.prototype]: methods,
    and the accessor [__proto__] that gives the prototype itself. *)
Definition object_prototype : list string :=
  ["constructor"; "hasOwnProperty"; "isPrototypeOf"; "propertyIsEnumerable";
   "toLocaleString"; "toString"; "valueOf"; "__proto__";
   "__defineGetter__"; "__defineSetter__"; "__lookupGetter__"; "__lookupSetter__"].

Definition inherited (k : string) : bool :=
  List.existsb (String.eqb k) object_prototype.

(** [r[k] !== undefined] on a plain object: an own property decides by its
    value, a name that is not an own property is looked up in
    [Object.prototype], whose members are functions or objects. *)
Definition has_member (r : row) (k : string) : bool :=
  if has_own r k then is_defined (get r k) else inherited k.

(** [!v] is false, i.e. [v] is truthy.  (NaN is not a [jsval] here.) *)
Definition truthy (v : jsval) : bool :=
  match v with
  | JUndefined | JNull => false
  | JNum q => negb (Qeq_bool q 0)
  | JStr s => negb (String.eqb s "")
  end.

(** SameValueZero on the values above (the key equality of [Map] and [Set]). *)
Definition same_value (a b : jsval) : bool :=
  match a, b with
  | JUndefined, JUndefined => true
  | JNull, JNull => true
  | JNum p, JNum q => Qeq_bool p q
  | JStr s, JStr t => String.eqb s t
  | _, _ => false
  end.

Section Coercion.

(** StringToNumber of the language ([None] is NaN); a parameter of the
    development, the comparison logic below does not depend on it. *)
Variable string_to_number : string -> option Q.

(** ToNumber *)
Definition to_number (v : jsval) : option Q :=
  match v with
  | JUndefined => None
  | JNull => Some 0%Q
  | JNum q => Some q
  | JStr s => string_to_number s
  end.

(** [v >= m] for a number [m] *)
Definition ge_num (v : jsval) (m : Q) : bool :=
  match to_number v with
  | Some q => Qle_bool m q
  | None => false
  end.

(** [v <= m] for a number [m] *)
Definition le_num (v : jsval) (m : Q) : bool :=
  match to_number v with
  | Some q => Qle_bool q m
  | None => false
  end.

End Coercion.

(** [c.toUpperCase()] on an ASCII character. *)
Definition upper_char (c : ascii) : ascii :=
  let n := nat_of_ascii c in
  if (97 <=? n)%nat && (n <=? 122)%nat then ascii_of_nat (n - 32) else c.

(** [k.charAt(0).toUpperCase() + k.slice(1)] on a text of ASCII
    characters. *)
Definition capitalize_ascii (k : string) : string :=
  match k with
  | EmptyString => EmptyString
  | String c rest => String (upper_char c) rest
  end.

End JS.

(* ===================================================================== *)
(** ** Double-precision arithmetic *)
(* ===================================================================== *)

(** A finite double is the rational it denotes; an operation on doubles
    gives the double nearest to the exact result. *)
Module Double.
Local Open Scope Q_scope.

(** [2^e] for an integer [e]. *)
Definition pow2 (e : Z) : Q :=
  if (0 <=? e)%Z then inject_Z (2 ^ e) else 1 / inject_Z (2 ^ (- e)).

(** The integer nearest to [x], the even one of the two when [x] lies
    halfway. *)
Definition nearest_even (x : Q) : Z :=
  let f := Qfloor x in
  let r := x - inject_Z f in
  if Qle_bool (1 # 2) r then
    if Qeq_bool r (1 # 2) then (if Z.even f then f else f + 1)%Z else (f + 1)%Z
  else f.

(** The exponent of the last place of the double nearest to [a > 0]:
    [a / 2^e] lies in [[2^52, 2^53)], and [e] is no less than -1074 (the
    subnormal numbers). *)
Definition ulp_exp (a : Q) : Z :=
  let l := (Z.log2 (Qnum a) - Z.log2 (Zpos (Qden a)))%Z in
  let fl := if Qle_bool (pow2 l) a then l else (l - 1)%Z in
  Z.max (fl - 52) (-1074).

(** The double nearest to the rational [q], ties to even (below the
    overflow threshold). *)
Definition round (q : Q) : Q :=
  let r := Qred q in
  let a := Qabs r in
  if Qeq_bool a 0 then 0
  else
    let e := ulp_exp a in
    (if Qle_bool 0 r then 1 else -1) * (inject_Z (nearest_even (a / pow2 e)) * pow2 e).

(** [a + b] on doubles. *)
Definition plus (a b : Q) : Q := round (a + b).

(** A whole number. *)
Definition whole (q : Q) : Prop := exists z : Z, q == inject_Z z.

(** The sum of numbers, and of their absolute values, in exact
    arithmetic. *)
Definition total (xs : list Q) : Q := List.fold_right Qplus 0 xs.

Definition abs_total (xs : list Q) : Q :=
  List.fold_right (fun x acc => Qabs x + acc) 0 xs.

(** [2^53], up to which every whole number is a double. *)
Definition max_safe : Q := inject_Z (2 ^ 53).

(** Whole numbers whose absolute values sum to no more than [2^53]: on
    them every sum, taken in any order, is exact. *)
Definition exact (xs : list Q) : Prop :=
  (forall x, In x xs -> whole x) /\ abs_total xs <= max_safe.

End Double.

(* ===================================================================== *)
(** ** ChartCard: the range-scoped download payload *)
(* ===================================================================== *)

Module ChartCard.
Import JS.

(** The visible range a line chart reports: [{ xKey, min, max }]. *)
Record zoomRange : Type := { xKey : string; min : Q; max : Q }.

(** One entry of the download payload: [{ data, filename }]; [data] may be
    absent (a dataset that is not loaded yet). *)
Record dataset : Type := { data : option (list row); filename : string }.

(** [downloadData]: [{ summary?, detail? }] *)
Record downloadData : Type := { summary : option dataset; detail : option dataset }.

Section Filter.

Variable string_to_number : string -> option Q.

(** [k => k.charAt(0).toUpperCase() + k.slice(1)]: the case mapping is
    the one of the language (Unicode), a parameter of the development;
    [JS.capitalize_ascii] is what it does on ASCII text. *)
Variable capitalize : string -> string.

(** [d[key] >= min && d[key] <= max].  A [key] that is not an own
    property of [d] reads undefined or an inherited function or object;
    ToNumber of each of them is NaN and both comparisons are false. *)
Definition in_range (key : string) (lo hi : Q) (d : row) : bool :=
  ge_num string_to_number (get d key) lo && le_num string_to_number (get d key) hi.

(** [arr[0][xKey] !== undefined ? xKey : (arr[0][capKey] !== undefined ? capKey : null)] *)
Definition pickKey (first : row) (xk : string) : option string :=
  let capKey := capitalize xk in
  if has_member first xk then Some xk
  else if has_member first capKey then Some capKey
  else None.

(** [filterArr]: the guard [!arr?.length], the key choice, the guard
    [!key] (null and the empty string are both falsy), the filter. *)
Definition filterArr (z : zoomRange) (arr : option (list row)) : option (list row) :=
  match arr with
  | None => None
  | Some [] => Some []
  | Some (first :: rest) =>
      match pickKey first (xKey z) with
      | None => arr
      | Some EmptyString => arr
      | Some key => Some (List.filter (in_range key (min z) (max z)) (first :: rest))
      end
  end.

Definition scope (z : zoomRange) (s : dataset) : dataset :=
  {| data := filterArr z (data s); filename := filename s |}.

(** [effectiveDownloadData] *)
Definition effectiveDownloadData (dd : option downloadData) (zr : option zoomRange)
  : option downloadData :=
  match dd, zr with
  | Some d, Some z =>
      Some {| summary := option_map (scope z) (summary d);
              detail := option_map (scope z) (detail d) |}
  | _, _ => dd
  end.

(** The axis value of row [d], read as a number the way the comparison
    operators read it, lies within [[lo, hi]]. *)
Definition axis_within (key : string) (lo hi : Q) (d : row) : Prop :=
  exists q, to_number string_to_number (get d key) = Some q /\ (lo <= q /\ q <= hi)%Q.

(** [out] holds exactly the rows of [arr] whose axis value lies within
    [[lo, hi]], in the order of [arr]. *)
Definition exactly_within (key : string) (lo hi : Q) (arr out : list row) : Prop :=
  exists keep : row -> bool,
    out = List.filter keep arr /\ forall d, keep d = true <-> axis_within key lo hi d.

(** Range scoping of one array: on field [xKey] when the first row has
    it, else on the capitalised name when the first row has that, else
    no filtering; and never more rows than before. *)
Definition array_scoped (z : zoomRange) (arr out : list row) : Prop :=
  match arr with
  | [] => out = []
  | first :: _ =>
      (has_member first (xKey z) = true ->
       exactly_within (xKey z) (min z) (max z) arr out) /\
      (has_member first (xKey z) = false ->
       has_member first (capitalize (xKey z)) = true ->
       exactly_within (capitalize (xKey z)) (min z) (max z) arr out) /\
      (has_member first (xKey z) = false ->
       has_member first (capitalize (xKey z)) = false ->
       out = arr) /\
      (List.length out <= List.length arr)%nat
  end.

Definition payload_scoped (z : zoomRange) (s s' : option dataset) : Prop :=
  match s, s' with
  | None, None => True
  | Some a, Some b =>
      filename b = filename a /\
      match data a, data b with
      | None, None => True
      | Some arr, Some out => array_scoped z arr out
      | _, _ => False
      end
  | _, _ => False
  end.

(** The effective download data [eff] is the payload [dd] scoped to the
    visible range [z]. *)
Definition range_scoped (dd : downloadData) (z : zoomRange)
    (eff : option downloadData) : Prop :=
  exists e, eff = Some e /\
            payload_scoped z (summary dd) (summary e) /\
            payload_scoped z (detail dd) (detail e).

End Filter.

End ChartCard.

(* ===================================================================== *)
(** ** LineChart: scales, zoom range reporting, tooltip snapping *)
(* ===================================================================== *)

Module LineChart.
Import JS.
Local Open Scope Q_scope.

(** A data point as the props contract has it: [d[xKey]] and [d[yKey]]
    are numbers, [d[seriesKey]] names the series. *)
Record datum : Type := { dx : Q; dy : Q; dseries : string }.

(** [d3.scaleLinear().domain([d0, d1]).range([r0, r1])] *)
Record linear : Type := { domain : Q * Q; range : Q * Q }.

(** [scale.invert(r)]: normalise over the range, interpolate over the domain. *)
Definition invert (s : linear) (r : Q) : Q :=
  let t := (r - fst (range s)) / (snd (range s) - fst (range s)) in
  fst (domain s) * (1 - t) + snd (domain s) * t.

(** [scale(v)] *)
Definition apply (s : linear) (v : Q) : Q :=
  let t := (v - fst (domain s)) / (snd (domain s) - fst (domain s)) in
  fst (range s) * (1 - t) + snd (range s) * t.

(** A zoom transform [{ k, x, y }]. *)
Record transform : Type := { k : Q; tx : Q; ty : Q }.

Definition zoomIdentity : transform := {| k := 1; tx := 0; ty := 0 |}.

(** [t.invertX(x)] and [t.applyX(x)] *)
Definition invertX (t : transform) (x : Q) : Q := (x - tx t) / k t.
Definition applyX (t : transform) (x : Q) : Q := x * k t + tx t.

(** [t.rescaleX(x)] in exact arithmetic: the range mapped back through
    the transform, then through the scale.  The library computes the same
    expression in doubles, so its result can differ from this one in the
    last places. *)
Definition rescaleX (t : transform) (x : linear) : linear :=
  {| domain := (invert x (invertX t (fst (range x))),
                invert x (invertX t (snd (range x))));
     range := range x |}.

(** [d3.extent(data, d => d[xKey])] on a non-empty array of numbers. *)
Fixpoint extent_from (lo hi : Q) (xs : list Q) : Q * Q :=
  match xs with
  | [] => (lo, hi)
  | v :: rest =>
      extent_from (if Qle_bool lo v then lo else v)
                  (if Qle_bool v hi then hi else v) rest
  end.

Definition extent (xs : list Q) : option (Q * Q) :=
  match xs with
  | [] => None
  | v :: rest => Some (extent_from v v rest)
  end.

(** [new Set(xs)]: first occurrences, in order. *)
Fixpoint uniq (xs : list Q) : list Q :=
  match xs with
  | [] => []
  | v :: rest => v :: List.filter (fun w => negb (Qeq_bool v w)) (uniq rest)
  end.

(** [new Set(data.map(d => d[xKey])).size] *)
Definition uniqueX (data : list datum) : Z :=
  Z.of_nat (List.length (uniq (List.map dx data))).

(** [uniqueX > 3 ? Math.ceil(uniqueX / 3) : 1] *)
Definition maxZoom (n : Z) : Z :=
  if (3 <? n)%Z then Qceiling (inject_Z n / 3) else 1%Z.

(** The zoom behaviour is created and attached when [maxZoom > 1]. *)
Definition zoomEnabled (data : list datum) : bool :=
  (1 <? maxZoom (uniqueX data))%Z.

(** The unzoomed x scale of a chart: domain = extent of the x values,
    range = [0, innerW]. *)
Definition xScale (data : list datum) (innerW : Q) : option linear :=
  match extent (List.map dx data) with
  | None => None
  | Some e => Some {| domain := e; range := (0, innerW) |}
  end.

(** One line of the chart. *)
Record series : Type := { name : string; values : list datum }.

(** [[...values].sort((a, b) => a[xKey] - b[xKey])] (the sort is stable). *)
Fixpoint insert_by_x (d : datum) (l : list datum) : list datum :=
  match l with
  | [] => [d]
  | e :: rest =>
      if Qle_bool (dx d) (dx e) then d :: e :: rest
      else e :: insert_by_x d rest
  end.

Definition sort_by_x (l : list datum) : list datum :=
  List.fold_right insert_by_x [] l.

(** [d3.group(data, d => d[seriesKey])]: groups in order of first appearance. *)
Fixpoint add_to_group (d : datum) (gs : list (string * list datum))
  : list (string * list datum) :=
  match gs with
  | [] => [(dseries d, [d])]
  | (n, vs) :: rest =>
      if String.eqb n (dseries d) then (n, vs ++ [d]) :: rest
      else (n, vs) :: add_to_group d rest
  end.

Definition group (data : list datum) : list (string * list datum) :=
  List.fold_left (fun gs d => add_to_group d gs) data [].

(** The [series] array: grouped by [seriesKey] when it is given, else one
    series named 'default'. *)
Definition mkSeries (seriesKey : bool) (data : list datum) : list series :=
  if seriesKey then
    List.map (fun g => {| name := fst g; values := sort_by_x (snd g) |}) (group data)
  else [{| name := "default"; values := sort_by_x data |}].

(** [Math.round]: the nearest integer, halves go up. *)
Definition round (q : Q) : Z := Qfloor (q + (1 # 2)).

(** The HTML tooltip: hidden, or showing the header [xVal] and one entry
    [(series name, point)] per series that has a point there. *)
Inductive tip : Type :=
| TipHidden
| TipShown (xVal : Z) (entries : list (string * datum)).

(** What a render keeps between events. *)
Record chart : Type :=
  { currentX : linear;
    tooltip : tip;
    resetShown : bool }.

(** [s.values.find((d) => d[xKey] === xVal)] for every series. *)
Definition pointsAt (ss : list series) (xVal : Z) : list (string * datum) :=
  List.flat_map
    (fun s =>
       match List.find (fun d => Qeq_bool (dx d) (inject_Z xVal)) (values s) with
       | Some p => [(name s, p)]
       | None => []
       end) ss.

(** The overlay's mousemove handler at pointer abscissa [mx]. *)
Definition onMouseMove (ss : list series) (mx : Q) (st : chart) : chart :=
  let xVal := round (invert (currentX st) mx) in
  match pointsAt ss xVal with
  | [] => {| currentX := currentX st; tooltip := TipHidden; resetShown := resetShown st |}
  | p :: ps =>
      {| currentX := currentX st; tooltip := TipShown xVal (p :: ps);
         resetShown := resetShown st |}
  end.

(** The overlay's mouseleave handler. *)
Definition onMouseLeave (st : chart) : chart :=
  {| currentX := currentX st; tooltip := TipHidden; resetShown := resetShown st |}.

(** [t.k > 1] *)
Definition zoomed (t : transform) : bool := negb (Qle_bool (k t) 1).

(** What the handler passes to the listener. *)
Definition reportedRange (xk : string) (cx : linear) : ChartCard.zoomRange :=
  {| ChartCard.xKey := xk;
     ChartCard.min := inject_Z (Qceiling (fst (domain cx)));
     ChartCard.max := inject_Z (Qfloor (snd (domain cx))) |}.

(** The zoom handler, over the library's [t.rescaleX(x0)] ([rescale]).
    [listener] tells whether a [setZoomRange] came through the context.
    The result is the chart after the update and the call made on the
    listener: [None] for no call, [Some r] for [setZoomRange(r)], where
    [r = None] is [setZoomRange(null)]. *)
Definition zoomHandler (rescale : transform -> linear -> linear) (x0 : linear)
    (xk : string) (listener : bool) (t : transform) (st : chart)
  : chart * option (option ChartCard.zoomRange) :=
  let cx := rescale t x0 in
  ({| currentX := cx; tooltip := TipHidden; resetShown := zoomed t |},
   if listener then
     if zoomed t then Some (Some (reportedRange xk cx)) else Some None
   else None).

(** The handler with the rescaling done in exact arithmetic. *)
Definition onZoom (x0 : linear) (xk : string) (listener : bool) (t : transform)
    (st : chart) : chart * option (option ChartCard.zoomRange) :=
  zoomHandler rescaleX x0 xk listener t st.

(** [c] is [e] to within a quarter of a unit. *)
Definition near (c e : Q) : Prop := Qabs (c - e) <= 1 # 4.

(** [rescale] gives, for [t] and [x0], the visible domain to within a
    quarter of a unit at each end. *)
Definition accurate (rescale : transform -> linear -> linear) (t : transform)
    (x0 : linear) : Prop :=
  near (fst (domain (rescale t x0))) (fst (domain (rescaleX t x0)))
  /\ near (snd (domain (rescale t x0))) (snd (domain (rescaleX t x0))).

(** The view under [t] reaches no further than a quarter of a unit
    beyond the domain of [x0]. *)
Definition view_within (t : transform) (x0 : linear) : Prop :=
  fst (domain x0) - (1 # 4) <= fst (domain (rescaleX t x0))
  /\ snd (domain (rescaleX t x0)) <= snd (domain x0) + (1 # 4).

(** [useState(null)] of the chart card and its setter. *)
Definition setZoomRange (r : option ChartCard.zoomRange)
    (_ : option ChartCard.zoomRange) : option ChartCard.zoomRange := r.

(** The claim of the specification on tooltip snapping, as it is worded:
    the tooltip shows an x-value that is present in the data and no data
    x-value is nearer to the pointer. *)
Definition snaps_to_nearest_present (data : list datum) (v : Q) (t : tip) : Prop :=
  exists xVal entries,
    t = TipShown xVal entries /\
    (exists d, In d data /\ dx d == inject_Z xVal) /\
    (forall d, In d data -> Qabs (inject_Z xVal - v) <= Qabs (dx d - v)).

(** A whole number. *)
Definition whole (q : Q) : Prop := exists z : Z, q == inject_Z z.

(** Point [p] sits in the group named [n]. *)
Definition member (gs : list (string * list datum)) (n : string) (p : datum) : Prop :=
  exists vs, In (n, vs) gs /\ In p vs.

(** All x values are whole numbers. *)
Definition integer_xs (data : list datum) : Prop :=
  forall d, In d data -> exists z : Z, dx d == inject_Z z.

End LineChart.

(* ===================================================================== *)
(** ** Chart renderers: the guard of the render effect *)
(* ===================================================================== *)

Module Charts.

Inductive renderer : Type := Bar | Line | Donut | Treemap | StackedBar.

(** What the guard reads: [data.length], the measured [width]
    ([Math.floor] of the observed width), and [stackKeys.length]. *)
Record props : Type :=
  { dataLength : nat; width : Z; stackKeysLength : nat }.

(** [!data.length || !width] (and [|| !stackKeys.length] for the stacked bars). *)
Definition guard (r : renderer) (p : props) : bool :=
  match r with
  | StackedBar =>
      (dataLength p =? 0)%nat || (width p =? 0)%Z || (stackKeysLength p =? 0)%nat
  | _ => (dataLength p =? 0)%nat || (width p =? 0)%Z
  end.

Section Render.

(** SVG nodes, and what a renderer draws for given props. *)
Variable node : Type.
Variable draw : renderer -> props -> list node.

(** The render effect on the children of the [<svg>]: an early return
    when the guard fires; otherwise [svg.selectAll('*').remove()] and the
    new drawing. *)
Definition renderEffect (r : renderer) (p : props) (svg : list node) : list node :=
  if guard r p then svg else draw r p.

End Render.

End Charts.

(* ===================================================================== *)
(** ** Page aggregators: group and sum *)
(* ===================================================================== *)

Module Aggregators.
Import JS.
Local Open Scope Q_scope.

(** [d.TradeValue || 0] on the rows of the store, whose [TradeValue] the
    loader has made a finite number ([parseLooseNumber]); a missing or
    null value reads as 0 as well. *)
Definition tradeValue (d : row) : Q :=
  match get d "TradeValue" with
  | JNum q => q
  | _ => 0
  end.

(** A [Map] from labels to running sums, entries in insertion order. *)
Definition jsmap : Type := list (jsval * Q).

Fixpoint map_get (m : jsmap) (key : jsval) : option Q :=
  match m with
  | [] => None
  | (k, v) :: rest => if same_value k key then Some v else map_get rest key
  end.

Definition map_has (m : jsmap) (key : jsval) : bool :=
  match map_get m key with Some _ => true | None => false end.

(** [m.set(key, v)]: an existing entry keeps its place, a new one goes last. *)
Fixpoint map_set (m : jsmap) (key : jsval) (v : Q) : jsmap :=
  match m with
  | [] => [(key, v)]
  | (k, w) :: rest =>
      if same_value k key then (k, v) :: rest else (k, w) :: map_set rest key v
  end.

(** [x || 0] for a looked-up sum. *)
Definition or_zero (x : option Q) : Q :=
  match x with Some v => v | None => 0 end.

(** [arr.sort((a, b) => b.value - a.value)]: descending by value, stable. *)
Fixpoint insert_desc (e : jsval * Q) (l : list (jsval * Q)) : list (jsval * Q) :=
  match l with
  | [] => [e]
  | f :: rest =>
      if Qle_bool (snd f) (snd e) then e :: f :: rest
      else f :: insert_desc e rest
  end.

Definition sortDesc (l : list (jsval * Q)) : list (jsval * Q) :=
  List.fold_right insert_desc [] l.

(** The body of [usAggregated.forEach] in the Home page's [modeData]. *)
Definition modeStep (byMode : jsmap) (d : row) : jsmap :=
  let mode := get d "Mode" in
  if truthy mode then
    let m1 := if map_has byMode mode then byMode else map_set byMode mode 0 in
    map_set m1 mode (Double.plus (or_zero (map_get m1 mode)) (tradeValue d))
  else byMode.

(** [modeData] of the Home page: [{ label, value }] pairs. *)
Definition modeData (usAggregated : option (list row)) : list (jsval * Q) :=
  match usAggregated with
  | None => []
  | Some rows => sortDesc (List.fold_left modeStep rows [])
  end.

(** The body of [data.forEach] in [groupAndSum]. *)
Definition groupStep (key : string) (m : jsmap) (d : row) : jsmap :=
  let label := get d key in
  if truthy label then
    map_set m label (Double.plus (or_zero (map_get m label)) (tradeValue d))
  else m.

(** [groupAndSum(data, key)] *)
Definition groupAndSum (data : list row) (key : string) : list (jsval * Q) :=
  sortDesc (List.fold_left (groupStep key) data []).

(** [data.reduce((sum, d) => sum + (d.TradeValue || 0), 0)] *)
Definition sumTradeValue (data : list row) : Q :=
  List.fold_left (fun sum d => Double.plus sum (tradeValue d)) data 0.

(** [series.reduce((s, m) => s + m.value, 0)] *)
Definition seriesTotal (s : list (jsval * Q)) : Q :=
  List.fold_left (fun acc m => Double.plus acc (snd m)) s 0.

(** The sum of the values of a series, and of the trade values of rows,
    in exact arithmetic. *)
Definition sumr (s : list (jsval * Q)) : Q :=
  List.fold_right (fun m acc => snd m + acc) 0 s.

Definition sumrows (data : list row) : Q :=
  List.fold_right (fun d acc => tradeValue d + acc) 0 data.

(** The rows an aggregator over column [key] counts: those whose label is
    truthy. *)
Definition labelled (key : string) (data : list row) : list row :=
  List.filter (fun d => truthy (get d key)) data.

(** The trade values of the rows are whole numbers whose absolute values
    sum to no more than [2^53]. *)
Definition exact_values (data : list row) : Prop :=
  Double.exact (List.map tradeValue data).

End Aggregators.

(* ===================================================================== *)
(** ** Browser effects of the export utilities *)
(* ===================================================================== *)

Module Browser.

(** What an export utility does to the outside: a console warning, the
    download of a text file, the download of a PNG of given pixel size. *)
Inductive effect : Type :=
| Warn (msg : string)
| DownloadText (name body : string)
| DownloadPng (name : string) (pxWidth pxHeight : Q).

Definition is_download (e : effect) : bool :=
  match e with
  | Warn _ => false
  | _ => true
  end.

End Browser.

(* ===================================================================== *)
(** ** downloadCsv *)
(* ===================================================================== *)

Module Csv.
Import JS Browser.

Definition comma : ascii := ascii_of_nat 44.
Definition dquote : ascii := ascii_of_nat 34.
Definition lf : ascii := ascii_of_nat 10.
Definition cr : ascii := ascii_of_nat 13.

(** U+FEFF as the file has it (UTF-8). *)
Definition BOM : string :=
  String (ascii_of_nat 239) (String (ascii_of_nat 187) (String (ascii_of_nat 191) EmptyString)).

(** The characters of the class tested before quoting: comma, double
    quote, line feed, carriage return. *)
Definition special (c : ascii) : bool :=
  Ascii.eqb c comma || Ascii.eqb c dquote || Ascii.eqb c lf || Ascii.eqb c cr.

(** The regular expression test on [str]: some character is special. *)
Fixpoint needsQuote (s : string) : bool :=
  match s with
  | EmptyString => false
  | String c rest => special c || needsQuote rest
  end.

(** The global replace on [str]: every double quote is doubled. *)
Fixpoint escapeQuotes (s : string) : string :=
  match s with
  | EmptyString => EmptyString
  | String c rest =>
      if Ascii.eqb c dquote then String dquote (String dquote (escapeQuotes rest))
      else String c (escapeQuotes rest)
  end.

(** The separators [','] and ['\n']. *)
Definition sep : string := String comma EmptyString.
Definition eol : string := String lf EmptyString.

(** [parts.join(sep)] *)
Fixpoint join (s : string) (parts : list string) : string :=
  match parts with
  | [] => EmptyString
  | [p] => p
  | p :: rest => p ++ s ++ join s rest
  end.

Section Serialise.

(** [String(v)] on a number: Number::toString, a parameter. *)
Variable number_to_string : Q -> string.

(** The text of a field before quoting: [''] for null and undefined,
    [String(v)] otherwise. *)
Definition fieldText (v : jsval) : string :=
  match v with
  | JUndefined | JNull => EmptyString
  | JNum q => number_to_string q
  | JStr s => s
  end.

(** The callback of [keys.map]: the field as written to the file. *)
Definition csvField (v : jsval) : string :=
  match v with
  | JUndefined | JNull => EmptyString
  | _ =>
      let str := fieldText v in
      if needsQuote str then String dquote (escapeQuotes str ++ String dquote EmptyString)
      else str
  end.

(** [keys.map(...).join(',')] for one row. *)
Definition csvLine (ks : list string) (r : row) : string :=
  join sep (List.map (fun k => csvField (get r k)) ks).

(** [[header, ...rows].join('\n')], columns from the first row's keys. *)
Definition csvText (first : row) (rest : list row) : string :=
  let ks := keys first in
  let header := join sep ks in
  join eol (header :: List.map (csvLine ks) (first :: rest)).

(** [downloadCsv(data, filename)] *)
Definition downloadCsv (data : option (list row)) (filename : string) : list effect :=
  match data with
  | None => []
  | Some [] => []
  | Some (first :: rest) =>
      [DownloadText (filename ++ ".csv") (BOM ++ csvText first rest)]
  end.

End Serialise.

(** Where the reader is in a field: at its start, inside an unquoted
    field, or inside quotes. *)
Inductive mode : Type := AtStart | Unquoted | InQuotes.

(** Re-parsing, as the specification words it: split into records on line
    feeds and into fields on commas, respecting quotes.  A double quote
    opens a quoted field at the start of a field only; inside quotes a
    doubled quote is one quote, and commas and line breaks are text; a
    quote elsewhere is text.  [field] and [rec] are the field and the
    record read so far. *)
Fixpoint parseFrom (m : mode) (field : string) (rec : list string) (s : string)
  : list (list string) :=
  match s with
  | EmptyString => [rec ++ [field]]
  | String c rest =>
      match m with
      | InQuotes =>
          if Ascii.eqb c dquote then
            match rest with
            | String c2 rest2 =>
                if Ascii.eqb c2 dquote
                then parseFrom InQuotes (field ++ String dquote EmptyString) rec rest2
                else parseFrom Unquoted field rec rest
            | EmptyString => parseFrom Unquoted field rec rest
            end
          else parseFrom InQuotes (field ++ String c EmptyString) rec rest
      | _ =>
          if Ascii.eqb c comma then parseFrom AtStart EmptyString (rec ++ [field]) rest
          else if Ascii.eqb c lf then (rec ++ [field]) :: parseFrom AtStart EmptyString [] rest
          else if Ascii.eqb c dquote then
            match m with
            | AtStart => parseFrom InQuotes field rec rest
            | _ => parseFrom Unquoted (field ++ String dquote EmptyString) rec rest
            end
          else parseFrom Unquoted (field ++ String c EmptyString) rec rest
      end
  end.

(** Drop a leading byte-order mark. *)
Definition stripBom (s : string) : string :=
  match s with
  | String a (String b (String c rest)) =>
      if Ascii.eqb a (ascii_of_nat 239) && Ascii.eqb b (ascii_of_nat 187)
         && Ascii.eqb c (ascii_of_nat 191)
      then rest else s
  | _ => s
  end.

Definition parseCsv (file : string) : list (list string) :=
  parseFrom AtStart EmptyString [] (stripBom file).

(** A column name that needs no quoting. *)
Definition plain (s : string) : Prop := needsQuote s = false.

(** What follows a field in the file: nothing, a comma or a line feed. *)
Definition ends_field (tail : string) : Prop :=
  match tail with
  | EmptyString => True
  | String c _ => Ascii.eqb c comma || Ascii.eqb c lf = true
  end.

(** The rows have the columns of the first row, in its order, each once. *)
Definition uniform (first : row) (rest : list row) : Prop :=
  NoDup (keys first) /\ Forall (fun r => keys r = keys first) rest.

End Csv.

(* ===================================================================== *)
(** ** exportChartPng *)
(* ===================================================================== *)

Module ExportPng.
Import Browser.
Local Open Scope Q_scope.

(** What [svg.getBoundingClientRect()] measures. *)
Record svgBox : Type := { boxWidth : Q; boxHeight : Q }.

(** [!x] on a measured length. *)
Definition is_zero (x : Q) : bool := Qeq_bool x 0.

(** A title or subtitle is drawn when it is a non-empty string. *)
Definition present (s : option string) : bool :=
  match s with
  | Some (String _ _) => true
  | _ => false
  end.

Definition scale : Q := 2.
Definition padding : Q := 20.
Definition titleLineHeight : Q := 18 * (13 # 10).
Definition subtitleLineHeight : Q := 13 * (14 # 10).
Definition gapAfterHeader : Q := 12.

Definition headerHeight (title subtitle : option string) : Q :=
  (if present title then titleLineHeight else 0)
  + (if present subtitle then subtitleLineHeight else 0)
  + (if present title || present subtitle then gapAfterHeader else 0).

(** [exportChartPng(container, filename, title, subtitle)].
    [container] is [None] for a null container, [Some None] for a
    container without an [<svg>]; [decodes] is the outcome of loading the
    serialised SVG as an image ([onload] against [onerror]). *)
Definition exportChartPng (container : option (option svgBox)) (filename : string)
    (title subtitle : option string) (decodes : bool) : list effect :=
  match container with
  | None | Some None => []
  | Some (Some svg) =>
      if is_zero (boxWidth svg) || is_zero (boxHeight svg) then
        [Warn "PNG export: SVG has zero dimensions — chart may not be rendered yet"]
      else if decodes then
        [DownloadPng (filename ++ ".png")
           ((boxWidth svg + padding * 2) * scale)
           ((boxHeight svg + padding * 2 + headerHeight title subtitle) * scale)]
      else [Warn "PNG export: failed to load SVG as image"]
  end.

End ExportPng.

(* ===================================================================== *)
(** ** The trade store: filters *)
(* ===================================================================== *)

Module TradeStore.
Import JS.

(** The store: four datasets (null before loading), the loading and error
    flags, and the filter object. *)
Record state : Type :=
  { usAggregated : option (list row);
    txBorderPorts : option (list row);
    btsUsState : option (list row);
    masterData : option (list row);
    loading : bool;
    error : option string;
    filters : gmap string string }.

Definition filterKeys : list string :=
  ["year"; "tradeType"; "mode"; "state"; "commodityGroup"; "port"].

(** [{ year: '', tradeType: '', mode: '', state: '', commodityGroup: '', port: '' }] *)
Definition emptyFilters : gmap string string :=
  list_to_map (List.map (fun key => (key, EmptyString)) filterKeys).

Definition initial : state :=
  {| usAggregated := None; txBorderPorts := None; btsUsState := None;
     masterData := None; loading := true; error := None;
     filters := emptyFilters |}.

(** [set(partial)] with a partial state that only has [filters]. *)
Definition with_filters (f : gmap string string) (s : state) : state :=
  {| usAggregated := usAggregated s; txBorderPorts := txBorderPorts s;
     btsUsState := btsUsState s; masterData := masterData s;
     loading := loading s; error := error s; filters := f |}.

(** [setFilter(key, value)]: [{ ...state.filters, [key]: value }] *)
Definition setFilter (key value : string) (s : state) : state :=
  with_filters (<[key := value]> (filters s)) s.

(** [resetFilters()] *)
Definition resetFilters (s : state) : state := with_filters emptyFilters s.

End TradeStore.

(* ===================================================================== *)
(** ** Sample inputs *)
(* ===================================================================== *)

Module Samples.
Import JS.

(** A StringToNumber that reads no string as a number. *)
Definition nan_strings : string -> option Q := fun _ => None.

Definition years_2013_2016 : list row :=
  [[("Year", JNum 2013)]; [("Year", JNum 2014)]; [("Year", JNum 2015)];
   [("Year", JNum 2016)]].

Definition trend_payload : ChartCard.downloadData :=
  {| ChartCard.summary :=
       Some {| ChartCard.data := Some years_2013_2016;
               ChartCard.filename := "trade-trends-summary" |};
     ChartCard.detail := None |}.

Definition range_2014_2015 : ChartCard.zoomRange :=
  {| ChartCard.xKey := "year"; ChartCard.min := 2014; ChartCard.max := 2015 |}.

(** A table whose only column has the empty name. *)
Definition unnamed_column_payload : ChartCard.downloadData :=
  {| ChartCard.summary :=
       Some {| ChartCard.data := Some [[("", JNum 5)]]; ChartCard.filename := "summary" |};
     ChartCard.detail := None |}.

Definition unnamed_column_range : ChartCard.zoomRange :=
  {| ChartCard.xKey := ""; ChartCard.min := 10; ChartCard.max := 20 |}.

(** A range on an axis field named as a member of [Object.prototype]. *)
Definition constructor_range : ChartCard.zoomRange :=
  {| ChartCard.xKey := "constructor"; ChartCard.min := 2014; ChartCard.max := 2015 |}.

(** Yearly points of one series. *)
Definition point (year value : Z) : LineChart.datum :=
  {| LineChart.dx := inject_Z year; LineChart.dy := inject_Z value;
     LineChart.dseries := "Export" |}.

Definition three_years : list LineChart.datum :=
  [point 2022 10; point 2023 20; point 2024 30].

Definition four_years : list LineChart.datum :=
  [point 2021 5; point 2022 10; point 2023 20; point 2024 30].

(** The unzoomed scale of [four_years] on a plot 300 wide. *)
Definition four_years_scale : LineChart.linear :=
  {| LineChart.domain := (2021, 2024); LineChart.range := (0, 300) |}.

(** Zoomed in twice around the middle of the plot. *)
Definition zoom_twice : LineChart.transform :=
  {| LineChart.k := 2; LineChart.tx := -150; LineChart.ty := 0 |}.

Definition fresh_chart : LineChart.chart :=
  {| LineChart.currentX := four_years_scale; LineChart.tooltip := LineChart.TipHidden;
     LineChart.resetShown := false |}.

(** Four points a quarter apart, and their unzoomed scale. *)
Definition quarters : list LineChart.datum :=
  [ {| LineChart.dx := 0; LineChart.dy := 1; LineChart.dseries := "a" |};
    {| LineChart.dx := 1 # 4; LineChart.dy := 2; LineChart.dseries := "a" |};
    {| LineChart.dx := 1 # 2; LineChart.dy := 3; LineChart.dseries := "a" |};
    {| LineChart.dx := 3 # 4; LineChart.dy := 4; LineChart.dseries := "a" |} ].

Definition quarters_scale : LineChart.linear :=
  {| LineChart.domain := (0, 3 # 4); LineChart.range := (0, 300) |}.

(** Twelve years on a plot 660 wide. *)
Definition twelve_years : list LineChart.datum :=
  List.map (fun y => point y 1)
    [2013; 2014; 2015; 2016; 2017; 2018; 2019; 2020; 2021; 2022; 2023; 2024]%Z.

Definition twelve_years_scale : LineChart.linear :=
  {| LineChart.domain := (2013, 2024); LineChart.range := (0, 660) |}.

(** A transform the animated reset passes through on its way from the
    view zoomed in four times at the left edge of that plot to the
    identity: about halfway the zoom factor is near 1.67 and the plot is
    shifted to the right by near 109.6 pixels. *)
Definition reset_midway : LineChart.transform :=
  {| LineChart.k := 167 # 100; LineChart.tx := 548 # 5; LineChart.ty := 0 |}.

(** Two years with a gap between them, on a plot 100 wide. *)
Definition gap_years : list LineChart.datum := [point 2020 10; point 2022 30].

Definition gap_chart : LineChart.chart :=
  {| LineChart.currentX :=
       {| LineChart.domain := (2020, 2022); LineChart.range := (0, 100) |};
     LineChart.tooltip := LineChart.TipHidden;
     LineChart.resetShown := false |}.

(** Two trade rows, one without a transportation mode. *)
Definition truck_row : row := [("Mode", JStr "Truck"); ("TradeValue", JNum 7)].
Definition modeless_row : row := [("Mode", JNull); ("TradeValue", JNum 5)].

(** The double nearest to 0.1, and three rows with fractional values. *)
Definition tenth : Q := 3602879701896397 # 36028797018963968.

Definition fractional_rows : list row :=
  [ [("Mode", JStr "Truck"); ("TradeValue", JNum tenth)];
    [("Mode", JStr "Rail"); ("TradeValue", JNum tenth)];
    [("Mode", JStr "Truck"); ("TradeValue", JNum 1)] ].

Definition keep_all : row -> bool := fun _ => true.

(** SVG nodes by tag name, a drawing, and an SVG that was drawn before. *)
Definition sample_draw (r : Charts.renderer) (p : Charts.props) : list string :=
  ["g"; "defs"].

Definition empty_data_props : Charts.props :=
  {| Charts.dataLength := 0; Charts.width := 640; Charts.stackKeysLength := 2 |}.

Definition drawn_svg : list string := ["g"].

(** An SVG that has not been laid out, and one that has. *)
Definition unmeasured_svg : ExportPng.svgBox :=
  {| ExportPng.boxWidth := 0; ExportPng.boxHeight := 0 |}.

Definition measured_svg : ExportPng.svgBox :=
  {| ExportPng.boxWidth := 640; ExportPng.boxHeight := 320 |}.

(** A Number::toString for whole numbers of one digit; other numbers are
    not used in the samples. *)
Definition digit_string (q : Q) : string :=
  String (ascii_of_nat (48 + Z.to_nat (Qfloor q))) EmptyString.

(** A small table with a comma, quotes and a line break in its values. *)
Definition quoted_text : string :=
  "say " ++ String Csv.dquote ("hi" ++ String Csv.dquote EmptyString).

Definition two_lines : string := "up" ++ String Csv.lf "down".

Definition table_head : row := [("a", JStr "x,y"); ("b", JNum 1)].

Definition table_tail : list row :=
  [[("a", JStr quoted_text); ("b", JNull)]; [("a", JNull); ("b", JStr two_lines)]].

(** A table whose column name holds a comma. *)
Definition comma_named_head : row := [("City, State", JStr "Austin, TX")].

End Samples.

(* ===================================================================== *)
(** ** The trade store: loading and normalising the CSV rows *)
(* ===================================================================== *)

Module Loader.
Import JS.

(** *** Objects as they are mutated *)

(** [k in r] *)
Fixpoint has_key (r : row) (k : string) : bool :=
  match r with
  | [] => false
  | (k', _) :: r' => String.eqb k' k || has_key r' k
  end.

(** [r[k] = v]: an existing property keeps its place, a new one goes last. *)
Fixpoint set (r : row) (k : string) (v : jsval) : row :=
  match r with
  | [] => [(k, v)]
  | (k', w) :: r' => if String.eqb k' k then (k', v) :: r' else (k', w) :: set r' k v
  end.

(** [delete r[k]] *)
Fixpoint delete (r : row) (k : string) : row :=
  match r with
  | [] => []
  | (k', w) :: r' => if String.eqb k' k then delete r' k else (k', w) :: delete r' k
  end.

(** *** Strings *)

(** Strings are read over the ASCII range, where the class [\s] and the
    blanks of [trim()] are the same six characters. *)

(** Text in the ASCII range. *)
Fixpoint ascii_text (s : string) : bool :=
  match s with
  | EmptyString => true
  | String c rest => (nat_of_ascii c <? 128)%nat && ascii_text rest
  end.

(** The ASCII characters of the class [\s]: tab, line feed, vertical tab,
    form feed, carriage return, space. *)
Definition is_space (c : ascii) : bool :=
  let n := nat_of_ascii c in
  ((9 <=? n)%nat && (n <=? 13)%nat) || (n =? 32)%nat.

(** The class [[$,\s]] *)
Definition is_separator (c : ascii) : bool :=
  (nat_of_ascii c =? 36)%nat || (nat_of_ascii c =? 44)%nat || is_space c.

(** The global replace of [[$,\s]] by nothing. *)
Fixpoint strip (s : string) : string :=
  match s with
  | EmptyString => EmptyString
  | String c rest => if is_separator c then strip rest else String c (strip rest)
  end.

Fixpoint ltrim (s : string) : string :=
  match s with
  | EmptyString => EmptyString
  | String c rest => if is_space c then ltrim rest else s
  end.

Fixpoint rtrim (s : string) : string :=
  match s with
  | EmptyString => EmptyString
  | String c rest =>
      match rtrim rest with
      | EmptyString => if is_space c then EmptyString else String c EmptyString
      | kept => String c kept
      end
  end.

(** A string that does not start with a blank, and one without blanks. *)
Definition lead_ok (t : string) : Prop :=
  match t with
  | EmptyString => True
  | String c _ => is_space c = false
  end.

Fixpoint spaceless (s : string) : bool :=
  match s with
  | EmptyString => true
  | String c rest => negb (is_space c) && spaceless rest
  end.

(** [s.trim()] *)
Definition trim (s : string) : string := rtrim (ltrim s).

Definition is_digit (c : ascii) : bool :=
  ((48 <=? nat_of_ascii c)%nat && (nat_of_ascii c <=? 57)%nat).

Definition digit (c : ascii) : Z := Z.of_nat (nat_of_ascii c - 48).

(** The first match of four digits in a row, as a number. *)
Fixpoint first4 (s : string) : option Z :=
  match s with
  | EmptyString => None
  | String a rest =>
      match rest with
      | String b (String c (String d _)) =>
          if is_digit a && is_digit b && is_digit c && is_digit d
          then Some (1000 * digit a + 100 * digit b + 10 * digit c + digit d)%Z
          else first4 rest
      | _ => None
      end
  end.

(** [Math.trunc] *)
Definition trunc (q : Q) : Z := if Qle_bool 0 q then Qfloor q else Qceiling q.

Section Parse.

(** [Number(s)] when that is a finite number, [None] when it is NaN or
    infinite; a parameter. *)
Variable number_of_string : string -> option Q.

(** [parseLooseNumber] *)
Definition parseLooseNumber (value : jsval) : Q :=
  match value with
  | JNum q => q
  | JStr s =>
      let cleaned := trim (strip s) in
      match cleaned with
      | EmptyString => 0%Q
      | _ => match number_of_string cleaned with
             | Some parsed => parsed
             | None => 0%Q
             end
      end
  | _ => 0%Q
  end.

(** [parseLooseYear]: null ([None]) or a whole number. *)
Definition parseLooseYear (value : jsval) : option Z :=
  match value with
  | JNum q => Some (trunc q)
  | JStr s =>
      let trimmed := trim s in
      match trimmed with
      | EmptyString => None
      | _ => match number_of_string trimmed with
             | Some direct => Some (trunc direct)
             | None => first4 trimmed
             end
      end
  | _ => None
  end.

(** [normalizeText] *)
Definition normalizeText (value : jsval) : jsval :=
  match value with
  | JStr s =>
      match trim s with
      | EmptyString => JNull
      | trimmed => JStr trimmed
      end
  | _ => value
  end.

(** A parsed year as it is stored. *)
Definition yearValue (y : option Z) : jsval :=
  match y with
  | Some z => JNum (inject_Z z)
  | None => JNull
  end.

(** [if (from in d) { d[to] = d[from]; delete d[from] }] *)
Definition rename (from to : string) (d : row) : row :=
  if has_key d from then delete (set d to (get d from)) from else d.

(** The string columns that are normalised. *)
Definition textColumns : list string :=
  ["TradeType"; "CommodityGroup"; "Mode"; "State"; "POE"; "Region"; "Commodity"; "Port"].

(** [if (key in d) d[key] = normalizeText(d[key])] *)
Definition normalizeColumn (d : row) (key : string) : row :=
  if has_key d key then set d key (normalizeText (get d key)) else d.

(** [normalize]: the aliases, the numeric coercions, the text columns. *)
Definition normalize (d : row) : row :=
  let d1 := rename "Trade Value" "TradeValue" d in
  let d2 := rename "Trade Type" "TradeType" d1 in
  let d3 := rename "Commodity Group" "CommodityGroup" d2 in
  let d4 := if has_key d3 "Port of Entry" && negb (has_key d3 "POE")
            then rename "Port of Entry" "POE" d3 else d3 in
  let d5 := set d4 "Year" (yearValue (parseLooseYear (get d4 "Year"))) in
  let d6 := set d5 "TradeValue" (JNum (parseLooseNumber (get d5 "TradeValue"))) in
  List.fold_left normalizeColumn textColumns d6.

End Parse.

(** The row after the first four steps of [normalize]: the aliases and the
    port-of-entry step. *)
Definition aliased (d : row) : row :=
  let d3 := rename "Commodity Group" "CommodityGroup"
              (rename "Trade Type" "TradeType" (rename "Trade Value" "TradeValue" d)) in
  if has_key d3 "Port of Entry" && negb (has_key d3 "POE")
  then rename "Port of Entry" "POE" d3 else d3.

(** *** Schema warnings *)

(** What the loader logs: [console.warn(msg)], and [console.error(label, err)]
    with the error given by its message. *)
Inductive log : Type :=
| LogWarn (msg : string)
| LogError (label err : string).

(** [keys.has(col)] for [keys = collectColumns(rows, sampleSize)]: the
    column is a key of one of the first [sampleSize] rows. *)
Definition sampled (rows : list row) (sampleSize : nat) (col : string) : bool :=
  List.existsb (fun r => has_key r col) (List.firstn sampleSize rows).

(** [warnIfMissingColumns(datasetName, rows, requiredColumns)] *)
Definition warnIfMissingColumns (datasetName : string) (rows : list row)
    (requiredColumns : list string) : list log :=
  match rows with
  | [] => [LogWarn ("[tradeStore] " ++ datasetName
                    ++ " is empty. Charts/tables will render empty states until data is provided.")]
  | _ =>
      match List.filter (fun col => negb (sampled rows 200 col)) requiredColumns with
      | [] => []
      | missing =>
          [LogWarn ("[tradeStore] " ++ datasetName ++ " missing expected columns: "
                    ++ Csv.join ", " missing
                    ++ ". Update tradeStore normalization and page mappings for the new schema.")]
      end
  end.

(** *** loadData *)

(** What the four fetches give: a rejection with its message, or the four
    parsed files. *)
Inductive fetched : Type :=
| Rejected (message : string)
| Parsed (usAgg txPorts usState master : list row).

Section Load.

Variable number_of_string : string -> option Q.

(** [loadData]: the store after the load, and what was logged. *)
Definition loadData (f : fetched) (s : TradeStore.state) : TradeStore.state * list log :=
  let started :=
    {| TradeStore.usAggregated := TradeStore.usAggregated s;
       TradeStore.txBorderPorts := TradeStore.txBorderPorts s;
       TradeStore.btsUsState := TradeStore.btsUsState s;
       TradeStore.masterData := TradeStore.masterData s;
       TradeStore.loading := true;
       TradeStore.error := None;
       TradeStore.filters := TradeStore.filters s |} in
  match f with
  | Rejected message =>
      ({| TradeStore.usAggregated := TradeStore.usAggregated started;
          TradeStore.txBorderPorts := TradeStore.txBorderPorts started;
          TradeStore.btsUsState := TradeStore.btsUsState started;
          TradeStore.masterData := TradeStore.masterData started;
          TradeStore.loading := false;
          TradeStore.error := Some message;
          TradeStore.filters := TradeStore.filters started |},
       [LogError "Failed to load data:" message])
  | Parsed usAgg txPorts usState master =>
      let usAgg' := List.map (normalize number_of_string) usAgg in
      let txPorts' := List.map (normalize number_of_string) txPorts in
      let usState' := List.map (normalize number_of_string) usState in
      let master' := List.map (normalize number_of_string) master in
      ({| TradeStore.usAggregated := Some usAgg';
          TradeStore.txBorderPorts := Some txPorts';
          TradeStore.btsUsState := Some usState';
          TradeStore.masterData := Some master';
          TradeStore.loading := false;
          TradeStore.error := TradeStore.error started;
          TradeStore.filters := TradeStore.filters started |},
       warnIfMissingColumns "usAggregated" usAgg' ["Year"; "TradeType"; "TradeValue"]
       ++ warnIfMissingColumns "txBorderPorts" txPorts'
            ["Year"; "POE"; "Region"; "Mode"; "TradeType"; "TradeValue"]
       ++ warnIfMissingColumns "btsUsState" usState'
            ["Year"; "State"; "Mode"; "TradeType"; "TradeValue"]
       ++ warnIfMissingColumns "masterData" master' ["Year"; "TradeType"; "TradeValue"])
  end.

End Load.

Definition is_warning (l : log) : bool :=
  match l with
  | LogWarn _ => true
  | LogError _ _ => false
  end.

(** A text value as the loader leaves it: null, or a string that is not
    empty and has no blank at either end; other values are not strings. *)
Definition clean_text (v : jsval) : Prop :=
  match v with
  | JStr s => s <> EmptyString /\ trim s = s
  | _ => True
  end.

End Loader.

(* ===================================================================== *)
(** ** The chat responder's filter helpers, and more on the aggregators *)
(* ===================================================================== *)

Module AiClient.
Import JS.

(** [filters.key] when it is truthy: a non-empty string. *)
Definition active (filters : gmap string string) (key : string) : option string :=
  match filters !! key with
  | Some (String c rest) => Some (String c rest)
  | _ => None
  end.

(** [v === s] for a string [s] *)
Definition is_string (v : jsval) (s : string) : bool :=
  match v with
  | JStr t => String.eqb t s
  | _ => false
  end.

(** [v === n] for a number [n]; [None] is NaN, which equals nothing. *)
Definition is_number (v : jsval) (n : option Q) : bool :=
  match v, n with
  | JNum q, Some m => Qeq_bool q m
  | _, _ => false
  end.

(** [if (f && !test(f)) return false], as the condition to go on. *)
Definition passes (f : option string) (test : string -> bool) : bool :=
  match f with
  | Some v => test v
  | None => true
  end.

Section Filters.

Variable string_to_number : string -> option Q.

(** The callback of [data.filter] in [applyFilters]. *)
Definition keepRow (filters : gmap string string) (d : row) : bool :=
  passes (active filters "year")
         (fun y => is_number (get d "Year") (string_to_number y))
  && passes (active filters "tradeType") (is_string (get d "TradeType"))
  && passes (active filters "mode") (is_string (get d "Mode"))
  && passes (active filters "state") (is_string (get d "State"))
  && passes (active filters "commodityGroup") (is_string (get d "CommodityGroup"))
  && passes (active filters "port") (is_string (get d "POE")).

(** [applyFilters(data, filters)] *)
Definition applyFilters (data : list row) (filters : option (gmap string string))
  : list row :=
  match filters with
  | None => data
  | Some f => List.filter (keepRow f) data
  end.

End Filters.

(** The [parts] of [describeFilters], in order. *)
Definition filterParts (f : gmap string string) : list string :=
  (match active f "year" with Some v => [("Year: " ++ v)%string] | None => [] end)
  ++ (match active f "tradeType" with Some v => [v] | None => [] end)
  ++ (match active f "mode" with Some v => [("Mode: " ++ v)%string] | None => [] end)
  ++ (match active f "state" with Some v => [("State: " ++ v)%string] | None => [] end)
  ++ (match active f "commodityGroup" with Some v => [("Commodity: " ++ v)%string] | None => [] end)
  ++ (match active f "port" with Some v => [("Port: " ++ v)%string] | None => [] end).

(** [describeFilters(filters)] *)
Definition describeFilters (filters : option (gmap string string)) : string :=
  match filters with
  | None => EmptyString
  | Some f =>
      match filterParts f with
      | [] => EmptyString
      | parts => (" (filtered by " ++ Csv.join ", " parts ++ ")")%string
      end
  end.

(** The column a filter key restricts. *)
Definition textFilters : list (string * string) :=
  [("tradeType", "TradeType"); ("mode", "Mode"); ("state", "State");
   ("commodityGroup", "CommodityGroup"); ("port", "POE")].

(** No filter key of the six is set. *)
Definition unrestricted (f : gmap string string) : Prop :=
  forall key, In key TradeStore.filterKeys -> active f key = None.

(** Entry [e] of a series has a label unlike every label in [s]. *)
Definition apart_from (k : jsval) (s : list (jsval * Q)) : Prop :=
  forall e, In e s -> same_value k (fst e) = false.

(** No two entries of a series have the same label. *)
Fixpoint labels_apart (s : list (jsval * Q)) : Prop :=
  match s with
  | [] => True
  | e :: rest => apart_from (fst e) rest /\ labels_apart rest
  end.

(** Every value is at least as large as the values after it. *)
Fixpoint descending (s : list (jsval * Q)) : Prop :=
  match s with
  | [] => True
  | e :: rest => (forall f, In f rest -> (snd f <= snd e)%Q) /\ descending rest
  end.

(** The rows whose column [key] holds [label], and their trade value,
    summed in the order of the rows. *)
Definition rowsOf (key : string) (label : jsval) (data : list row) : list row :=
  List.filter (fun d => truthy (get d key) && same_value (get d key) label) data.

Definition labelSum (key : string) (label : jsval) (data : list row) : Q :=
  Aggregators.sumTradeValue (rowsOf key label data).

(** Series [m] is the grouping of [rows] by column [key]: its labels are
    pairwise different and truthy, the value under a label is the trade
    value of the rows with that label, and every labelled row is counted
    under some label. *)
Definition grouped (key : string) (rows : list row) (m : list (jsval * Q)) : Prop :=
  labels_apart m
  /\ (forall l v, In (l, v) m ->
                  truthy l = true /\ (v == labelSum key l rows)%Q)
  /\ (forall d, In d rows -> truthy (get d key) = true ->
                exists l v, In (l, v) m /\ same_value l (get d key) = true).

End AiClient.

(* ===================================================================== *)
(** ** The Home page: latest year and the trade-trend series *)
(* ===================================================================== *)

Module HomePage.
Import JS.
Local Open Scope Q_scope.

(** [Math.max(a, b)] *)
Definition qmax (a b : Q) : Q := if Qle_bool a b then b else a.

(** A point of the trend series: [{ year, value, TradeType }]. *)
Record trendPoint : Type := { year : jsval; value : Q; TradeType : jsval }.

(** [a.year - b.year] reads the years as numbers; on the rows of the
    store [Year] is a number or null, and null reads as 0. *)
Definition yearNumber (v : jsval) : Q :=
  match v with
  | JNum q => q
  | _ => 0
  end.

(** [points.sort((a, b) => a.year - b.year)]: ascending by year, stable. *)
Fixpoint insert_by_year (p : trendPoint) (l : list trendPoint) : list trendPoint :=
  match l with
  | [] => [p]
  | e :: rest =>
      if Qle_bool (yearNumber (year p)) (yearNumber (year e)) then p :: e :: rest
      else e :: insert_by_year p rest
  end.

Definition sortByYear (l : list trendPoint) : list trendPoint :=
  List.fold_right insert_by_year [] l.

(** The [Map] from the key [Year|TradeType] to its point. *)
Definition trendMap : Type := list (string * trendPoint).

Definition has (m : trendMap) (key : string) : bool :=
  List.existsb (fun e => String.eqb (fst e) key) m.

(** [m.get(key).value += v] *)
Fixpoint bump (m : trendMap) (key : string) (v : Q) : trendMap :=
  match m with
  | [] => []
  | (k, p) :: rest =>
      if String.eqb k key
      then (k, {| year := year p; value := Double.plus (value p) v;
                  TradeType := TradeType p |}) :: rest
      else (k, p) :: bump rest key v
  end.

(** [selectedMode ? rows.filter((d) => d.Mode === selectedMode) : rows] *)
Definition sourceRows (selectedMode : option string) (rows : list row) : list row :=
  match selectedMode with
  | Some (String c rest) =>
      List.filter (fun d => AiClient.is_string (get d "Mode") (String c rest)) rows
  | _ => rows
  end.

Section Trend.

(** The conversion of a value inside a template literal; a parameter. *)
Variable to_string : jsval -> string.

(** [`${d.Year}|${d.TradeType}`] *)
Definition trendKey (d : row) : string :=
  (to_string (get d "Year") ++ "|" ++ to_string (get d "TradeType"))%string.

(** The body of [source.forEach]. *)
Definition trendStep (m : trendMap) (d : row) : trendMap :=
  let key := trendKey d in
  let m1 :=
    if has m key then m
    else m ++ [(key, {| year := get d "Year"; value := 0;
                        TradeType := get d "TradeType" |})] in
  bump m1 key (Aggregators.tradeValue d).

(** [trendLineData] *)
Definition trendLineData (usAggregated : option (list row))
    (selectedMode : option string) : list trendPoint :=
  match usAggregated with
  | None => []
  | Some rows =>
      sortByYear
        (List.map snd (List.fold_left trendStep (sourceRows selectedMode rows) []))
  end.

End Trend.

Section Latest.

Variable string_to_number : string -> option Q.

(** [rows.map((d) => Number(d.Year)).filter((y) => Number.isFinite(y))] *)
Fixpoint finiteYears (rows : list row) : list Q :=
  match rows with
  | [] => []
  | d :: rest =>
      match to_number string_to_number (get d "Year") with
      | Some y => y :: finiteYears rest
      | None => finiteYears rest
      end
  end.

(** [latestYear]: null when there is no row or no finite year, else the
    largest year. *)
Definition latestYear (usAggregated : option (list row)) : option Q :=
  match usAggregated with
  | None => None
  | Some rows =>
      match finiteYears rows with
      | [] => None
      | y :: ys => Some (List.fold_left qmax ys y)
      end
  end.

End Latest.

(** The total of a trend series, in exact arithmetic. *)
Definition trendTotal (s : list trendPoint) : Q :=
  List.fold_right (fun p acc => value p + acc) 0 s.

(** The body of [source.forEach] in [topStates]. *)
Definition stateStep (byState : Aggregators.jsmap) (d : row) : Aggregators.jsmap :=
  let state := get d "State" in
  if truthy state then
    let m1 := if Aggregators.map_has byState state then byState
              else Aggregators.map_set byState state 0 in
    Aggregators.map_set m1 state
      (Double.plus (Aggregators.or_zero (Aggregators.map_get m1 state))
         (Aggregators.tradeValue d))
  else byState.

(** [d.label && d.label !== 'undefined'] *)
Definition keepLabel (e : jsval * Q) : bool :=
  truthy (fst e) && negb (AiClient.is_string (fst e) "undefined").

(** The states and their totals as [topStates] has them before the sort
    and the cut. *)
Definition stateTotals (selectedMode : option string) (rows : list row)
  : list (jsval * Q) :=
  List.filter keepLabel (List.fold_left stateStep (sourceRows selectedMode rows) []).

(** [topStates]: sorted by value, largest first, and cut to ten. *)
Definition topStates (btsUsState : option (list row)) (selectedMode : option string)
  : list (jsval * Q) :=
  match btsUsState with
  | None => []
  | Some rows => List.firstn 10 (Aggregators.sortDesc (stateTotals selectedMode rows))
  end.

End HomePage.

(* ===================================================================== *)
(** ** Chart layout: font size, plot area, tooltip position, labels *)
(* ===================================================================== *)

Module Layout.
Import JS.
Local Open Scope Q_scope.

(** [Math.min(a, b)] *)
Definition qmin (a b : Q) : Q := if Qle_bool a b then a else b.

(** [getResponsiveFontSize(width, isFullscreen)] *)
Definition getResponsiveFontSize (width : Q) (isFullscreen : bool) : Z :=
  if negb isFullscreen then 16%Z
  else LineChart.round (HomePage.qmax 18 (qmin 22 (14 + width / 200))).

(** The margins of the line chart. *)
Record margin : Type := { top : Q; right : Q; bottom : Q; left : Q }.

Definition lineMargin (isFullscreen : bool) : margin :=
  if isFullscreen then {| top := 20; right := 36; bottom := 72; left := 100 |}
  else {| top := 16; right := 28; bottom := 60; left := 80 |}.

(** The width of a legend item: dot, gap, text at 0.55 of the font size
    per character, gap to the next item. *)
Definition legendItemWidth (fontSize : Z) (name : string) : Q :=
  6 * 2 + 10 + inject_Z (Z.of_nat (String.length name)) * (inject_Z fontSize * (55 # 100)) + 28.

(** The body of [seriesNames.forEach] on [(rowOffset, legendRows)]. *)
Definition legendStep (fontSize : Z) (availW : Q) (st : Q * Z) (name : string) : Q * Z :=
  let itemW := legendItemWidth fontSize name in
  if negb (Qle_bool (fst st + itemW) availW) && negb (Qle_bool (fst st) 0)
  then (0 + itemW, (snd st + 1)%Z)
  else (fst st + itemW, snd st).

(** [legendRows]: 0 without a legend (no series key or a single series). *)
Definition legendRows (seriesKey : bool) (names : list string) (width : Q)
    (fontSize : Z) (m : margin) : Z :=
  if seriesKey && (1 <? List.length names)%nat then
    snd (List.fold_left (legendStep fontSize (width - left m - right m)) names (0, 1%Z))
  else 0%Z.

Definition legendSpace (rows : Z) : Q :=
  if (0 <? rows)%Z then 16 + inject_Z rows * 28 else 0.

(** The size of the SVG and of the plot area inside the margins. *)
Record plot : Type := { height : Q; innerW : Q; innerH : Q }.

(** The layout of the line chart for a measured container. *)
Definition linePlot (width containerHeight : Q) (isFullscreen seriesKey : bool)
    (names : list string) : plot :=
  let fontSize := getResponsiveFontSize width isFullscreen in
  let m := lineMargin isFullscreen in
  let space := legendSpace (legendRows seriesKey names width fontSize m) in
  let defaultH := 300 + space in
  let h := HomePage.qmax defaultH
             (if negb (Qle_bool containerHeight 100) then containerHeight else defaultH) in
  {| height := h;
     innerW := HomePage.qmax 1 (width - left m - right m);
     innerH := HomePage.qmax 1 (h - top m - bottom m - space) |}.

(** Where the tooltip goes for a pointer at [(clientX, clientY)], a
    tooltip of size [tipW] x [tipH] and a viewport of size
    [innerWidth] x [innerHeight]. *)
Definition tooltipPosition (clientX clientY tipW tipH innerWidth innerHeight : Q) : Q * Q :=
  let pad := 12 in
  let tx0 := clientX + 16 in
  let tx1 := if negb (Qle_bool (tx0 + tipW + pad) innerWidth)
             then clientX - tipW - 16 else tx0 in
  let ty0 := clientY - tipH - 10 in
  let ty1 := if negb (Qle_bool pad ty0) then clientY + 16 else ty0 in
  (HomePage.qmax pad (qmin tx1 (innerWidth - tipW - pad)),
   HomePage.qmax pad (qmin ty1 (innerHeight - tipH - pad))).

Section Labels.

(** The code units of a string, and the unit of the ellipsis. *)
Variable unit : Type.
Variable ellipsis : unit.

(** [text.slice(0, stop)]: a negative [stop] counts from the end. *)
Definition slice0 (stop : Z) (text : list unit) : list unit :=
  if (stop <? 0)%Z
  then List.firstn (Z.to_nat (Z.max 0 (Z.of_nat (List.length text) + stop))) text
  else List.firstn (Z.to_nat stop) text.

(** [Math.max(1, Math.floor((w - pad * 2) / (fs * 0.6)))] for a cell
    [w] wide and a label of font size [fs].  Both come from [parseFloat]
    and are [None] when that gives NaN; [parseFloat(leaf.fontSize) || 12]
    reads NaN and 0 as 12.  The result is [None] when it is NaN. *)
Definition maxCharsFor (w fs : option Q) : option Z :=
  let size := match fs with
              | Some q => if Qeq_bool q 0 then 12 else q
              | None => 12
              end in
  match w with
  | Some width => Some (Z.max 1 (Qfloor ((width - 6 * 2) / (size * (6 # 10)))))
  | None => None
  end.

(** The label of a treemap cell in the exported image:
    [text.length > maxChars ? text.slice(0, maxChars - 1) + ellipsis : text]
    (a comparison with NaN is false). *)
Definition exportLabel (w fs : option Q) (text : list unit) : list unit :=
  match maxCharsFor w fs with
  | Some maxChars =>
      if (maxChars <? Z.of_nat (List.length text))%Z
      then slice0 (maxChars - 1) text ++ [ellipsis]
      else text
  | None => text
  end.

(** The tick label of a horizontal bar chart, for [labelSpace] pixels
    and [charW] pixels per character. *)
Definition horizontalTickLabel (labelSpace charW : Q) (text : list unit) : list unit :=
  if Qle_bool (inject_Z (Z.of_nat (List.length text)) * charW) labelSpace then text
  else slice0 (Qfloor (labelSpace / charW) - 1) text ++ [ellipsis].

End Labels.

Arguments slice0 {unit} stop text.
Arguments exportLabel {unit} ellipsis w fs text.
Arguments horizontalTickLabel {unit} ellipsis labelSpace charW text.

End Layout.

(* ===================================================================== *)
(** ** The card's buttons: PNG export name, CSV download button *)
(* ===================================================================== *)

Module Buttons.
Import JS Browser.

(** [c.toLowerCase()] on an ASCII character. *)
Definition lower_char (c : ascii) : ascii :=
  let n := nat_of_ascii c in
  if (65 <=? n)%nat && (n <=? 90)%nat then ascii_of_nat (n + 32) else c.

Fixpoint lower (s : string) : string :=
  match s with
  | EmptyString => EmptyString
  | String c rest => String (lower_char c) (lower rest)
  end.

Definition dash : ascii := ascii_of_nat 45.

(** The global replace of [\s+] by a dash; [inRun] tells that the
    character before was a blank of the run being replaced. *)
Fixpoint dashes (inRun : bool) (s : string) : string :=
  match s with
  | EmptyString => EmptyString
  | String c rest =>
      if Loader.is_space c
      then (if inRun then dashes true rest else String dash (dashes true rest))
      else String c (dashes false rest)
  end.

(** [title?.replace(/\s+/g, '-').toLowerCase() || 'chart'] *)
Definition exportName (title : option string) : string :=
  match title with
  | None => "chart"
  | Some t =>
      match lower (dashes false t) with
      | EmptyString => "chart"
      | name => name
      end
  end.

(** [handleExportPng] of the chart card. *)
Definition handleExportPng (chartArea : option (option ExportPng.svgBox))
    (title subtitle : option string) (decodes : bool) : list effect :=
  ExportPng.exportChartPng chartArea (exportName title) title subtitle decodes.

(** A name made for a file: no blank, no capital letter. *)
Fixpoint file_safe (s : string) : bool :=
  match s with
  | EmptyString => true
  | String c rest =>
      negb (Loader.is_space c)
      && negb ((65 <=? nat_of_ascii c)%nat && (nat_of_ascii c <=? 90)%nat)
      && file_safe rest
  end.

(** *** DownloadButton *)

Inductive choice : Type := Summary | Detail.

(** [src?.data?.length > 0] *)
Definition hasRows (src : option ChartCard.dataset) : bool :=
  match src with
  | Some {| ChartCard.data := Some (_ :: _) |} => true
  | _ => false
  end.

(** The button is rendered unless neither dataset has rows. *)
Definition rendered (summary detail : option ChartCard.dataset) : bool :=
  hasRows summary || hasRows detail.

Definition singleOption (summary detail : option ChartCard.dataset) : option choice :=
  if hasRows summary && negb (hasRows detail) then Some Summary
  else if negb (hasRows summary) && hasRows detail then Some Detail
  else None.

Section Download.

Variable number_to_string : Q -> string.

(** [handleClick(type)]: the menu after the click, and the effects. *)
Definition handleClick (summary detail : option ChartCard.dataset) (type : choice)
  : bool * list effect :=
  let src := match type with Summary => summary | Detail => detail end in
  (false,
   match src with
   | Some s =>
       match ChartCard.data s with
       | Some (first :: rest) =>
           Csv.downloadCsv number_to_string (Some (first :: rest)) (ChartCard.filename s)
       | _ => []
       end
   | None => []
   end).

(** The click on the button itself, with the menu [open] or not. *)
Definition clickButton (summary detail : option ChartCard.dataset) (open : bool)
  : bool * list effect :=
  match singleOption summary detail with
  | Some type => handleClick summary detail type
  | None => (negb open, [])
  end.

End Download.

End Buttons.

(* ===================================================================== *)
(** ** The order of the points of a line *)
(* ===================================================================== *)

Module LineSeries.
Import LineChart.
Local Open Scope Q_scope.

(** The points are in ascending order of x: no point has a greater x
    than a point after it. *)
Fixpoint ascending (l : list datum) : Prop :=
  match l with
  | [] => True
  | d :: rest => (forall e, In e rest -> dx d <= dx e) /\ ascending rest
  end.

End LineSeries.

(* ===================================================================== *)
(** ** The chat store *)
(* ===================================================================== *)

Module ChatStore.

Inductive speaker : Type := User | Assistant.

(** A message: [{ id, role, content, timestamp }], and [suggestions]
    once they are attached. *)
Record message : Type :=
  { id : string;
    role : speaker;
    content : string;
    timestamp : Z;
    suggestions : option (list string) }.

Record state : Type :=
  { isOpen : bool;
    messages : list message;
    isLoading : bool;
    error : option string }.

Definition initial : state :=
  {| isOpen := false; messages := []; isLoading := false; error := None |}.

Definition toggle (s : state) : state :=
  {| isOpen := negb (isOpen s); messages := messages s;
     isLoading := isLoading s; error := error s |}.

Definition clearChat (s : state) : state :=
  {| isOpen := isOpen s; messages := []; isLoading := isLoading s; error := None |}.

(** [s.messages.map((m) => m.id === assistantId ? f(m) : m)] *)
Definition update (assistantId : string) (f : message -> message)
    (ms : list message) : list message :=
  List.map (fun m => if String.eqb (id m) assistantId then f m else m) ms.

(** [{ ...m, content: m.content + chunk }] *)
Definition appendChunk (chunk : string) (m : message) : message :=
  {| id := id m; role := role m; content := content m ++ chunk;
     timestamp := timestamp m; suggestions := suggestions m |}.

(** [{ ...m, suggestions }] *)
Definition attach (suggested : list string) (m : message) : message :=
  {| id := id m; role := role m; content := content m;
     timestamp := timestamp m; suggestions := Some suggested |}.

Definition apology : string :=
  "Sorry, I could not process your question. Please try again.".

(** [{ ...m, content: 'Sorry, ...' }] *)
Definition apologise (m : message) : message :=
  {| id := id m; role := role m; content := apology;
     timestamp := timestamp m; suggestions := suggestions m |}.

Definition userMsg (userId text : string) (now : Z) : message :=
  {| id := userId; role := User; content := text; timestamp := now;
     suggestions := None |}.

Definition placeholder (assistantId : string) (now : Z) : message :=
  {| id := assistantId; role := Assistant; content := ""; timestamp := now;
     suggestions := None |}.

(** The first update of [sendMessage]: the question and the empty answer
    are appended, the store is loading, the error is cleared. *)
Definition begin (userId assistantId text : string) (t1 t2 : Z) (s : state) : state :=
  {| isOpen := isOpen s;
     messages := messages s ++ [userMsg userId text t1; placeholder assistantId t2];
     isLoading := true;
     error := None |}.

(** [l.slice(-n)] *)
Definition lastN {A : Type} (n : nat) (l : list A) : list A :=
  List.skipn (List.length l - n) l.

(** [get().messages.filter((m) => m.content).slice(-10)] *)
Definition history (s : state) : list message :=
  lastN 10 (List.filter (fun m => negb (String.eqb (content m) "")) (messages s)).

(** The callback given to [sendChatMessage]. *)
Definition onChunk (assistantId chunk : string) (s : state) : state :=
  {| isOpen := isOpen s;
     messages := update assistantId (appendChunk chunk) (messages s);
     isLoading := isLoading s;
     error := error s |}.

(** What happens inside the [try]: the chunks that were delivered, and
    then either the suggestions, or an exception with its message. *)
Inductive reply : Type :=
| Answered (chunks : list string) (suggested : list string)
| Threw (chunks : list string) (message : string).

(** [sendMessage(text)], with the two fresh ids and the two clock
    readings it draws, and no other action on the store in between.  The
    result is the store at the end and the history that was passed on. *)
Definition sendMessage (userId assistantId text : string) (t1 t2 : Z) (r : reply)
    (s : state) : state * list message :=
  let s1 := begin userId assistantId text t1 t2 s in
  let h := history s1 in
  let stream chunks := List.fold_left (fun st c => onChunk assistantId c st) chunks s1 in
  match r with
  | Answered chunks suggested =>
      let s2 := stream chunks in
      ({| isOpen := isOpen s2;
          messages := update assistantId (attach suggested) (messages s2);
          isLoading := false;
          error := error s2 |}, h)
  | Threw chunks message =>
      let s2 := stream chunks in
      ({| isOpen := isOpen s2;
          messages := update assistantId apologise (messages s2);
          isLoading := false;
          error := Some message |}, h)
  end.

(** [streamText(text, onChunk)] of the responder: the chunks it passes,
    one per character. *)
Fixpoint streamText (text : string) : list string :=
  match text with
  | EmptyString => []
  | String c rest => String c EmptyString :: streamText rest
  end.

(** No message of the store has the id. *)
Definition fresh (newId : string) (s : state) : Prop :=
  forall m, In m (messages s) -> id m <> newId.

(** *** The updates of the store, one at a time

    [sendMessage] is asynchronous: it awaits between its updates, and the
    drawer keeps its buttons active meanwhile, so other updates of the
    store can come in between. *)

Definition open (s : state) : state :=
  {| isOpen := true; messages := messages s;
     isLoading := isLoading s; error := error s |}.

Definition close (s : state) : state :=
  {| isOpen := false; messages := messages s;
     isLoading := isLoading s; error := error s |}.

(** The update at the end of the [try] of [sendMessage]. *)
Definition finish (assistantId : string) (suggested : list string) (s : state) : state :=
  {| isOpen := isOpen s;
     messages := update assistantId (attach suggested) (messages s);
     isLoading := false;
     error := error s |}.

(** The update in the [catch] of [sendMessage]. *)
Definition fail (assistantId message : string) (s : state) : state :=
  {| isOpen := isOpen s;
     messages := update assistantId apologise (messages s);
     isLoading := false;
     error := Some message |}.

(** One update of the store: an action of the drawer, or one of the
    updates of a call of [sendMessage], which carry the id that the call
    drew for its answer. *)
Inductive step : Type :=
| Toggle
| Open
| Close
| ClearChat
| Begin (userId assistantId text : string) (t1 t2 : Z)
| Chunk (assistantId chunk : string)
| Finish (assistantId : string) (suggested : list string)
| Fail (assistantId message : string).

Definition apply (u : step) (s : state) : state :=
  match u with
  | Toggle => toggle s
  | Open => open s
  | Close => close s
  | ClearChat => clearChat s
  | Begin userId assistantId text t1 t2 => begin userId assistantId text t1 t2 s
  | Chunk assistantId chunk => onChunk assistantId chunk s
  | Finish assistantId suggested => finish assistantId suggested s
  | Fail assistantId message => fail assistantId message s
  end.

(** The store after the updates of a trace, in their order. *)
Definition run (trace : list step) (s : state) : state :=
  List.fold_left (fun st u => apply u st) trace s.

(** The updates of one call of [sendMessage], in their order. *)
Definition steps (userId assistantId text : string) (t1 t2 : Z) (r : reply) : list step :=
  Begin userId assistantId text t1 t2
  :: match r with
     | Answered chunks suggested =>
         List.map (Chunk assistantId) chunks ++ [Finish assistantId suggested]
     | Threw chunks message =>
         List.map (Chunk assistantId) chunks ++ [Fail assistantId message]
     end.

(** The update belongs to the call that drew the id [a] for its answer. *)
Definition of_call (a : string) (u : step) : bool :=
  match u with
  | Begin _ a' _ _ _ | Chunk a' _ | Finish a' _ | Fail a' _ => String.eqb a' a
  | _ => false
  end.

(** The update appends a message with the id [a]. *)
Definition brings (a : string) (u : step) : bool :=
  match u with
  | Begin userId assistantId _ _ _ => String.eqb userId a || String.eqb assistantId a
  | _ => false
  end.

Definition is_clear (u : step) : bool :=
  match u with
  | ClearChat => true
  | _ => false
  end.

(** The update only opens or closes the drawer. *)
Definition view_only (u : step) : bool :=
  match u with
  | Toggle | Open | Close => true
  | _ => false
  end.

(** The messages of the store with the id [a]. *)
Definition withId (a : string) (s : state) : list message :=
  List.filter (fun m => String.eqb (id m) a) (messages s).

(** What an update of a call does to the answer of that call. *)
Definition effect (m : message) (u : step) : message :=
  match u with
  | Chunk _ chunk => appendChunk chunk m
  | Finish _ suggested => attach suggested m
  | Fail _ _ => apologise m
  | _ => m
  end.

(** What an update of a call does to the loading flag and the error. *)
Definition flags (le : bool * option string) (u : step) : bool * option string :=
  match u with
  | Finish _ _ => (false, snd le)
  | Fail _ message => (false, Some message)
  | _ => le
  end.

(** The answer that a call leaves in the chat when nothing removes it. *)
Definition answer (assistantId : string) (now : Z) (r : reply) : message :=
  match r with
  | Answered chunks suggested =>
      {| id := assistantId; role := Assistant; content := String.concat "" chunks;
         timestamp := now; suggestions := Some suggested |}
  | Threw _ _ =>
      {| id := assistantId; role := Assistant; content := apology;
         timestamp := now; suggestions := None |}
  end.

End ChatStore.

(* ===================================================================== *)
(** ** More sample inputs *)
(* ===================================================================== *)

Module Cases.
Import JS.

(** A [Number] that reads strings of decimal digits and nothing else. *)
Fixpoint digits_value (acc : Z) (s : string) : option Z :=
  match s with
  | EmptyString => Some acc
  | String c rest =>
      if Loader.is_digit c then digits_value (10 * acc + Loader.digit c)%Z rest else None
  end.

Definition decimal_number (s : string) : option Q :=
  match s with
  | EmptyString => Some 0%Q
  | _ => option_map inject_Z (digits_value 0 s)
  end.


(** A card with a summary only. *)
Definition summary_only : ChartCard.dataset :=
  {| ChartCard.data := Some [[("Year", JNum 2024); ("TradeValue", JNum 10)]];
     ChartCard.filename := "trade-summary" |}.


(** The chart area of a card with a drawn chart of 600 by 300 pixels. *)
Definition measured_area : option (option ExportPng.svgBox) :=
  Some (Some {| ExportPng.boxWidth := 600; ExportPng.boxHeight := 300 |}).


(** The export rows of the years 2021 to 2024. *)
Definition row_2021 : row := [("Year", JNum 2021)].

Definition rows_2022_2024 : list row :=
  [[("Year", JNum 2022)]; [("Year", JNum 2023)]; [("Year", JNum 2024)]].


(** A chat with one earlier exchange. *)
Definition earlier_chat : ChatStore.state :=
  {| ChatStore.isOpen := true;
     ChatStore.messages :=
       [ChatStore.userMsg "u1" "Hello" 1;
        {| ChatStore.id := "a1"; ChatStore.role := ChatStore.Assistant;
           ChatStore.content := "Hi"; ChatStore.timestamp := 2;
           ChatStore.suggestions := Some [] |}];
     ChatStore.isLoading := false;
     ChatStore.error := Some "old" |}.

(** The updates that follow the beginning of a call with the answer id
    [a2]: its two chunks and its end, another call of the id [a3] and the
    closing of the drawer in between. *)
Definition interleaved : list ChatStore.step :=
  [ChatStore.Chunk "a2" "4"; ChatStore.Close;
   ChatStore.Begin "u3" "a3" "More?" 5 6; ChatStore.Chunk "a3" "x";
   ChatStore.Chunk "a2" "2"; ChatStore.Finish "a2" ["More"]].


(** A conversion for template literals that writes a string as it is
    (the rows below hold strings in their key columns). *)
Definition plain_text (v : jsval) : string :=
  match v with JStr s => s | _ => EmptyString end.

(** Three trade rows of two years. *)
Definition trend_rows : list row :=
  [ [("Year", JStr "2023"); ("TradeType", JStr "Export"); ("TradeValue", JNum 10)];
    [("Year", JStr "2024"); ("TradeType", JStr "Export"); ("TradeValue", JNum 20)];
    [("Year", JStr "2023"); ("TradeType", JStr "Export"); ("TradeValue", JNum 5)] ].

(** A truck row and a rail row. *)
Definition truck_row : row := [("Year", JNum 2024); ("Mode", JStr "Truck")].
Definition rail_row : row := [("Year", JNum 2024); ("Mode", JStr "Rail")].

End Cases.

(* ===================================================================== *)
(** ** Double-precision sums *)
(* ===================================================================== *)

Module DoubleFacts.
Import Double.
Local Open Scope Q_scope.

(** Rounding sees the number, not the fraction that writes it. *)
Lemma round_compat (p q : Q) : p == q -> round p = round q.
Proof. intros H. unfold round. rewrite (Qred_complete p q H). reflexivity. Qed.

Lemma plus_compat (a a' b b' : Q) : a == a' -> b == b' -> plus a b = plus a' b'.
Proof. intros Ha Hb. unfold plus. apply round_compat. rewrite Ha, Hb. reflexivity. Qed.

Lemma nearest_even_whole (x : Q) (z : Z) : x == inject_Z z -> nearest_even x = z.
Proof.
  intros H. unfold nearest_even.
  rewrite (Qfloor_comp _ _ H), Qfloor_Z.
  destruct (Qle_bool (1 # 2) (x - inject_Z z)) eqn:E; [|reflexivity].
  apply Qle_bool_iff in E. rewrite H in E. exfalso.
  assert (H0 : inject_Z z - inject_Z z == 0) by ring.
  rewrite H0 in E. revert E. apply Qlt_not_le. reflexivity.
Qed.

Lemma pow2_nonneg (e : Z) : (0 <= e)%Z -> pow2 e = inject_Z (2 ^ e).
Proof. intros H. unfold pow2. apply Z.leb_le in H. rewrite H. reflexivity. Qed.

Lemma pow2_neg (e : Z) : (e < 0)%Z -> pow2 e = 1 / inject_Z (2 ^ (- e)).
Proof. intros H. unfold pow2. apply Z.leb_gt in H. rewrite H. reflexivity. Qed.

Lemma inject_pow2_pos (e : Z) : (0 <= e)%Z -> 0 < inject_Z (2 ^ e).
Proof.
  intros H. change 0 with (inject_Z 0). rewrite <- Zlt_Qlt.
  apply Z.pow_pos_nonneg; lia.
Qed.

(** A positive whole number up to [2^53] is a double. *)
Lemma round_positive_whole (n : Z) :
  (0 < n <= 2 ^ 53)%Z -> round (inject_Z n) == inject_Z n.
Proof.
  intros [Hpos Hmax]. unfold round.
  assert (Er : Qred (inject_Z n) = inject_Z n).
  { apply Qcanon.Qred_identity. cbn. apply Z.gcd_1_r. }
  rewrite Er.
  assert (Ea : Qabs (inject_Z n) = inject_Z n).
  { unfold Qabs, inject_Z. rewrite Z.abs_eq by lia. reflexivity. }
  rewrite Ea.
  destruct (Qeq_bool (inject_Z n) 0) eqn:E0.
  { apply Qeq_bool_iff in E0. unfold Qeq in E0. cbn in E0. lia. }
  assert (Hs : Qle_bool 0 (inject_Z n) = true).
  { apply Qle_bool_iff. change 0 with (inject_Z 0). rewrite <- Zle_Qle. lia. }
  rewrite Hs.
  set (l := Z.log2 n).
  destruct (Z.log2_spec n Hpos) as [Hl1 Hl2]. fold l in Hl1, Hl2.
  assert (Hl0 : (0 <= l)%Z) by apply Z.log2_nonneg.
  assert (He : ulp_exp (inject_Z n) = (l - 52)%Z).
  { unfold ulp_exp. cbn [Qnum Qden inject_Z]. change (Z.log2 1) with 0%Z.
    rewrite Z.sub_0_r. fold l.
    assert (Hle : Qle_bool (pow2 l) (inject_Z n) = true).
    { apply Qle_bool_iff. rewrite pow2_nonneg by exact Hl0.
      rewrite <- Zle_Qle. exact Hl1. }
    change (n # 1) with (inject_Z n). rewrite Hle. lia. }
  rewrite He.
  destruct (Z_lt_ge_dec (l - 52) 0) as [Hneg|Hge].
  - (* up to 52 bits: the last place is a fraction *)
    rewrite (pow2_neg _ Hneg).
    set (s := (2 ^ (- (l - 52)))%Z).
    assert (Hs0 : 0 < inject_Z s) by (apply inject_pow2_pos; lia).
    assert (Hx : inject_Z n / (1 / inject_Z s) == inject_Z (n * s)).
    { rewrite inject_Z_mult. field. lra. }
    rewrite (nearest_even_whole _ _ Hx), inject_Z_mult. field. lra.
  - (* 53 or 54 bits *)
    assert (Hl53 : (l <= 53)%Z).
    { destruct (Z_le_gt_dec l 53) as [H|H]; [exact H|]. exfalso.
      assert ((2 ^ 54 <= 2 ^ l)%Z) by (apply Z.pow_le_mono_r; lia). lia. }
    rewrite pow2_nonneg by lia.
    assert (Hcase : (l = 52 \/ l = 53)%Z) by lia.
    destruct Hcase as [-> | ->].
    + change (2 ^ (52 - 52))%Z with 1%Z.
      assert (Hx : inject_Z n / inject_Z 1 == inject_Z n) by (field; discriminate).
      rewrite (nearest_even_whole _ _ Hx). ring.
    + assert (En : n = (2 ^ 53)%Z) by lia. subst n.
      change (2 ^ (53 - 52))%Z with 2%Z.
      assert (Hx : inject_Z (2 ^ 53) / inject_Z 2 == inject_Z (2 ^ 52)) by reflexivity.
      rewrite (nearest_even_whole _ _ Hx). reflexivity.
Qed.

Lemma round_opp (q : Q) : round (- q) == - round q.
Proof.
  unfold round.
  assert (Er : Qred (- q) = - Qred q).
  { apply Qred_opp. }
  assert (Ea : Qabs (- Qred q) = Qabs (Qred q)).
  { destruct (Qred q) as [n d]. unfold Qabs, Qopp. cbn. rewrite Z.abs_opp. reflexivity. }
  rewrite Er, Ea.
  destruct (Qeq_bool (Qabs (Qred q)) 0) eqn:E0; [reflexivity|].
  assert (Hne : ~ Qred q == 0).
  { intros H. apply Qeq_bool_neq in E0. apply E0. rewrite H. reflexivity. }
  destruct (Qle_bool 0 (Qred q)) eqn:E1, (Qle_bool 0 (- Qred q)) eqn:E2;
    try apply Qle_bool_iff in E1; try apply Qle_bool_iff in E2.
  - exfalso. apply Hne. lra.
  - ring.
  - ring.
  - exfalso.
    assert (~ 0 <= Qred q) by (intros C; apply Qle_bool_iff in C; congruence).
    assert (~ 0 <= - Qred q) by (intros C; apply Qle_bool_iff in C; congruence).
    lra.
Qed.

(** A whole number of absolute value up to [2^53] is a double. *)
Lemma round_of_whole (z : Z) : (Z.abs z <= 2 ^ 53)%Z -> round (inject_Z z) == inject_Z z.
Proof.
  intros H. destruct (Z_dec z 0) as [[Hn|Hp]|H0].
  - assert (E : inject_Z z == - inject_Z (- z)) by (rewrite inject_Z_opp; ring).
    rewrite (round_compat _ _ E), round_opp, round_positive_whole by lia.
    rewrite inject_Z_opp. ring.
  - apply round_positive_whole. lia.
  - subst z. reflexivity.
Qed.

(** The sum of two whole numbers is exact when it is within [2^53]. *)
Lemma plus_whole (a b : Q) (x y : Z) :
  a == inject_Z x -> b == inject_Z y -> (Z.abs (x + y) <= 2 ^ 53)%Z ->
  plus a b == inject_Z (x + y).
Proof.
  intros Ha Hb H. unfold plus.
  assert (E : a + b == inject_Z (x + y)) by (rewrite inject_Z_plus, Ha, Hb; reflexivity).
  rewrite (round_compat _ _ E). apply round_of_whole, H.
Qed.

Lemma whole_zero : whole 0.
Proof. exists 0%Z. reflexivity. Qed.

Lemma Qabs_whole (a : Q) (x : Z) : a == inject_Z x -> Qabs a == inject_Z (Z.abs x).
Proof. intros H. rewrite H. reflexivity. Qed.

(** Two whole numbers of absolute values within [2^53] together add up
    exactly, to a whole number. *)
Lemma plus_exact (a b : Q) :
  whole a -> whole b -> Qabs a + Qabs b <= max_safe ->
  plus a b == a + b /\ whole (plus a b).
Proof.
  intros [x Hx] [y Hy] H.
  rewrite (Qabs_whole a x Hx), (Qabs_whole b y Hy) in H.
  unfold max_safe in H. rewrite <- inject_Z_plus, <- Zle_Qle in H.
  assert (Hz : (Z.abs (x + y) <= 2 ^ 53)%Z) by lia.
  pose proof (plus_whole a b x y Hx Hy Hz) as E.
  split; [rewrite E, inject_Z_plus, Hx, Hy; reflexivity | exists (x + y)%Z; exact E].
Qed.

Lemma abs_total_nonneg (xs : list Q) : 0 <= abs_total xs.
Proof.
  induction xs as [|x xs IH]; [apply Qle_refl|].
  change (0 <= Qabs x + abs_total xs). pose proof (Qabs_nonneg x). lra.
Qed.

(** A left fold of double additions over exact numbers is the exact sum. *)
Lemma fold_plus_exact (xs : list Q) : forall acc,
  whole acc -> (forall x, In x xs -> whole x) ->
  Qabs acc + abs_total xs <= max_safe ->
  List.fold_left plus xs acc == acc + total xs /\ whole (List.fold_left plus xs acc).
Proof.
  induction xs as [|x xs IH]; intros acc Ha Hx H; cbn [List.fold_left].
  - split; [change (acc == acc + 0); ring | exact Ha].
  - change (abs_total (x :: xs)) with (Qabs x + abs_total xs) in H.
    pose proof (abs_total_nonneg xs) as Hn.
    destruct (plus_exact acc x Ha (Hx x (or_introl eq_refl))) as [E W]; [lra|].
    destruct (IH (plus acc x) W (fun y Hy => Hx y (or_intror Hy))) as [E' W'].
    { rewrite E. pose proof (Qabs_triangle acc x). lra. }
    split; [|exact W'].
    rewrite E', E. change (total (x :: xs)) with (x + total xs). ring.
Qed.

Lemma fold_plus_map {A : Type} (f : A -> Q) (l : list A) : forall acc,
  List.fold_left (fun a x => plus a (f x)) l acc = List.fold_left plus (List.map f l) acc.
Proof. induction l as [|x l IH]; intros acc; [reflexivity | apply IH]. Qed.

Lemma exact_sum (xs : list Q) :
  exact xs -> List.fold_left plus xs 0 == total xs.
Proof.
  intros [Hw Hm]. destruct (fold_plus_exact xs 0 whole_zero Hw) as [E _].
  - change (Qabs 0) with 0. lra.
  - rewrite E. ring.
Qed.

(** A part of exact numbers is exact. *)
Lemma exact_filter {A : Type} (f : A -> Q) (p : A -> bool) (l : list A) :
  exact (List.map f l) -> exact (List.map f (List.filter p l)).
Proof.
  intros [Hw Hm]. split.
  - intros x Hx. apply Hw. apply List.in_map_iff in Hx. destruct Hx as (y & <- & Hy).
    apply List.filter_In in Hy. apply List.in_map, Hy.
  - eapply Qle_trans; [|exact Hm]. clear.
    induction l as [|x l IH]; cbn [List.filter List.map]; [apply Qle_refl|].
    change (abs_total (f x :: List.map f l)) with (Qabs (f x) + abs_total (List.map f l)).
    destruct (p x); cbn [List.map].
    + change (abs_total (f x :: List.map f (List.filter p l)))
        with (Qabs (f x) + abs_total (List.map f (List.filter p l))). lra.
    + pose proof (Qabs_nonneg (f x)). lra.
Qed.

End DoubleFacts.

(* ===================================================================== *)
(** * Properties *)
(* ===================================================================== *)

(** ** ChartCard *)

Module ChartCardFacts.
Import JS ChartCard Samples.

Section Scoping.

Variable string_to_number : string -> option Q.
Variable capitalize : string -> string.

Lemma in_range_spec (key : string) (lo hi : Q) (d : row) :
  in_range string_to_number key lo hi d = true
  <-> axis_within string_to_number key lo hi d.
Proof.
  unfold in_range, axis_within, ge_num, le_num.
  destruct (to_number string_to_number (get d key)) as [q|].
  - rewrite andb_true_iff, !Qle_bool_iff. split.
    + intros H. exists q. split; [reflexivity | exact H].
    + intros (q' & E & H). injection E as <-. exact H.
  - split; [discriminate | intros (q & E & _); discriminate].
Qed.

Lemma filter_exactly (key : string) (lo hi : Q) (arr : list row) :
  exactly_within string_to_number key lo hi arr
    (List.filter (in_range string_to_number key lo hi) arr).
Proof.
  exists (in_range string_to_number key lo hi).
  split; [reflexivity | intros d; apply in_range_spec].
Qed.

Lemma capitalize_ascii_nonempty (s : string) : s <> "" -> capitalize_ascii s <> "".
Proof. destruct s; [congruence | discriminate]. Qed.

(** A name that is not an own property reads undefined in the model of
    the row, and no number. *)
Lemma get_not_own (d : row) (k : string) : has_own d k = false -> get d k = JUndefined.
Proof.
  induction d as [|[k' v] d IH]; cbn; [reflexivity|].
  destruct (String.eqb k' k); cbn; [discriminate | exact IH].
Qed.

(** The filter of [filterArr] once a key with a name is picked. *)
Lemma filterArr_picked (z : zoomRange) (first : row) (rest : list row) (key : string) :
  pickKey capitalize first (xKey z) = Some key -> key <> "" ->
  filterArr string_to_number capitalize z (Some (first :: rest))
  = Some (List.filter (in_range string_to_number key (min z) (max z)) (first :: rest)).
Proof.
  intros Hp Hk. cbn [filterArr]. rewrite Hp.
  destruct key; [congruence | reflexivity].
Qed.

(** No key picked: the array is left as it is. *)
Lemma filterArr_unpicked (z : zoomRange) (first : row) (rest : list row) :
  pickKey capitalize first (xKey z) = None ->
  filterArr string_to_number capitalize z (Some (first :: rest)) = Some (first :: rest).
Proof. intros Hp. cbn [filterArr]. rewrite Hp. reflexivity. Qed.

Lemma filterArr_scoped (z : zoomRange) (arr : list row) :
  xKey z <> "" -> capitalize (xKey z) <> "" ->
  exists out, filterArr string_to_number capitalize z (Some arr) = Some out
              /\ array_scoped string_to_number capitalize z arr out.
Proof.
  intros Hk Hc. destruct arr as [|first rest]; [exists []; split; reflexivity|].
  cbn [filterArr]. unfold pickKey, array_scoped.
  destruct (has_member first (xKey z)) eqn:E1.
  - destruct (xKey z) as [|c s] eqn:Ek; [congruence|]. eexists; split; [reflexivity|].
    repeat split; try discriminate.
    + intros _. apply filter_exactly.
    + apply List.filter_length_le.
  - destruct (has_member first (capitalize (xKey z))) eqn:E2.
    + destruct (capitalize (xKey z)) as [|c s] eqn:Ek; [congruence|].
      eexists; split; [reflexivity|].
      repeat split; try discriminate.
      * intros _ _. apply filter_exactly.
      * apply List.filter_length_le.
    + eexists; split; [reflexivity|].
      repeat split; try discriminate. apply Nat.le_refl.
Qed.

Lemma scope_scoped (z : zoomRange) (s : option dataset) :
  xKey z <> "" -> capitalize (xKey z) <> "" ->
  payload_scoped string_to_number capitalize z s
    (option_map (scope string_to_number capitalize z) s).
Proof.
  intros Hk Hc. destruct s as [[d f]|]; cbn; [|exact I].
  split; [reflexivity|].
  destruct d as [arr|]; cbn; [|exact I].
  destruct (filterArr_scoped z arr Hk Hc) as (out & E & H).
  change (match filterArr string_to_number capitalize z (Some arr) with
          | Some out0 => array_scoped string_to_number capitalize z arr out0
          | None => False end).
  rewrite E. exact H.
Qed.

(** With an axis key that has a name (and so has its capitalised
    variant), the effective download data holds, in each non-empty
    array, exactly the rows whose axis value lies within [[min, max]],
    on the field the first row selects. *)
Lemma named_key_scoped (dd : downloadData) (z : zoomRange) :
  xKey z <> "" -> capitalize (xKey z) <> "" ->
  range_scoped string_to_number capitalize dd z
    (effectiveDownloadData string_to_number capitalize (Some dd) (Some z)).
Proof.
  intros Hk Hc. eexists; split; [reflexivity|]. cbn.
  split; apply scope_scoped; assumption.
Qed.

(** An absent range passes the payload through. *)
Lemma no_range_no_filter (dd : option downloadData) :
  effectiveDownloadData string_to_number capitalize dd None = dd.
Proof. destruct dd; reflexivity. Qed.

End Scoping.

(** Every kept row's axis value lies within the range, whichever field
    the first row selects. *)
Lemma kept_rows_within (s2n : string -> option Q) (key : string) (lo hi : Q)
    (arr out : list row) (d : row) :
  exactly_within s2n key lo hi arr out -> In d out -> axis_within s2n key lo hi d.
Proof.
  intros (keep & -> & Hkeep) Hin. apply List.filter_In in Hin.
  apply Hkeep, Hin.
Qed.

(** The payload of yearly rows under the range 2014..2015 on [year]:
    the first row has [Year] only, and the rows of 2014 and 2015 stay. *)
Lemma yearly_rows_scoped :
  effectiveDownloadData nan_strings capitalize_ascii (Some trend_payload)
    (Some range_2014_2015)
  = Some {| summary :=
              Some {| data := Some [[("Year", JNum 2014)]; [("Year", JNum 2015)]];
                      filename := "trade-trends-summary" |};
            detail := None |}.
Proof. reflexivity. Qed.

(** C1.  The code at two inputs where it leaves the claim.  With the
    empty string as [xKey] the guard [!key] fires although the first row
    has a field of that name: the row, whose axis value 5 lies outside
    [[10, 20]], is exported.  With [xKey] the name of a member that every
    object inherits ([constructor]) the test [!== undefined] succeeds
    although the first row has neither that field nor its capitalised
    variant: the array is filtered on it and every row is dropped, where
    the claim leaves the array unfiltered. *)
Theorem effective_download_data_off_claim :
  (pickKey capitalize_ascii [("", JNum 5)] "" = Some ""
   /\ in_range nan_strings "" 10 20 [("", JNum 5)] = false
   /\ effectiveDownloadData nan_strings capitalize_ascii (Some unnamed_column_payload)
        (Some unnamed_column_range)
      = Some unnamed_column_payload)
  /\ (Forall (fun d => has_own d "constructor" = false
                       /\ has_own d "Constructor" = false) years_2013_2016
      /\ pickKey capitalize_ascii [("Year", JNum 2013)] "constructor" = Some "constructor"
      /\ effectiveDownloadData nan_strings capitalize_ascii (Some trend_payload)
           (Some constructor_range)
         = Some {| summary := Some {| data := Some []; filename := "trade-trends-summary" |};
                   detail := None |}).
Proof.
  split; [repeat split|].
  split; [repeat constructor|]. split; reflexivity.
Qed.

End ChartCardFacts.

(** ** LineChart *)

Module LineChartFacts.
Import JS LineChart Samples.
Local Open Scope Q_scope.

(** *** Zoom enablement *)

Lemma third_of (n : Z) : inject_Z n / 3 == inject_Z n * (1 # 3).
Proof. reflexivity. Qed.

Lemma maxZoom_above_three (n : Z) :
  (3 < n)%Z -> maxZoom n = Qceiling (inject_Z n / 3).
Proof. intros H. unfold maxZoom. apply Z.ltb_lt in H. rewrite H. reflexivity. Qed.

Lemma maxZoom_upto_three (n : Z) : (n <= 3)%Z -> maxZoom n = 1%Z.
Proof.
  intros H. unfold maxZoom.
  destruct (3 <? n)%Z eqn:E; [apply Z.ltb_lt in E; lia | reflexivity].
Qed.

(** [m = ceil(n / 3)] pinned down in integers. *)
Lemma ceiling_third (n : Z) :
  (3 * (Qceiling (inject_Z n / 3) - 1) < n <= 3 * Qceiling (inject_Z n / 3))%Z.
Proof.
  pose proof (Qle_ceiling (inject_Z n / 3)) as Hle.
  pose proof (Qceiling_lt (inject_Z n / 3)) as Hlt.
  set (m := Qceiling (inject_Z n / 3)) in *.
  rewrite third_of in Hle, Hlt.
  split.
  - rewrite Zlt_Qlt, inject_Z_mult. unfold Z.sub in *.
    rewrite inject_Z_plus, inject_Z_opp in *. change (inject_Z 1) with 1 in *.
    change (inject_Z 3) with 3. lra.
  - rewrite Zle_Qle, inject_Z_mult. change (inject_Z 3) with 3. lra.
Qed.

(** C4 (as amended).  The line chart enables interactive zoom exactly
    when the data has at least 4 distinct x-values (more than 3); with
    fewer the zoom is off.  When it is on, the maximum zoom factor is
    [ceil(n / 3)] for [n] the number of distinct x-values. *)
Theorem zoom_enabled_iff_four_distinct (data : list datum) :
  (zoomEnabled data = true <-> (4 <= uniqueX data)%Z)
  /\ ((4 <= uniqueX data)%Z ->
      (3 * (maxZoom (uniqueX data) - 1) < uniqueX data <= 3 * maxZoom (uniqueX data))%Z).
Proof.
  unfold zoomEnabled. set (n := uniqueX data). split; [split|].
  - intros H. apply Z.ltb_lt in H.
    destruct (Z_le_gt_dec n 3) as [Hn|Hn]; [|lia].
    rewrite (maxZoom_upto_three n Hn) in H. lia.
  - intros Hn. apply Z.ltb_lt.
    rewrite maxZoom_above_three by lia.
    pose proof (ceiling_third n). lia.
  - intros Hn. rewrite maxZoom_above_three by lia. apply ceiling_third.
Qed.

Lemma zoom_enabled_iff_four_distinct_witness :
  (4 <= uniqueX four_years)%Z
  /\ (3 * (maxZoom (uniqueX four_years) - 1) < uniqueX four_years
      <= 3 * maxZoom (uniqueX four_years))%Z.
Proof.
  assert (H : (4 <= uniqueX four_years)%Z) by (vm_compute; discriminate).
  split; [exact H|].
  exact (proj2 (zoom_enabled_iff_four_distinct four_years) H).
Defined.

(** Three distinct x-values do not enable the zoom. *)
Lemma three_distinct_values_no_zoom :
  ~ (zoomEnabled three_years = true <-> (3 <= uniqueX three_years)%Z).
Proof.
  intros [_ H]. assert (E : zoomEnabled three_years = true).
  { apply H. vm_compute. discriminate. }
  vm_compute in E. discriminate.
Qed.

(** *** The extent and the number of distinct x-values *)

Lemma Qle_bool_false (x y : Q) : Qle_bool x y = false -> y <= x.
Proof.
  intros E. apply Qlt_le_weak, Qnot_le_lt. intros C.
  apply Qle_bool_iff in C. congruence.
Qed.

Lemma extent_from_spec (xs : list Q) : forall lo hi a b,
  lo <= hi ->
  extent_from lo hi xs = (a, b) ->
  a <= lo /\ hi <= b
  /\ (forall v, In v xs -> a <= v /\ v <= b)
  /\ (a = lo \/ In a xs) /\ (b = hi \/ In b xs).
Proof.
  induction xs as [|v rest IH]; intros lo hi a b Hlh E; cbn in E.
  - injection E as <- <-. repeat split; try apply Qle_refl; try tauto; contradiction.
  - assert (Hnew : (if Qle_bool lo v then lo else v) <= (if Qle_bool v hi then hi else v)).
    { destruct (Qle_bool lo v) eqn:E1; destruct (Qle_bool v hi) eqn:E2;
        try apply Qle_bool_iff in E1; try apply Qle_bool_iff in E2;
        try apply Qle_bool_false in E1; try apply Qle_bool_false in E2; lra. }
    destruct (IH _ _ a b Hnew E) as (Ha & Hb & Hall & Hina & Hinb).
    assert (Hlo : a <= lo /\ a <= v).
    { destruct (Qle_bool lo v) eqn:E1;
        [apply Qle_bool_iff in E1 | apply Qle_bool_false in E1]; split; lra. }
    assert (Hhi : hi <= b /\ v <= b).
    { destruct (Qle_bool v hi) eqn:E2;
        [apply Qle_bool_iff in E2 | apply Qle_bool_false in E2]; split; lra. }
    split; [tauto|]. split; [tauto|]. split; [|split].
    + intros w [<-|Hw]; [tauto|apply Hall, Hw].
    + destruct Hina as [->|Hina]; [|right; right; exact Hina].
      destruct (Qle_bool lo v); [left|right; left]; reflexivity.
    + destruct Hinb as [->|Hinb]; [|right; right; exact Hinb].
      destruct (Qle_bool v hi); [left|right; left]; reflexivity.
Qed.

Lemma extent_spec (xs : list Q) (a b : Q) :
  extent xs = Some (a, b) ->
  In a xs /\ In b xs /\ forall v, In v xs -> a <= v /\ v <= b.
Proof.
  destruct xs as [|v rest]; [discriminate|]. cbn. intros E. injection E as E.
  destruct (extent_from_spec rest v v a b (Qle_refl v) E) as (Ha & Hb & Hall & Hina & Hinb).
  split; [|split].
  - destruct Hina as [->|H]; [left; reflexivity|right; exact H].
  - destruct Hinb as [->|H]; [left; reflexivity|right; exact H].
  - intros w [<-|Hw]; [split; assumption|apply Hall, Hw].
Qed.

Lemma uniq_In (xs : list Q) (w : Q) : In w (uniq xs) -> In w xs.
Proof.
  induction xs as [|v rest IH]; cbn; [tauto|].
  intros [->|H]; [left; reflexivity|].
  apply List.filter_In in H. right. apply IH, H.
Qed.

Lemma NoDup_map_filter {A B : Type} (f : A -> B) (p : A -> bool) (l : list A) :
  NoDup (List.map f l) -> NoDup (List.map f (List.filter p l)).
Proof.
  induction l as [|x l IH]; cbn; intros H; [constructor|].
  inversion H as [|? ? Hnin Hnd]; subst.
  destruct (p x); cbn; [constructor|]; auto.
  intros Hin. apply Hnin. apply List.in_map_iff in Hin.
  destruct Hin as (y & Ey & Hy). apply List.filter_In in Hy.
  apply List.in_map_iff. exists y. tauto.
Qed.

Lemma whole_floor (q : Q) : whole q -> q == inject_Z (Qfloor q).
Proof. intros [z Hz]. rewrite (Qfloor_comp _ _ Hz), Qfloor_Z. exact Hz. Qed.

Lemma uniq_floors_NoDup (xs : list Q) :
  (forall v, In v xs -> whole v) -> NoDup (List.map Qfloor (uniq xs)).
Proof.
  induction xs as [|v rest IH]; intros Hw; cbn; [constructor|].
  constructor.
  - intros Hin. apply List.in_map_iff in Hin. destruct Hin as (w & Ew & Hin).
    apply List.filter_In in Hin. destruct Hin as [Hin Hne].
    apply negb_true_iff, Qeq_bool_neq in Hne. apply Hne.
    rewrite (whole_floor v) by (apply Hw; left; reflexivity).
    rewrite (whole_floor w) by (apply Hw; right; apply uniq_In, Hin).
    rewrite Ew. reflexivity.
  - apply NoDup_map_filter, IH. intros w Hin. apply Hw. right. exact Hin.
Qed.

Lemma NoDup_bounded (l : list Z) (lo hi : Z) :
  NoDup l -> (forall z, In z l -> (lo <= z <= hi)%Z) ->
  (Z.of_nat (List.length l) <= Z.max 0 (hi - lo + 1))%Z.
Proof.
  intros Hnd Hb.
  set (span := List.map (fun i => (lo + Z.of_nat i)%Z) (List.seq 0 (Z.to_nat (hi - lo + 1)))).
  assert (Hincl : List.incl l span).
  { intros z Hz. specialize (Hb z Hz). apply List.in_map_iff.
    exists (Z.to_nat (z - lo)). split; [lia|]. apply List.in_seq. lia. }
  pose proof (List.NoDup_incl_length Hnd Hincl) as Hlen.
  unfold span in Hlen. rewrite List.length_map, List.length_seq in Hlen. lia.
Qed.

(** Whole x-values: the extent spans at least as many units as there are
    distinct values, less one. *)
Lemma distinct_whole_span (data : list datum) (lo hi : Q) :
  integer_xs data ->
  extent (List.map dx data) = Some (lo, hi) ->
  inject_Z (uniqueX data) - 1 <= hi - lo.
Proof.
  intros Hint E. destruct (extent_spec _ _ _ E) as (Hlo & Hhi & Hall).
  assert (Hw : forall v, In v (List.map dx data) -> whole v).
  { intros v Hv. apply List.in_map_iff in Hv. destruct Hv as (d & <- & Hd).
    apply Hint, Hd. }
  pose proof (whole_floor lo (Hw lo Hlo)) as Elo.
  pose proof (whole_floor hi (Hw hi Hhi)) as Ehi.
  assert (Hb : forall z, In z (List.map Qfloor (uniq (List.map dx data))) ->
                         (Qfloor lo <= z <= Qfloor hi)%Z).
  { intros z Hz. apply List.in_map_iff in Hz. destruct Hz as (v & <- & Hv).
    apply uniq_In in Hv. destruct (Hall v Hv) as [H1 H2].
    split; apply Qfloor_resp_le; assumption. }
  pose proof (NoDup_bounded _ _ _ (uniq_floors_NoDup _ Hw) Hb) as Hlen.
  rewrite List.length_map in Hlen. fold (uniqueX data) in Hlen.
  assert (Hle : (Qfloor lo <= Qfloor hi)%Z).
  { apply Qfloor_resp_le. destruct (Hall lo Hlo) as [_ H]. exact H. }
  rewrite Z.max_r in Hlen by lia.
  rewrite Elo, Ehi. unfold Z.sub in Hlen. rewrite Zle_Qle in Hlen.
  rewrite !inject_Z_plus, inject_Z_opp in Hlen. change (inject_Z 1) with 1 in Hlen.
  lra.
Qed.

(** *** Range reporting *)

Lemma zoomed_iff (t : transform) : zoomed t = true <-> 1 < k t.
Proof.
  unfold zoomed. rewrite negb_true_iff. split.
  - intros H. apply Qnot_le_lt. intros Hle. apply Qle_bool_iff in Hle. congruence.
  - intros H. destruct (Qle_bool (k t) 1) eqn:E; [|reflexivity].
    apply Qle_bool_iff in E. exfalso. exact (Qlt_not_le _ _ H E).
Qed.

Lemma not_zoomed_iff (t : transform) : zoomed t = false <-> k t <= 1.
Proof.
  unfold zoomed. rewrite negb_false_iff. apply Qle_bool_iff.
Qed.

(** The domain of the rescaled scale is what the plot shows: its ends are
    the data values drawn, under the transform, at the ends of the range. *)
Lemma rescaled_domain_is_visible (x0 : linear) (t : transform) :
  ~ fst (domain x0) == snd (domain x0) ->
  ~ fst (range x0) == snd (range x0) ->
  ~ k t == 0 ->
  applyX t (apply x0 (fst (domain (rescaleX t x0)))) == fst (range x0)
  /\ applyX t (apply x0 (snd (domain (rescaleX t x0)))) == snd (range x0).
Proof.
  destruct x0 as [[d0 d1] [r0 r1]], t as [kk xx yy].
  unfold applyX, apply, rescaleX, invert, invertX.
  cbn [fst snd domain range k tx]. intros Hd Hr Hk.
  split; field; repeat split; try assumption; intros E; [apply Hr|apply Hd| | ]; lra.
Qed.

(** The two bounds are the whole numbers next to the ends of the
    domain, from the inside. *)
Lemma reportedRange_bounds (xk : string) (cx : linear) :
  ChartCard.xKey (reportedRange xk cx) = xk
  /\ (ChartCard.min (reportedRange xk cx) - 1 < fst (domain cx)
      /\ fst (domain cx) <= ChartCard.min (reportedRange xk cx))
  /\ (ChartCard.max (reportedRange xk cx) <= snd (domain cx)
      /\ snd (domain cx) < ChartCard.max (reportedRange xk cx) + 1).
Proof.
  unfold reportedRange. cbn [ChartCard.xKey ChartCard.min ChartCard.max].
  split; [reflexivity|]. split; split.
  - pose proof (Qceiling_lt (fst (domain cx))) as H.
    unfold Z.sub in H. rewrite inject_Z_plus in H. exact H.
  - apply Qle_ceiling.
  - apply Qfloor_le.
  - pose proof (Qlt_floor (snd (domain cx))) as H.
    rewrite inject_Z_plus in H. exact H.
Qed.

(** C2.  On a zoom or pan update with a listener registered: when
    [k > 1] the handler passes [{ xKey, min, max }] with [min] the ceiling
    of the start and [max] the floor of the end of the domain of the x
    scale rescaled by the transform of the event, the scale the chart
    keeps as its current one; when [k] is back at 1 it passes null.  The
    handler is a total function (it returns nothing to the chart but the
    call on the listener), and without a listener it makes no call and
    updates the chart in the same way.  The reset button shows exactly
    when [k > 1]. *)
Theorem zoom_reports_range (rescale : transform -> linear -> linear) (x0 : linear)
    (xk : string) (t : transform) (st : chart) :
  let cx := rescale t x0 in
  (1 < k t ->
   snd (zoomHandler rescale x0 xk true t st)
   = Some (Some {| ChartCard.xKey := xk;
                   ChartCard.min := inject_Z (Qceiling (fst (domain cx)));
                   ChartCard.max := inject_Z (Qfloor (snd (domain cx))) |})
   /\ (inject_Z (Qceiling (fst (domain cx))) - 1 < fst (domain cx)
       /\ fst (domain cx) <= inject_Z (Qceiling (fst (domain cx))))
   /\ (inject_Z (Qfloor (snd (domain cx))) <= snd (domain cx)
       /\ snd (domain cx) < inject_Z (Qfloor (snd (domain cx))) + 1))
  /\ (k t <= 1 -> snd (zoomHandler rescale x0 xk true t st) = Some None)
  /\ snd (zoomHandler rescale x0 xk false t st) = None
  /\ fst (zoomHandler rescale x0 xk false t st) = fst (zoomHandler rescale x0 xk true t st)
  /\ currentX (fst (zoomHandler rescale x0 xk true t st)) = cx
  /\ (resetShown (fst (zoomHandler rescale x0 xk true t st)) = true <-> 1 < k t).
Proof.
  intros cx. split; [|split; [|split; [|split; [|split]]]].
  - intros Hk. apply zoomed_iff in Hk.
    unfold zoomHandler. cbn [snd fst]. rewrite Hk.
    split; [reflexivity|]. exact (proj2 (reportedRange_bounds xk cx)).
  - intros Hk. apply not_zoomed_iff in Hk.
    unfold zoomHandler. cbn [snd fst]. rewrite Hk. reflexivity.
  - reflexivity.
  - reflexivity.
  - reflexivity.
  - unfold zoomHandler. cbn [fst resetShown]. apply zoomed_iff.
Qed.

Lemma zoom_reports_range_witness :
  1 < k zoom_twice
  /\ snd (zoomHandler rescaleX four_years_scale "year" true zoom_twice fresh_chart)
     = Some (Some {| ChartCard.xKey := "year"; ChartCard.min := 2022;
                     ChartCard.max := 2023 |}).
Proof.
  assert (H : 1 < k zoom_twice) by reflexivity.
  split; [exact H|].
  exact (proj1 (proj1 (zoom_reports_range rescaleX four_years_scale "year" zoom_twice
                         fresh_chart) H)).
Defined.

(** *** The reported range stays inside the data's domain *)

Lemma invert_affine (lo hi w r : Q) :
  0 < w ->
  invert {| domain := (lo, hi); range := (0, w) |} r == lo + (hi - lo) * (r / w).
Proof. intros Hw. unfold invert. cbn [fst snd domain range]. field. lra. Qed.

Lemma visible_width (t : transform) (w : Q) :
  0 < k t -> invertX t w - invertX t 0 == w / k t.
Proof. intros Hk. unfold invertX. field. lra. Qed.

Lemma ceiling_le_floor (a b : Q) : a + 1 <= b -> (Qceiling a <= Qfloor b)%Z.
Proof.
  intros H. pose proof (Qceiling_lt a) as Ha. pose proof (Qlt_floor b) as Hb.
  unfold Z.sub in Ha. rewrite inject_Z_plus in Ha, Hb. rewrite inject_Z_opp in Ha.
  change (inject_Z 1) with 1 in Ha, Hb.
  assert (Hlt : inject_Z (Qceiling a) < inject_Z (Qfloor b + 1)).
  { rewrite inject_Z_plus. change (inject_Z 1) with 1. lra. }
  rewrite <- Zlt_Qlt in Hlt. lia.
Qed.

(** A whole number less than one below [a] is at most the ceiling of [a]. *)
Lemma whole_le_ceiling (d a : Q) : whole d -> d - 1 < a -> d <= inject_Z (Qceiling a).
Proof.
  intros [z Hz] H. rewrite Hz in *. rewrite <- Zle_Qle.
  pose proof (Qle_ceiling a) as Hc.
  assert (Hlt : inject_Z (z - 1) < inject_Z (Qceiling a)).
  { unfold Z.sub. rewrite inject_Z_plus, inject_Z_opp. change (inject_Z 1) with 1. lra. }
  rewrite <- Zlt_Qlt in Hlt. lia.
Qed.

(** A whole number more than one above [b] is at least the floor of [b]. *)
Lemma floor_le_whole (d b : Q) : whole d -> b < d + 1 -> inject_Z (Qfloor b) <= d.
Proof.
  intros [z Hz] H. rewrite Hz in *. rewrite <- Zle_Qle.
  pose proof (Qfloor_le b) as Hf.
  assert (Hlt : inject_Z (Qfloor b) < inject_Z (z + 1)).
  { rewrite inject_Z_plus. change (inject_Z 1) with 1. lra. }
  rewrite <- Zlt_Qlt in Hlt. lia.
Qed.

Lemma near_bounds (c e : Q) : near c e -> e - (1 # 4) <= c /\ c <= e + (1 # 4).
Proof.
  unfold near. intros H. apply Qabs_Qle_condition in H. destruct H as [H1 H2].
  split; lra.
Qed.

(** The exact rescaling is accurate. *)
Lemma rescaleX_accurate (t : transform) (x0 : linear) : accurate rescaleX t x0.
Proof.
  unfold accurate, near. split; apply Qabs_Qle_condition; split; lra.
Qed.

(** A transform that the translate extent [[0, 0], [innerW, innerH]]
    admits shows, in exact arithmetic, nothing beyond the domain. *)
Lemma translate_extent_view_within (lo hi innerW : Q) (t : transform) :
  lo <= hi -> 0 < innerW -> 0 < k t ->
  0 <= invertX t 0 -> invertX t innerW <= innerW ->
  view_within t {| domain := (lo, hi); range := (0, innerW) |}.
Proof.
  intros Hlh Hw Hk Hleft Hright. unfold view_within, rescaleX.
  cbn [domain range fst snd].
  set (a := invertX t 0) in *. set (b := invertX t innerW) in *.
  rewrite (invert_affine lo hi innerW a Hw), (invert_affine lo hi innerW b Hw).
  assert (Ha0 : 0 <= a / innerW) by (apply Qle_shift_div_l; lra).
  assert (Hb1 : b / innerW <= 1) by (apply Qle_shift_div_r; lra).
  assert (Hlow : 0 <= (hi - lo) * (a / innerW)) by (apply Qmult_le_0_compat; lra).
  assert (Hupp : 0 <= (hi - lo) * (1 - b / innerW)) by (apply Qmult_le_0_compat; lra).
  split; [lra|].
  assert (Er : lo + (hi - lo) * (b / innerW) == hi - (hi - lo) * (1 - b / innerW))
    by ring.
  rewrite Er. lra.
Qed.

(** With zoom enabled the largest zoom factor leaves a unit and a half
    of a span of whole numbers visible. *)
Lemma maxZoom_span (n : Z) : (4 <= n)%Z -> (3 * maxZoom n <= 2 * (n - 1))%Z.
Proof.
  intros Hn. rewrite maxZoom_above_three by lia.
  pose proof (ceiling_third n). lia.
Qed.

Lemma zoomEnabled_four (data : list datum) :
  zoomEnabled data = true -> (4 <= uniqueX data)%Z.
Proof.
  unfold zoomEnabled. intros H. apply Z.ltb_lt in H.
  destruct (Z_le_gt_dec (uniqueX data) 3) as [Hn|Hn]; [|lia].
  rewrite (maxZoom_upto_three _ Hn) in H. lia.
Qed.

(** C3 (as amended).  For a chart whose x-values are whole numbers,
    every range the zoom handler reports for a transform within the scale
    extent [1, maxZoom] ([k > 1]) whose view reaches no further than a
    quarter of a unit beyond the data's domain, the visible domain being
    computed to within a quarter of a unit, has [min <= max], and both
    bounds lie within the domain spanned by the data's x-values.  And an
    absent range always leaves the export payload unfiltered. *)
Theorem reported_range_within_domain (rescale : transform -> linear -> linear)
    (data : list datum) (innerW : Q) (x0 : linear)
    (xk : string) (t : transform) (st : chart) :
  integer_xs data ->
  xScale data innerW = Some x0 ->
  0 < innerW ->
  zoomEnabled data = true ->
  1 < k t ->
  k t <= inject_Z (maxZoom (uniqueX data)) ->
  view_within t x0 ->
  accurate rescale t x0 ->
  (exists r, snd (zoomHandler rescale x0 xk true t st) = Some (Some r)
             /\ ChartCard.min r <= ChartCard.max r
             /\ fst (domain x0) <= ChartCard.min r
             /\ ChartCard.max r <= snd (domain x0))
  /\ (forall s2n cap dd, ChartCard.effectiveDownloadData s2n cap dd None = dd).
Proof.
  intros Hint Hscale Hw Hen Hk Hmax [Hleft Hright] [Hacc0 Hacc1].
  split; [|intros s2n cap dd; destruct dd; reflexivity].
  unfold xScale in Hscale.
  destruct (extent (List.map dx data)) as [[lo hi]|] eqn:E; [|discriminate].
  injection Hscale as <-.
  pose proof (distinct_whole_span data lo hi Hint E) as Hspan.
  destruct (extent_spec _ _ _ E) as (Hlo & Hhi & Hall).
  destruct (Hall lo Hlo) as [_ Hlohi].
  assert (Wlo : whole lo).
  { apply List.in_map_iff in Hlo. destruct Hlo as (d & <- & Hd). apply Hint, Hd. }
  assert (Whi : whole hi).
  { apply List.in_map_iff in Hhi. destruct Hhi as (d & <- & Hd). apply Hint, Hd. }
  (* a unit and a half stays visible *)
  apply zoomEnabled_four in Hen. pose proof (maxZoom_span _ Hen) as Hm.
  assert (Hkspan : 3 * k t <= 2 * (hi - lo)).
  { rewrite Zle_Qle in Hm. rewrite !inject_Z_mult in Hm. unfold Z.sub in Hm.
    rewrite inject_Z_plus, inject_Z_opp in Hm.
    change (inject_Z 1) with 1 in Hm. change (inject_Z 2) with 2 in Hm.
    change (inject_Z 3) with 3 in Hm. lra. }
  set (x0 := {| domain := (lo, hi); range := (0, innerW) |}) in *.
  exists (reportedRange xk (rescale t x0)).
  split.
  { unfold zoomHandler. cbn [snd]. rewrite (proj2 (zoomed_iff t) Hk). reflexivity. }
  apply near_bounds in Hacc0, Hacc1.
  set (a := fst (domain (rescale t x0))) in *.
  set (b := snd (domain (rescale t x0))) in *.
  assert (Hwid : snd (domain (rescaleX t x0)) - fst (domain (rescaleX t x0))
                 == (hi - lo) / k t).
  { unfold rescaleX, x0. cbn [domain range fst snd].
    rewrite !invert_affine by exact Hw.
    transitivity ((hi - lo) * ((invertX t innerW - invertX t 0) / innerW));
      [field; lra|].
    rewrite visible_width by lra. field. lra. }
  assert (Hone : 3 # 2 <= (hi - lo) / k t) by (apply Qle_shift_div_l; lra).
  change (fst (domain x0)) with lo in Hleft.
  change (snd (domain x0)) with hi in Hright.
  unfold reportedRange. cbn [ChartCard.min ChartCard.max domain fst snd].
  fold a b. split; [|split].
  - rewrite <- Zle_Qle. apply ceiling_le_floor. lra.
  - change (fst (domain x0)) with lo. apply whole_le_ceiling; [exact Wlo | lra].
  - change (snd (domain x0)) with hi. apply floor_le_whole; [exact Whi | lra].
Qed.

Lemma four_years_whole : integer_xs four_years.
Proof.
  intros d [<-|[<-|[<-|[<-|[]]]]]; cbn; eexists; reflexivity.
Qed.

Lemma reported_range_within_domain_witness :
  integer_xs four_years
  /\ xScale four_years 300 = Some four_years_scale
  /\ 0 < 300
  /\ zoomEnabled four_years = true
  /\ 1 < k zoom_twice
  /\ k zoom_twice <= inject_Z (maxZoom (uniqueX four_years))
  /\ view_within zoom_twice four_years_scale
  /\ accurate rescaleX zoom_twice four_years_scale
  /\ (exists r, snd (zoomHandler rescaleX four_years_scale "year" true zoom_twice
                       fresh_chart)
                = Some (Some r)
                /\ ChartCard.min r <= ChartCard.max r
                /\ fst (domain four_years_scale) <= ChartCard.min r
                /\ ChartCard.max r <= snd (domain four_years_scale))
  /\ (forall s2n cap dd, ChartCard.effectiveDownloadData s2n cap dd None = dd).
Proof.
  assert (H1 := four_years_whole).
  assert (H2 : xScale four_years 300 = Some four_years_scale) by reflexivity.
  assert (H3 : 0 < 300) by reflexivity.
  assert (H4 : zoomEnabled four_years = true) by reflexivity.
  assert (H5 : 1 < k zoom_twice) by reflexivity.
  assert (H6 : k zoom_twice <= inject_Z (maxZoom (uniqueX four_years)))
    by (vm_compute; discriminate).
  assert (H7 : view_within zoom_twice four_years_scale)
    by (split; vm_compute; discriminate).
  assert (H8 : accurate rescaleX zoom_twice four_years_scale)
    by (split; vm_compute; discriminate).
  repeat (split; [assumption|]).
  exact (reported_range_within_domain rescaleX four_years 300 four_years_scale "year"
           zoom_twice fresh_chart H1 H2 H3 H4 H5 H6 H7 H8).
Defined.

Lemma twelve_years_whole : integer_xs twelve_years.
Proof.
  intros d H. repeat (destruct H as [<-|H]; [cbn; eexists; reflexivity|]).
  destruct H.
Qed.

(** Two reported ranges that leave the claim.  Fractional x-values:
    zoomed in twice on the middle of the plot, the visible domain
    [0.1875, 0.5625] holds no whole number, and the handler reports
    [min = 1 > max = 0], with [min] outside the domain [0, 0.75].  The
    animated reset: on its way from a zoomed view at the left edge of the
    plot to the identity the transform is not held to the translate
    extent; about halfway the view starts near 2011.9, left of the first
    year 2013, and the handler reports [min = 2012]. *)
Lemma reported_range_leaves_domain :
  (xScale quarters 300 = Some quarters_scale
   /\ zoomEnabled quarters = true
   /\ 1 < k zoom_twice
   /\ k zoom_twice <= inject_Z (maxZoom (uniqueX quarters))
   /\ view_within zoom_twice quarters_scale
   /\ snd (onZoom quarters_scale "x" true zoom_twice fresh_chart)
      = Some (Some {| ChartCard.xKey := "x"; ChartCard.min := 1; ChartCard.max := 0 |})
   /\ ~ (1 <= 0)
   /\ ~ (1 <= snd (domain quarters_scale)))
  /\ (integer_xs twelve_years
      /\ xScale twelve_years 660 = Some twelve_years_scale
      /\ zoomEnabled twelve_years = true
      /\ 1 < k reset_midway
      /\ k reset_midway <= inject_Z (maxZoom (uniqueX twelve_years))
      /\ snd (onZoom twelve_years_scale "year" true reset_midway fresh_chart)
         = Some (Some {| ChartCard.xKey := "year"; ChartCard.min := 2012;
                         ChartCard.max := 2018 |})
      /\ ~ (fst (domain twelve_years_scale) <= 2012)).
Proof.
  split.
  - split; [reflexivity|]. split; [reflexivity|]. split; [reflexivity|].
    split; [vm_compute; discriminate|].
    split; [split; vm_compute; discriminate|].
    split; [reflexivity|].
    split; apply Qlt_not_le; reflexivity.
  - split; [exact twelve_years_whole|]. split; [reflexivity|]. split; [reflexivity|].
    split; [reflexivity|]. split; [vm_compute; discriminate|].
    split; [reflexivity|]. apply Qlt_not_le; reflexivity.
Qed.

(** *** Tooltip snapping *)

Lemma insert_by_x_In (e d : datum) (l : list datum) :
  In d (insert_by_x e l) <-> d = e \/ In d l.
Proof.
  induction l as [|f rest IH]; cbn.
  - intuition congruence.
  - destruct (Qle_bool (dx e) (dx f)); cbn; [intuition congruence|].
    rewrite IH. intuition congruence.
Qed.

Lemma sort_by_x_In (d : datum) (l : list datum) : In d (sort_by_x l) <-> In d l.
Proof.
  induction l as [|e rest IH]; cbn; [tauto|].
  rewrite insert_by_x_In, IH. intuition congruence.
Qed.

Lemma member_add (d : datum) (gs : list (string * list datum)) (n : string) (p : datum) :
  member (add_to_group d gs) n p <-> (n = dseries d /\ p = d) \/ member gs n p.
Proof.
  unfold member. induction gs as [|[m vs] rest IH]; cbn.
  - split.
    + intros (ws & [E|[]] & Hp). injection E as <- <-.
      destruct Hp as [<-|[]]. left. split; reflexivity.
    + intros [[-> ->]|(ws & [] & _)]. exists [d]. split; left; reflexivity.
  - destruct (String.eqb m (dseries d)) eqn:E.
    + apply String.eqb_eq in E. subst m. split.
      * intros (ws & [Ew|Hin] & Hp).
        -- injection Ew as <- <-. apply List.in_app_iff in Hp.
           destruct Hp as [Hp|[<-|[]]].
           ++ right. exists vs. split; [left; reflexivity|exact Hp].
           ++ left. split; reflexivity.
        -- right. exists ws. split; [right; exact Hin|exact Hp].
      * intros [[-> ->]|(ws & [Ew|Hin] & Hp)].
        -- exists (vs ++ [d]). split; [left; reflexivity|].
           apply List.in_app_iff. right. left. reflexivity.
        -- injection Ew as <- <-. exists (vs ++ [d]). split; [left; reflexivity|].
           apply List.in_app_iff. left. exact Hp.
        -- exists ws. split; [right; exact Hin|exact Hp].
    + split.
      * intros (ws & [Ew|Hin] & Hp).
        -- injection Ew as <- <-. right. exists vs. split; [left; reflexivity|exact Hp].
        -- destruct (proj1 IH (ex_intro _ ws (conj Hin Hp))) as [H|(us & Hu & Hpu)].
           ++ left. exact H.
           ++ right. exists us. split; [right; exact Hu|exact Hpu].
      * intros [H|(ws & [Ew|Hin] & Hp)].
        -- destruct (proj2 IH (or_introl H)) as (us & Hu & Hpu).
           exists us. split; [right; exact Hu|exact Hpu].
        -- injection Ew as <- <-. exists vs. split; [left; reflexivity|exact Hp].
        -- destruct (proj2 IH (or_intror (ex_intro _ ws (conj Hin Hp)))) as (us & Hu & Hpu).
           exists us. split; [right; exact Hu|exact Hpu].
Qed.

Lemma member_fold (data : list datum) : forall acc n p,
  member (List.fold_left (fun gs d => add_to_group d gs) data acc) n p
  <-> member acc n p \/ (In p data /\ n = dseries p).
Proof.
  induction data as [|d rest IH]; intros acc n p; cbn.
  - tauto.
  - rewrite IH, member_add. intuition (subst; auto).
Qed.

Lemma member_group (data : list datum) (n : string) (p : datum) :
  member (group data) n p <-> In p data /\ n = dseries p.
Proof.
  unfold group. rewrite member_fold. split; [|tauto].
  intros [(vs & [] & _)|H]; exact H.
Qed.

(** The series hold exactly the data points, each under its own name. *)
Lemma mkSeries_points (sk : bool) (data : list datum) (n : string) (p : datum) :
  (exists s, In s (mkSeries sk data) /\ name s = n /\ In p (values s))
  <-> In p data /\ n = (if sk then dseries p else "default").
Proof.
  unfold mkSeries. destruct sk.
  - rewrite <- member_group. unfold member. split.
    + intros (s & Hs & <- & Hp). apply List.in_map_iff in Hs.
      destruct Hs as ([m vs] & <- & Hg). cbn [name values fst snd] in *.
      rewrite sort_by_x_In in Hp.
      exists vs. split; assumption.
    + intros (vs & Hg & Hp). exists {| name := n; values := sort_by_x vs |}.
      split; [|split; [reflexivity|cbn [values]; rewrite sort_by_x_In; exact Hp]].
      apply List.in_map_iff. exists (n, vs). split; [reflexivity|exact Hg].
  - split.
    + intros (s & [<-|[]] & <- & Hp). cbn [name values] in *.
      rewrite sort_by_x_In in Hp. tauto.
    + intros [Hp ->]. eexists. split; [left; reflexivity|].
      split; [reflexivity|cbn [values]; rewrite sort_by_x_In; exact Hp].
Qed.

Lemma pointsAt_sound (ss : list series) (x : Z) (n : string) (p : datum) :
  In (n, p) (pointsAt ss x) ->
  exists s, In s ss /\ name s = n /\ In p (values s) /\ dx p == inject_Z x.
Proof.
  unfold pointsAt. intros H. apply List.in_flat_map in H.
  destruct H as (s & Hs & Hin).
  destruct (List.find _ (values s)) as [q|] eqn:E; [|contradiction].
  destruct Hin as [Ein|[]]. injection Ein as <- <-.
  apply List.find_some in E. destruct E as [Hq Hx]. apply Qeq_bool_iff in Hx.
  exists s. repeat split; assumption.
Qed.

Lemma pointsAt_complete (ss : list series) (x : Z) (s : series) (d : datum) :
  In s ss -> In d (values s) -> dx d == inject_Z x ->
  exists p, In (name s, p) (pointsAt ss x).
Proof.
  intros Hs Hd Hx. unfold pointsAt.
  destruct (List.find (fun e => Qeq_bool (dx e) (inject_Z x)) (values s)) as [q|] eqn:E.
  - exists q. apply List.in_flat_map. exists s. split; [exact Hs|].
    rewrite E. left. reflexivity.
  - apply (List.find_none _ _ E) in Hd. apply Qeq_bool_iff in Hx. congruence.
Qed.

Lemma round_nearest (v : Q) : Qabs (inject_Z (round v) - v) <= 1 # 2.
Proof.
  unfold round. apply Qabs_Qle_condition.
  pose proof (Qfloor_le (v + (1 # 2))) as H1.
  pose proof (Qlt_floor (v + (1 # 2))) as H2.
  rewrite inject_Z_plus in H2. change (inject_Z 1) with 1 in H2.
  split; lra.
Qed.

(** C9 (as amended).  On pointer movement the tooltip snaps to the
    nearest integer [xVal] (halves go up).  When the data has points at
    [xVal] it shows, for every series with a point there, that series'
    value at [xVal], and nothing else; when the data has no point at
    [xVal] the tooltip is hidden.  Leaving the chart hides the tooltip,
    and so does every zoom update. *)
Theorem tooltip_snaps_to_rounded_x (sk : bool) (data : list datum) (mx : Q) (st : chart) :
  let xVal := round (invert (currentX st) mx) in
  let after := onMouseMove (mkSeries sk data) mx st in
  Qabs (inject_Z xVal - invert (currentX st) mx) <= 1 # 2
  /\ ((exists d, In d data /\ dx d == inject_Z xVal) ->
      exists entries,
        tooltip after = TipShown xVal entries
        /\ (forall n p, In (n, p) entries ->
                        In p data /\ dx p == inject_Z xVal
                        /\ n = (if sk then dseries p else "default"))
        /\ (forall d, In d data -> dx d == inject_Z xVal ->
                      exists p, In (if sk then dseries d else "default", p) entries))
  /\ ((forall d, In d data -> ~ dx d == inject_Z xVal) -> tooltip after = TipHidden)
  /\ tooltip (onMouseLeave st) = TipHidden
  /\ (forall x0 xk listener t, tooltip (fst (onZoom x0 xk listener t st)) = TipHidden).
Proof.
  intros xVal after.
  assert (Hsound : forall n p, In (n, p) (pointsAt (mkSeries sk data) xVal) ->
                     In p data /\ dx p == inject_Z xVal
                     /\ n = (if sk then dseries p else "default")).
  { intros n p H. destruct (pointsAt_sound _ _ _ _ H) as (s & Hs & Hn & Hp & Hx).
    destruct (proj1 (mkSeries_points sk data n p)) as [Hd Hname].
    { exists s. repeat split; assumption. }
    repeat split; assumption. }
  assert (Hcomplete : forall d, In d data -> dx d == inject_Z xVal ->
            exists p, In (if sk then dseries d else "default", p)
                         (pointsAt (mkSeries sk data) xVal)).
  { intros d Hd Hx.
    destruct (proj2 (mkSeries_points sk data _ d) (conj Hd eq_refl)) as (s & Hs & Hn & Hv).
    rewrite <- Hn. eapply pointsAt_complete; eassumption. }
  split; [apply round_nearest|]. split; [|split; [|split]].
  - intros (d & Hd & Hx). unfold after, onMouseMove. fold xVal.
    destruct (pointsAt (mkSeries sk data) xVal) as [|e es] eqn:E.
    + destruct (Hcomplete d Hd Hx) as (p & []).
    + exists (e :: es). cbn [tooltip]. repeat split.
      * apply (Hsound n p H).
      * apply (Hsound n p H).
      * apply (Hsound n p H).
      * exact Hcomplete.
  - intros Hnone. unfold after, onMouseMove. fold xVal.
    destruct (pointsAt (mkSeries sk data) xVal) as [|[n p] es] eqn:E; [reflexivity|].
    destruct (Hsound n p (or_introl eq_refl)) as (Hd & Hx & _).
    exfalso. exact (Hnone p Hd Hx).
  - reflexivity.
  - reflexivity.
Qed.

Lemma tooltip_snaps_to_rounded_x_witness :
  (exists d, In d four_years
             /\ dx d == inject_Z (round (invert (currentX fresh_chart) 100)))
  /\ exists entries,
      tooltip (onMouseMove (mkSeries true four_years) 100 fresh_chart)
      = TipShown (round (invert (currentX fresh_chart) 100)) entries
      /\ (forall n p, In (n, p) entries ->
                      In p four_years
                      /\ dx p == inject_Z (round (invert (currentX fresh_chart) 100))
                      /\ n = dseries p)
      /\ (forall d, In d four_years ->
                    dx d == inject_Z (round (invert (currentX fresh_chart) 100)) ->
                    exists p, In (dseries d, p) entries).
Proof.
  assert (H : exists d, In d four_years
                /\ dx d == inject_Z (round (invert (currentX fresh_chart) 100))).
  { exists (point 2022 10). split; [right; left; reflexivity|reflexivity]. }
  split; [exact H|].
  exact (proj1 (proj2 (tooltip_snaps_to_rounded_x true four_years 100 fresh_chart)) H).
Defined.

(** Between 2020 and 2022 the pointer rounds to 2021, which the data does
    not have: the tooltip is hidden instead of snapping to a year that is
    present. *)
Lemma tooltip_hidden_between_points :
  ~ snaps_to_nearest_present gap_years (invert (currentX gap_chart) 50)
      (tooltip (onMouseMove (mkSeries true gap_years) 50 gap_chart)).
Proof.
  intros (xVal & entries & E & _). vm_compute in E. discriminate.
Qed.

End LineChartFacts.

(** ** Chart renderers *)

Module ChartsFacts.
Import Charts Samples.

Lemma guard_fires (r : renderer) (p : props) :
  dataLength p = 0%nat \/ width p = 0%Z -> guard r p = true.
Proof.
  intros [H|H]; destruct r; unfold guard; rewrite H; cbn;
    rewrite ?orb_true_r; reflexivity.
Qed.

(** C8 (as amended).  For every chart renderer (bar, line, donut,
    treemap, stacked-bar), if the data array is empty or the measured
    container width is zero, rendering performs no drawing: the render
    effect returns at once, and the SVG keeps the children it had; an SVG
    without children stays without children. *)
Theorem guarded_render_is_noop (node : Type) (draw : renderer -> props -> list node)
    (r : renderer) (p : props) (svg : list node) :
  dataLength p = 0%nat \/ width p = 0%Z ->
  renderEffect node draw r p svg = svg
  /\ (svg = [] -> renderEffect node draw r p svg = []).
Proof.
  intros H. unfold renderEffect. rewrite (guard_fires r p H).
  split; [reflexivity|intros E; exact E].
Qed.

Lemma guarded_render_is_noop_witness :
  (dataLength empty_data_props = 0%nat \/ width empty_data_props = 0%Z)
  /\ renderEffect string sample_draw Bar empty_data_props [] = []
  /\ (@nil string = [] -> renderEffect string sample_draw Bar empty_data_props [] = []).
Proof.
  assert (H : dataLength empty_data_props = 0%nat \/ width empty_data_props = 0%Z)
    by (left; reflexivity).
  split; [exact H|].
  exact (guarded_render_is_noop string sample_draw Bar empty_data_props [] H).
Defined.

(** A chart that was drawn and then receives an empty data array keeps
    its old children. *)
Lemma stale_children_survive_empty_data :
  dataLength empty_data_props = 0%nat
  /\ renderEffect string sample_draw Bar empty_data_props drawn_svg = ["g"]
  /\ renderEffect string sample_draw Bar empty_data_props drawn_svg <> [].
Proof. repeat split. discriminate. Qed.

End ChartsFacts.

(** ** Aggregators *)


(** ** Export failures *)

Module ExportFacts.
Import JS Browser ExportPng Samples.
Local Open Scope Q_scope.

Lemma is_zero_iff (x : Q) : is_zero x = true <-> x == 0.
Proof. apply Qeq_bool_iff. Qed.

(** C7.  Export failures raise nothing (the export functions are total):
    with an SVG of zero measured width or height the PNG export logs one
    warning and makes no download; when the SVG fails to decode as an
    image it logs one warning and makes no download; CSV export on an
    empty or absent array does nothing at all. *)
Theorem export_failures_are_silent (svg : svgBox) (filename : string)
    (title subtitle : option string) (decodes : bool)
    (number_to_string : Q -> string) :
  (boxWidth svg == 0 \/ boxHeight svg == 0 ->
   exists msg, exportChartPng (Some (Some svg)) filename title subtitle decodes
               = [Warn msg])
  /\ (~ boxWidth svg == 0 -> ~ boxHeight svg == 0 ->
      exists msg, exportChartPng (Some (Some svg)) filename title subtitle false
                  = [Warn msg])
  /\ List.forallb (fun e => negb (is_download e))
       (exportChartPng (Some (Some svg)) filename title subtitle false) = true
  /\ Csv.downloadCsv number_to_string None filename = []
  /\ Csv.downloadCsv number_to_string (Some []) filename = [].
Proof.
  split; [|split; [|split; [|split; reflexivity]]].
  - intros H. unfold exportChartPng.
    assert (E : is_zero (boxWidth svg) || is_zero (boxHeight svg) = true).
    { apply orb_true_iff. destruct H as [H|H]; [left|right]; apply is_zero_iff, H. }
    rewrite E. eexists. reflexivity.
  - intros Hw Hh. unfold exportChartPng.
    destruct (is_zero (boxWidth svg)) eqn:Ew; [apply is_zero_iff in Ew; contradiction|].
    destruct (is_zero (boxHeight svg)) eqn:Eh; [apply is_zero_iff in Eh; contradiction|].
    eexists. reflexivity.
  - unfold exportChartPng.
    destruct (is_zero (boxWidth svg) || is_zero (boxHeight svg)); reflexivity.
Qed.

Lemma export_failures_are_silent_witness :
  (boxWidth unmeasured_svg == 0 \/ boxHeight unmeasured_svg == 0)
  /\ exists msg, exportChartPng (Some (Some unmeasured_svg)) "chart" None None true
                 = [Warn msg].
Proof.
  assert (H : boxWidth unmeasured_svg == 0 \/ boxHeight unmeasured_svg == 0)
    by (left; reflexivity).
  split; [exact H|].
  exact (proj1 (export_failures_are_silent unmeasured_svg "chart" None None true
                  digit_string) H).
Defined.

(** A measured SVG that decodes is downloaded, at twice the padded size. *)
Lemma measured_svg_is_downloaded :
  exportChartPng (Some (Some measured_svg)) "chart" None None true
  = [DownloadPng "chart.png" ((640 + 20 * 2) * 2) ((320 + 20 * 2 + (0 + 0 + 0)) * 2)].
Proof. reflexivity. Qed.

End ExportFacts.

(** ** The trade store *)

Module TradeStoreFacts.
Import JS TradeStore.

Lemma emptyFilters_lookup (key : string) :
  In key filterKeys -> emptyFilters !! key = Some EmptyString.
Proof.
  unfold filterKeys. cbn [In].
  intros [<-|[<-|[<-|[<-|[<-|[<-|[]]]]]]]; vm_compute; reflexivity.
Qed.

Lemma emptyFilters_others (key : string) :
  ~ In key filterKeys -> emptyFilters !! key = None.
Proof.
  intros H. unfold emptyFilters. apply not_elem_of_list_to_map_1.
  rewrite <- list_fmap_compose. intros Hin. apply H.
  apply list_elem_of_In. erewrite <- (list_fmap_id filterKeys). exact Hin.
Qed.

(** C10 (as amended).  For every store state, [setFilter(key, value)]
    changes only [filters[key]], to the given value: every other filter
    key, the four dataset arrays and the loading and error flags are as
    before (for every key, so for the six filter keys).  [resetFilters]
    replaces the filter object by the one that has the six keys [year],
    [tradeType], [mode], [state], [commodityGroup] and [port], each with
    the empty string, and no other key; it changes nothing else of the
    store. *)
Theorem filter_setters_frame (s : state) (key value : string) :
  (filters (setFilter key value s) !! key = Some value
   /\ (forall other : string, other <> key ->
         filters (setFilter key value s) !! other = filters s !! other)
   /\ usAggregated (setFilter key value s) = usAggregated s
   /\ txBorderPorts (setFilter key value s) = txBorderPorts s
   /\ btsUsState (setFilter key value s) = btsUsState s
   /\ masterData (setFilter key value s) = masterData s
   /\ loading (setFilter key value s) = loading s
   /\ error (setFilter key value s) = error s)
  /\ (filters (resetFilters s) !! "year" = Some EmptyString
      /\ filters (resetFilters s) !! "tradeType" = Some EmptyString
      /\ filters (resetFilters s) !! "mode" = Some EmptyString
      /\ filters (resetFilters s) !! "state" = Some EmptyString
      /\ filters (resetFilters s) !! "commodityGroup" = Some EmptyString
      /\ filters (resetFilters s) !! "port" = Some EmptyString
      /\ (forall k : string,
            k <> "year" -> k <> "tradeType" -> k <> "mode" -> k <> "state" ->
            k <> "commodityGroup" -> k <> "port" ->
            filters (resetFilters s) !! k = None)
      /\ usAggregated (resetFilters s) = usAggregated s
      /\ txBorderPorts (resetFilters s) = txBorderPorts s
      /\ btsUsState (resetFilters s) = btsUsState s
      /\ masterData (resetFilters s) = masterData s
      /\ loading (resetFilters s) = loading s
      /\ error (resetFilters s) = error s).
Proof.
  split.
  - split; [|split; [|repeat split]].
    + unfold setFilter. cbn [filters with_filters]. apply lookup_insert_eq.
    + intros other Hne. unfold setFilter. cbn [filters with_filters].
      apply lookup_insert_ne. congruence.
  - unfold resetFilters. cbn [filters with_filters].
    repeat (split; [apply emptyFilters_lookup; cbn; tauto |]).
    split; [| repeat split].
    intros k H1 H2 H3 H4 H5 H6. apply emptyFilters_others.
    cbn [filterKeys In]. intros [E | [E | [E | [E | [E | [E | []]]]]]]; congruence.
Qed.

(** A filter outside the six, here [region], does not survive
    [resetFilters]: it is not set to the empty string, it is gone. *)
Lemma reset_removes_other_filters :
  filters (setFilter "region" "West" initial) !! "region" = Some "West"
  /\ filters (resetFilters (setFilter "region" "West" initial)) !! "region" = None
  /\ filters (resetFilters (setFilter "region" "West" initial))
     <> filters (setFilter "year" "" (setFilter "tradeType" "" (setFilter "mode" ""
          (setFilter "state" "" (setFilter "commodityGroup" "" (setFilter "port" ""
             (setFilter "region" "West" initial))))))).
Proof.
  split; [vm_compute; reflexivity |]. split; [vm_compute; reflexivity |].
  intros E.
  assert (H : filters (resetFilters (setFilter "region" "West" initial)) !! "region"
              = filters (setFilter "year" "" (setFilter "tradeType" "" (setFilter "mode" ""
                  (setFilter "state" "" (setFilter "commodityGroup" "" (setFilter "port" ""
                     (setFilter "region" "West" initial)))))))  !! "region")
    by (rewrite E; reflexivity).
  vm_compute in H. discriminate H.
Qed.

End TradeStoreFacts.

(** ** CSV serialisation *)

Module CsvFacts.
Import JS Browser Csv Samples.

Lemma app_nil (t : string) : ("" ++ t = t)%string.
Proof. reflexivity. Qed.

Lemma app_cons (c : ascii) (s t : string) :
  (String c s ++ t = String c (s ++ t))%string.
Proof. reflexivity. Qed.

Lemma append_assoc (a b c : string) : ((a ++ b) ++ c = a ++ (b ++ c))%string.
Proof.
  induction a as [|x a IH]; [reflexivity|].
  rewrite !app_cons. f_equal. exact IH.
Qed.

Lemma append_empty_r (a : string) : (a ++ "" = a)%string.
Proof.
  induction a as [|x a IH]; [reflexivity|].
  rewrite app_cons. f_equal. exact IH.
Qed.

Lemma special_false (c : ascii) :
  special c = false ->
  Ascii.eqb c comma = false /\ Ascii.eqb c dquote = false /\ Ascii.eqb c lf = false.
Proof.
  unfold special. intros H.
  destruct (Ascii.eqb c comma), (Ascii.eqb c dquote), (Ascii.eqb c lf);
    cbn in H; try discriminate; repeat split.
Qed.

(** At the end of a field the reader does not care whether the field was
    empty. *)
Lemma parse_end (field : string) (rec : list string) (tail : string) :
  ends_field tail ->
  parseFrom AtStart field rec tail = parseFrom Unquoted field rec tail.
Proof.
  destruct tail as [| c tail]; [reflexivity |]. cbn [ends_field parseFrom]. intros H.
  destruct (Ascii.eqb c comma); [reflexivity |].
  cbn [orb] in H. now rewrite H.
Qed.

(** Outside quotes, a text without special characters is read as it is. *)
Lemma parse_plain (s : string) : forall field rec tail,
  plain s ->
  parseFrom Unquoted field rec (s ++ tail) = parseFrom Unquoted (field ++ s) rec tail.
Proof.
  unfold plain. induction s as [|c s IH]; intros field rec tail Hp.
  - rewrite app_nil, append_empty_r. reflexivity.
  - cbn [needsQuote] in Hp. apply orb_false_iff in Hp. destruct Hp as [Hc Hs].
    destruct (special_false c Hc) as (H1 & H2 & H3).
    rewrite app_cons. cbn [parseFrom]. rewrite H1, H2, H3.
    rewrite (IH _ rec tail Hs), append_assoc, app_cons, app_nil. reflexivity.
Qed.

Lemma parse_plain_start (s : string) (rec : list string) (tail : string) :
  plain s -> ends_field tail ->
  parseFrom AtStart EmptyString rec (s ++ tail) = parseFrom Unquoted s rec tail.
Proof.
  intros Hp Ht. destruct s as [| c s].
  - rewrite app_nil. now apply parse_end.
  - unfold plain in Hp. cbn [needsQuote] in Hp. apply orb_false_iff in Hp as [Hc Hs].
    destruct (special_false c Hc) as (H1 & H2 & H3).
    rewrite app_cons. cbn [parseFrom]. rewrite H1, H2, H3.
    rewrite (parse_plain s _ rec tail Hs). reflexivity.
Qed.

(** Inside quotes, the escaped text up to the closing quote is read back
    as the text. *)
Lemma parse_quoted (s : string) : forall field rec tail,
  ends_field tail ->
  parseFrom InQuotes field rec (escapeQuotes s ++ String dquote tail)
  = parseFrom Unquoted (field ++ s) rec tail.
Proof.
  induction s as [|c s IH]; intros field rec tail Ht.
  - cbn [escapeQuotes]. rewrite app_nil. cbn [parseFrom].
    rewrite Ascii.eqb_refl, append_empty_r.
    destruct tail as [|c2 rest]; [reflexivity|].
    cbn [ends_field] in Ht.
    assert (E : Ascii.eqb c2 dquote = false).
    { apply orb_true_iff in Ht as [Ht | Ht]; apply Ascii.eqb_eq in Ht; subst c2;
        reflexivity. }
    rewrite E. reflexivity.
  - cbn [escapeQuotes]. destruct (Ascii.eqb c dquote) eqn:E.
    + apply Ascii.eqb_eq in E. subst c.
      rewrite !app_cons. cbn [parseFrom]. rewrite !Ascii.eqb_refl.
      rewrite (IH _ rec tail Ht), append_assoc, app_cons, app_nil. reflexivity.
    + rewrite app_cons. cbn [parseFrom]. rewrite E.
      rewrite (IH _ rec tail Ht), append_assoc, app_cons, app_nil. reflexivity.
Qed.

Section RoundTrip.

Variable number_to_string : Q -> string.

(** How a field is written: quoted, with its quotes doubled, exactly when
    its text has a special character. *)
Lemma csvField_shape (v : jsval) :
  csvField number_to_string v
  = if needsQuote (fieldText number_to_string v)
    then String dquote (escapeQuotes (fieldText number_to_string v) ++ String dquote EmptyString)
    else fieldText number_to_string v.
Proof. destruct v; reflexivity. Qed.

(** One field, as written, is read back as its text. *)
Lemma parse_field (v : jsval) (rec : list string) (tail : string) :
  ends_field tail ->
  parseFrom AtStart EmptyString rec (csvField number_to_string v ++ tail)
  = parseFrom Unquoted (fieldText number_to_string v) rec tail.
Proof.
  intros Ht. rewrite csvField_shape.
  destruct (needsQuote (fieldText number_to_string v)) eqn:E.
  - rewrite app_cons. cbn [parseFrom].
    change (Ascii.eqb dquote comma) with false. change (Ascii.eqb dquote lf) with false.
    rewrite Ascii.eqb_refl.
    rewrite append_assoc, app_cons, app_nil.
    apply (parse_quoted (fieldText number_to_string v) EmptyString rec tail Ht).
  - apply (parse_plain_start (fieldText number_to_string v) rec tail E Ht).
Qed.

Lemma join_cons2 (s a b : string) (l : list string) :
  join s (a :: b :: l) = (a ++ s ++ join s (b :: l))%string.
Proof. reflexivity. Qed.

(** A line of fields, followed by the end of the file. *)
Lemma parse_last_line (cells : list jsval) : forall rec,
  cells <> [] ->
  parseFrom AtStart EmptyString rec (join sep (List.map (csvField number_to_string) cells))
  = [rec ++ List.map (fieldText number_to_string) cells].
Proof.
  induction cells as [|v more IH]; intros rec Hne; [congruence|].
  destruct more as [|v2 more].
  - cbn [List.map join].
    rewrite <- (append_empty_r (csvField number_to_string v)), (parse_field v rec EmptyString I).
    reflexivity.
  - cbn [List.map]. rewrite join_cons2. unfold sep at 1. rewrite app_cons, app_nil.
    rewrite parse_field by reflexivity.
    cbn [parseFrom]. rewrite Ascii.eqb_refl.
    change (csvField number_to_string v2 :: List.map (csvField number_to_string) more)
      with (List.map (csvField number_to_string) (v2 :: more)).
    rewrite IH by discriminate. rewrite <- List.app_assoc. reflexivity.
Qed.

(** A line of fields, followed by a line feed and more text. *)
Lemma parse_line (cells : list jsval) : forall rec rest,
  cells <> [] ->
  parseFrom AtStart EmptyString rec
    (join sep (List.map (csvField number_to_string) cells) ++ eol ++ rest)
  = (rec ++ List.map (fieldText number_to_string) cells)
    :: parseFrom AtStart EmptyString [] rest.
Proof.
  induction cells as [|v more IH]; intros rec rest Hne; [congruence|].
  destruct more as [|v2 more].
  - cbn [List.map join]. unfold eol. rewrite app_cons, app_nil.
    rewrite parse_field by reflexivity.
    cbn [parseFrom]. change (Ascii.eqb lf comma) with false.
    rewrite Ascii.eqb_refl. reflexivity.
  - cbn [List.map]. rewrite join_cons2, !append_assoc. unfold sep at 1.
    rewrite app_cons, app_nil.
    rewrite parse_field by reflexivity.
    cbn [parseFrom]. rewrite Ascii.eqb_refl.
    change (csvField number_to_string v2 :: List.map (csvField number_to_string) more)
      with (List.map (csvField number_to_string) (v2 :: more)).
    rewrite IH by discriminate. rewrite <- List.app_assoc. reflexivity.
Qed.

(** Lines of fields, joined by line feeds. *)
Lemma parse_lines (first : list jsval) (others : list (list jsval)) :
  first <> [] -> Forall (fun cells => cells <> []) others ->
  parseFrom AtStart EmptyString []
    (join eol (List.map (fun cells => join sep (List.map (csvField number_to_string) cells))
                 (first :: others)))
  = List.map (List.map (fieldText number_to_string)) (first :: others).
Proof.
  revert first. induction others as [|second others IH]; intros first Hf Ho.
  - cbn [List.map join]. apply (parse_last_line first [] Hf).
  - inversion Ho as [|? ? Hs Ho']; subst.
    cbn [List.map]. rewrite join_cons2. rewrite (parse_line first [] _ Hf).
    cbn [app]. f_equal. apply (IH second Hs Ho').
Qed.

Lemma plain_header (ks : list string) :
  Forall plain ks ->
  List.map (csvField number_to_string) (List.map JStr ks) = ks
  /\ List.map (fieldText number_to_string) (List.map JStr ks) = ks.
Proof.
  induction 1 as [|k ks Hk _ [IH1 IH2]]; [split; reflexivity|].
  cbn [List.map]. rewrite IH1, IH2. split; [|reflexivity].
  rewrite csvField_shape. cbn [fieldText]. rewrite Hk. reflexivity.
Qed.

Lemma csvText_lines (first : row) (rest : list row) :
  Forall plain (keys first) ->
  csvText number_to_string first rest
  = join eol (List.map (fun cells => join sep (List.map (csvField number_to_string) cells))
                (List.map JStr (keys first)
                 :: List.map (fun r => List.map (get r) (keys first)) (first :: rest))).
Proof.
  intros Hp. unfold csvText. fold sep. fold eol.
  rewrite (List.map_cons _ (List.map JStr (keys first))).
  rewrite (proj1 (plain_header _ Hp)). do 2 f_equal.
  rewrite List.map_map. apply List.map_ext. intros r.
  unfold csvLine. fold sep. rewrite List.map_map. reflexivity.
Qed.

Lemma needsQuote_iff (s : string) :
  needsQuote s = true
  <-> exists c, In c (list_ascii_of_string s)
                /\ (c = comma \/ c = dquote \/ c = lf \/ c = cr).
Proof.
  induction s as [|c s IH]; cbn.
  - split; [discriminate|intros (c & [] & _)].
  - rewrite orb_true_iff, IH. unfold special. rewrite !orb_true_iff, !Ascii.eqb_eq.
    split.
    + intros [H|(d & Hd & H)]; [exists c; tauto|exists d; tauto].
    + intros (d & [<-|Hd] & H); [left; tauto|right; exists d; tauto].
Qed.

(** In a row with the columns [ks], each once, reading the columns in
    their order gives the values in their order. *)
Lemma values_in_order (r : row) : NoDup (keys r) -> List.map (get r) (keys r) = List.map snd r.
Proof.
  induction r as [| [k v] r IH]; [reflexivity |].
  cbn [keys List.map fst snd]. intros Hnd. inversion Hnd as [| ? ? Hk Hr]; subst.
  cbn [get]. rewrite String.eqb_refl. f_equal.
  rewrite <- (IH Hr). apply List.map_ext_in. intros k' Hk'.
  cbn [get]. destruct (String.eqb k k') eqn:E; [| reflexivity].
  apply String.eqb_eq in E. subst k'. contradiction.
Qed.

(** With column names that need no quoting, the file reads back as the
    table: for every non-empty array of row objects that all have the
    columns of the first row and whose column names hold no comma, double
    quote, line feed or carriage return, the file starts with the
    byte-order mark; a field is quoted, with its quotes doubled, exactly
    when its text holds a comma, a double quote, a line feed or a carriage
    return; and re-parsing the file gives back the column names and, row
    by row, the text of every value, whatever commas, quotes and line
    breaks the values hold. *)
Theorem csv_round_trip (first : row) (rest : list row) (filename : string) :
  keys first <> [] ->
  Forall plain (keys first) ->
  uniform first rest ->
  exists body,
    downloadCsv number_to_string (Some (first :: rest)) filename
    = [DownloadText (filename ++ ".csv") (BOM ++ body)]
    /\ parseCsv (BOM ++ body)
       = keys first
         :: List.map (fun r => List.map (fun kv => fieldText number_to_string (snd kv)) r)
              (first :: rest)
    /\ (forall v, csvField number_to_string v
                  = if needsQuote (fieldText number_to_string v)
                    then String dquote
                           (escapeQuotes (fieldText number_to_string v)
                            ++ String dquote EmptyString)
                    else fieldText number_to_string v)
    /\ (forall s, needsQuote s = true
                  <-> exists c, In c (list_ascii_of_string s)
                                /\ (c = comma \/ c = dquote \/ c = lf \/ c = cr)).
Proof.
  intros Hne Hp [Hnd Hu]. exists (csvText number_to_string first rest).
  split; [reflexivity|]. split; [|split; [exact csvField_shape|exact needsQuote_iff]].
  unfold parseCsv. change (stripBom (BOM ++ ?b)) with b.
  rewrite (csvText_lines first rest Hp).
  rewrite parse_lines.
  - rewrite (List.map_cons _ (List.map JStr (keys first))).
    rewrite (proj2 (plain_header _ Hp)). f_equal.
    rewrite List.map_map. apply List.map_ext_in. intros r Hr.
    assert (Hk : keys r = keys first).
    { destruct Hr as [<- | Hr]; [reflexivity |].
      rewrite List.Forall_forall in Hu. now apply Hu. }
    rewrite <- Hk, values_in_order by (rewrite Hk; exact Hnd).
    now rewrite List.map_map.
  - destruct (keys first); [congruence|discriminate].
  - apply List.Forall_forall. intros cells Hin.
    change (In cells (List.map (fun r => List.map (get r) (keys first)) (first :: rest)))
      in Hin.
    apply List.in_map_iff in Hin. destruct Hin as (r & <- & _).
    destruct (keys first); [congruence|discriminate].
Qed.

End RoundTrip.

Lemma csv_round_trip_example :
  parseCsv (BOM ++ csvText digit_string table_head table_tail)
  = [["a"; "b"]; ["x,y"; "1"]; [quoted_text; ""]; [""; two_lines]].
Proof. vm_compute. reflexivity. Qed.

(** C6.  A column name goes to the header as it is, where a value with
    the same text is quoted: a comma in a column name splits the name in
    two when the file is read back, and the header has more fields than
    the records under it. *)
Theorem column_name_is_not_quoted :
  downloadCsv digit_string (Some [comma_named_head]) "data"
  = [DownloadText "data.csv"
       (BOM ++ "City, State" ++ eol
            ++ String dquote ("Austin, TX" ++ String dquote EmptyString))]
  /\ csvField digit_string (JStr "City, State")
     = String dquote ("City, State" ++ String dquote EmptyString)
  /\ parseCsv (BOM ++ csvText digit_string comma_named_head [])
     = [["City"; " State"]; ["Austin, TX"]]
  /\ parseCsv (BOM ++ csvText digit_string comma_named_head [])
     <> [["City, State"]; ["Austin, TX"]].
Proof. repeat split. discriminate. Qed.

End CsvFacts.

(** ** The loader *)

Module LoaderFacts.
Import JS Loader.

(** *** Reading back what was written *)

Lemma get_set_eq (r : row) (k : string) (v : jsval) : get (set r k v) k = v.
Proof.
  induction r as [|[k' w] r IH]; cbn.
  - rewrite String.eqb_refl. reflexivity.
  - destruct (String.eqb k' k) eqn:E; cbn; rewrite E; [reflexivity|exact IH].
Qed.

Lemma get_set_ne (r : row) (k k' : string) (v : jsval) :
  k <> k' -> get (set r k v) k' = get r k'.
Proof.
  intros Hne. induction r as [|[k0 w] r IH]; cbn.
  - apply String.eqb_neq in Hne. rewrite Hne. reflexivity.
  - destruct (String.eqb k0 k) eqn:E; cbn.
    + apply String.eqb_eq in E. subst k0.
      apply String.eqb_neq in Hne. rewrite Hne. reflexivity.
    + rewrite IH. reflexivity.
Qed.

Lemma has_key_set (r : row) (k k' : string) (v : jsval) :
  has_key (set r k v) k' = String.eqb k k' || has_key r k'.
Proof.
  induction r as [|[k0 w] r IH]; cbn.
  - reflexivity.
  - destruct (String.eqb k0 k) eqn:E; cbn.
    + apply String.eqb_eq in E. subst k0.
      destruct (String.eqb k k'); reflexivity.
    + rewrite IH. destruct (String.eqb k0 k'), (String.eqb k k'); reflexivity.
Qed.

Lemma get_delete_ne (r : row) (k k' : string) :
  k <> k' -> get (delete r k) k' = get r k'.
Proof.
  intros Hne. induction r as [|[k0 w] r IH]; cbn; [reflexivity|].
  destruct (String.eqb k0 k) eqn:E; cbn.
  - apply String.eqb_eq in E. subst k0.
    apply String.eqb_neq in Hne. rewrite Hne. exact IH.
  - rewrite IH. reflexivity.
Qed.

Lemma has_key_delete (r : row) (k k' : string) :
  has_key (delete r k) k' = negb (String.eqb k k') && has_key r k'.
Proof.
  induction r as [|[k0 w] r IH]; cbn.
  - rewrite andb_false_r. reflexivity.
  - destruct (String.eqb k0 k) eqn:E; cbn.
    + apply String.eqb_eq in E. subst k0. rewrite IH.
      destruct (String.eqb k k'); reflexivity.
    + rewrite IH. destruct (String.eqb k0 k') eqn:E'; [|reflexivity].
      apply String.eqb_eq in E'. subst k0.
      rewrite String.eqb_sym, E. reflexivity.
Qed.

Lemma set_same (r : row) (k : string) :
  has_key r k = true -> set r k (get r k) = r.
Proof.
  induction r as [|[k0 w] r IH]; cbn; [discriminate|].
  destruct (String.eqb k0 k) eqn:E; cbn; [reflexivity|].
  intros H. rewrite (IH H). reflexivity.
Qed.

Lemma absent_undefined (r : row) (k : string) :
  has_key r k = false -> get r k = JUndefined.
Proof.
  induction r as [|[k0 w] r IH]; cbn; [reflexivity|].
  destruct (String.eqb k0 k); cbn; [discriminate|exact IH].
Qed.

(** *** Trimming and stripping *)

Lemma ltrim_lead_ok (s : string) : lead_ok (ltrim s).
Proof.
  induction s as [|c s IH]; cbn; [exact I|].
  destruct (is_space c) eqn:E; [exact IH|exact E].
Qed.

Lemma ltrim_fixed (t : string) : lead_ok t -> ltrim t = t.
Proof. destruct t as [|c t]; cbn; [reflexivity|]. intros ->. reflexivity. Qed.

Lemma rtrim_lead_ok (t : string) : lead_ok t -> lead_ok (rtrim t).
Proof.
  destruct t as [|c t]; cbn; [exact (fun H => H)|]. intros H.
  destruct (rtrim t); [rewrite H|]; exact H.
Qed.

Lemma rtrim_idem (t : string) : rtrim (rtrim t) = rtrim t.
Proof.
  induction t as [|c t IH]; cbn [rtrim]; [reflexivity|].
  destruct (rtrim t) as [|d kept] eqn:E.
  - destruct (is_space c) eqn:Ec; cbn [rtrim]; [reflexivity|]. rewrite Ec. reflexivity.
  - cbn [rtrim]. cbn [rtrim] in IH. destruct (rtrim kept) as [|e kept'] eqn:Ek.
    + destruct (is_space d); [discriminate|]. rewrite IH. reflexivity.
    + rewrite IH. reflexivity.
Qed.

Lemma trim_idem (s : string) : trim (trim s) = trim s.
Proof.
  unfold trim.
  rewrite (ltrim_fixed (rtrim (ltrim s))) by apply rtrim_lead_ok, ltrim_lead_ok.
  apply rtrim_idem.
Qed.

Lemma spaceless_trim (t : string) : spaceless t = true -> trim t = t.
Proof.
  intros H. unfold trim. rewrite ltrim_fixed.
  - induction t as [|c t IH]; cbn [rtrim]; [reflexivity|].
    cbn in H. apply andb_true_iff in H. destruct H as [Hc Ht].
    rewrite (IH Ht). destruct t; [|reflexivity].
    apply negb_true_iff in Hc. rewrite Hc. reflexivity.
  - destruct t as [|c t]; cbn in *; [exact I|].
    apply andb_true_iff in H. destruct H as [Hc _]. apply negb_true_iff, Hc.
Qed.

Lemma strip_spaceless (s : string) : spaceless (strip s) = true.
Proof.
  induction s as [|c s IH]; cbn; [reflexivity|].
  destruct (is_separator c) eqn:E; [exact IH|].
  cbn. rewrite IH, andb_true_r. unfold is_separator in E.
  apply orb_false_iff in E. destruct E as [_ E]. rewrite E. reflexivity.
Qed.

Lemma strip_idem (s : string) : strip (strip s) = strip s.
Proof.
  induction s as [|c s IH]; cbn; [reflexivity|].
  destruct (is_separator c) eqn:E; [exact IH|].
  cbn. rewrite E, IH. reflexivity.
Qed.

Lemma trunc_whole (z : Z) : trunc (inject_Z z) = z.
Proof. unfold trunc. destruct (Qle_bool 0 (inject_Z z)); [apply Qfloor_Z|apply Qceiling_Z]. Qed.

Lemma digit_range (c : ascii) : is_digit c = true -> (0 <= digit c <= 9)%Z.
Proof.
  unfold is_digit, digit. intros H. apply andb_true_iff in H. destruct H as [H1 H2].
  apply Nat.leb_le in H1, H2. lia.
Qed.

Lemma first4_range (s : string) (y : Z) : first4 s = Some y -> (0 <= y <= 9999)%Z.
Proof.
  induction s as [|a s IH]; cbn [first4]; [discriminate|].
  destruct s as [|b [|c [|d s]]]; try discriminate.
  destruct (is_digit a && is_digit b && is_digit c && is_digit d) eqn:E; [|exact IH].
  apply andb_true_iff in E. destruct E as [E Hd].
  apply andb_true_iff in E. destruct E as [E Hc].
  apply andb_true_iff in E. destruct E as [Ha Hb].
  apply digit_range in Ha, Hb, Hc, Hd. intros H. injection H as <-. lia.
Qed.

Section Parsing.

Variable number_of_string : string -> option Q.

(** X1.  On text in the ASCII range [parseLooseNumber] does not see
    dollar signs, commas and blanks: two strings that differ only in those
    characters parse to the same number.  That number is what [Number]
    reads in the string without those characters, and 0 when nothing is
    left or what is left is not a finite number; the [trim] after the
    replacement has nothing left to do. *)
Theorem parseLooseNumber_ignores_separators (s s' : string) :
  ascii_text s = true -> ascii_text s' = true ->
  strip s = strip s' ->
  parseLooseNumber number_of_string (JStr s) = parseLooseNumber number_of_string (JStr s')
  /\ parseLooseNumber number_of_string (JStr s)
     = match strip s, number_of_string (strip s) with
       | String _ _, Some parsed => parsed
       | _, _ => 0%Q
       end.
Proof.
  intros _ _ E. split.
  - unfold parseLooseNumber. rewrite E. reflexivity.
  - unfold parseLooseNumber.
    rewrite (spaceless_trim (strip s) (strip_spaceless s)).
    destruct (strip s) as [| c t]; [reflexivity |].
    destruct (number_of_string (String c t)); reflexivity.
Qed.

Lemma normalizeText_clean (v : jsval) : clean_text (normalizeText v).
Proof.
  destruct v as [| |q|s]; cbn [normalizeText clean_text]; try exact I.
  destruct (trim s) as [|c t] eqn:E; cbn [clean_text]; [exact I|].
  split; [discriminate|]. rewrite <- E. apply trim_idem.
Qed.

Lemma clean_fixed (v : jsval) : clean_text v -> normalizeText v = v.
Proof.
  destruct v as [| |q|s]; cbn [normalizeText clean_text]; try reflexivity.
  intros [Hne Ht]. rewrite Ht. destruct s; [congruence|reflexivity].
Qed.

(** A stored year parses to itself. *)
Lemma parseLooseYear_reread (v : jsval) :
  parseLooseYear number_of_string (yearValue (parseLooseYear number_of_string v))
  = parseLooseYear number_of_string v.
Proof.
  destruct (parseLooseYear number_of_string v) as [z|]; cbn; [|reflexivity].
  rewrite trunc_whole. reflexivity.
Qed.

(** X2.  [parseLooseYear] reads back the year it produced: parsing the
    stored result (a whole number or null) gives the same result.  And a
    year taken from a string that is not a number is the first run of
    four digits, so it lies between 0 and 9999. *)
Theorem parseLooseYear_stable (v : jsval) :
  parseLooseYear number_of_string (yearValue (parseLooseYear number_of_string v))
  = parseLooseYear number_of_string v
  /\ (forall s y, number_of_string (trim s) = None ->
                  parseLooseYear number_of_string (JStr s) = Some y ->
                  (0 <= y <= 9999)%Z).
Proof.
  split; [apply parseLooseYear_reread|].
  intros s y Hnan. unfold parseLooseYear. rewrite Hnan.
    destruct (trim s) as [|c t]; [discriminate|]. apply first4_range.
Qed.

(** *** Following the keys through [normalize] *)

Lemma has_key_set_self (r : row) (k : string) (v : jsval) : has_key (set r k v) k = true.
Proof. rewrite has_key_set, String.eqb_refl. reflexivity. Qed.

Lemma has_key_set_other (r : row) (k k' : string) (v : jsval) :
  k <> k' -> has_key (set r k v) k' = has_key r k'.
Proof. intros H. rewrite has_key_set. apply String.eqb_neq in H. rewrite H. reflexivity. Qed.

Lemma has_key_rename_from (from to : string) (d : row) :
  has_key (rename from to d) from = false.
Proof.
  unfold rename. destruct (has_key d from) eqn:E; [|exact E].
  rewrite has_key_delete, String.eqb_refl. reflexivity.
Qed.

Lemma has_key_rename_other (from to k : string) (d : row) :
  k <> from -> k <> to -> has_key (rename from to d) k = has_key d k.
Proof.
  intros H1 H2. unfold rename. destruct (has_key d from); [|reflexivity].
  rewrite has_key_delete, has_key_set.
  assert (E1 : String.eqb from k = false) by (apply String.eqb_neq; congruence).
  assert (E2 : String.eqb to k = false) by (apply String.eqb_neq; congruence).
  rewrite E1, E2. reflexivity.
Qed.

Lemma has_key_rename_to (from to : string) (d : row) :
  from <> to -> has_key (rename from to d) to = has_key d from || has_key d to.
Proof.
  intros H. unfold rename. destruct (has_key d from); [|reflexivity].
  rewrite has_key_delete, has_key_set_self.
  apply String.eqb_neq in H. rewrite H. reflexivity.
Qed.

Lemma get_rename_other (from to k : string) (d : row) :
  k <> from -> k <> to -> get (rename from to d) k = get d k.
Proof.
  intros H1 H2. unfold rename. destruct (has_key d from); [|reflexivity].
  rewrite get_delete_ne, get_set_ne by congruence. reflexivity.
Qed.

Lemma has_key_normalizeColumn (d : row) (key k : string) :
  has_key (normalizeColumn d key) k = has_key d k.
Proof.
  unfold normalizeColumn. destruct (has_key d key) eqn:E; [|reflexivity].
  rewrite has_key_set. destruct (String.eqb key k) eqn:Ek; [|reflexivity].
  apply String.eqb_eq in Ek. subst k. rewrite E. reflexivity.
Qed.

Lemma get_normalizeColumn_other (d : row) (key k : string) :
  key <> k -> get (normalizeColumn d key) k = get d k.
Proof.
  intros H. unfold normalizeColumn. destruct (has_key d key); [|reflexivity].
  apply get_set_ne, H.
Qed.

Lemma get_normalizeColumn_self (d : row) (key : string) :
  clean_text (get (normalizeColumn d key) key).
Proof.
  unfold normalizeColumn. destruct (has_key d key) eqn:E.
  - rewrite get_set_eq. apply normalizeText_clean.
  - rewrite (absent_undefined d key E). exact I.
Qed.

Lemma normalizeColumn_keeps_clean (d : row) (key k : string) :
  clean_text (get d k) -> clean_text (get (normalizeColumn d key) k).
Proof.
  intros H. destruct (String.eqb key k) eqn:E.
  - apply String.eqb_eq in E. subst k. apply get_normalizeColumn_self.
  - apply String.eqb_neq in E. rewrite get_normalizeColumn_other by exact E. exact H.
Qed.

Lemma has_key_columns (ks : list string) : forall d k,
  has_key (List.fold_left normalizeColumn ks d) k = has_key d k.
Proof.
  induction ks as [|key ks IH]; intros d k; cbn [List.fold_left]; [reflexivity|].
  rewrite IH. apply has_key_normalizeColumn.
Qed.

Lemma get_columns_other (ks : list string) : forall d k,
  ~ In k ks -> get (List.fold_left normalizeColumn ks d) k = get d k.
Proof.
  induction ks as [|key ks IH]; intros d k Hk; cbn [List.fold_left]; [reflexivity|].
  rewrite IH by (intros H; apply Hk; right; exact H).
  apply get_normalizeColumn_other. intros ->. apply Hk. left. reflexivity.
Qed.

Lemma columns_keep_clean (ks : list string) : forall d k,
  clean_text (get d k) -> clean_text (get (List.fold_left normalizeColumn ks d) k).
Proof.
  induction ks as [|key ks IH]; intros d k H; cbn [List.fold_left]; [exact H|].
  apply IH, normalizeColumn_keeps_clean, H.
Qed.

Lemma columns_clean (ks : list string) : forall d k,
  In k ks -> clean_text (get (List.fold_left normalizeColumn ks d) k).
Proof.
  induction ks as [|key ks IH]; intros d k Hk; cbn [List.fold_left]; [contradiction|].
  destruct (String.eqb key k) eqn:E.
  - apply String.eqb_eq in E. subst k. apply columns_keep_clean, get_normalizeColumn_self.
  - destruct Hk as [->|Hk]; [rewrite String.eqb_refl in E; discriminate|].
    apply IH, Hk.
Qed.

Lemma columns_fixed (ks : list string) (d : row) :
  (forall k, In k ks -> clean_text (get d k)) ->
  List.fold_left normalizeColumn ks d = d.
Proof.
  induction ks as [|key ks IH]; intros H; cbn [List.fold_left]; [reflexivity|].
  assert (E : normalizeColumn d key = d).
  { unfold normalizeColumn. destruct (has_key d key) eqn:Ek; [|reflexivity].
    rewrite (clean_fixed _ (H key (or_introl eq_refl))). apply set_same, Ek. }
  rewrite E. apply IH. intros k Hk. apply H. right. exact Hk.
Qed.

Lemma not_text_column (k : string) :
  k = "Year" \/ k = "TradeValue" -> ~ In k textColumns.
Proof.
  intros [-> | ->] H; cbn in H;
    repeat (destruct H as [H|H]; [discriminate|]); exact H.
Qed.

Lemma normalize_unfold (d : row) :
  normalize number_of_string d
  = List.fold_left normalizeColumn textColumns
      (set (set (aliased d) "Year"
                (yearValue (parseLooseYear number_of_string (get (aliased d) "Year"))))
           "TradeValue"
           (JNum (parseLooseNumber number_of_string
                    (get (set (aliased d) "Year"
                            (yearValue (parseLooseYear number_of_string
                                          (get (aliased d) "Year"))))
                         "TradeValue")))).
Proof. reflexivity. Qed.

Lemma aliased_no_aliases (d : row) :
  has_key (aliased d) "Trade Value" = false
  /\ has_key (aliased d) "Trade Type" = false
  /\ has_key (aliased d) "Commodity Group" = false
  /\ (has_key (aliased d) "Port of Entry" = true -> has_key (aliased d) "POE" = true).
Proof.
  unfold aliased.
  set (d3 := rename "Commodity Group" "CommodityGroup" _).
  assert (H1 : has_key d3 "Trade Value" = false).
  { unfold d3. rewrite !has_key_rename_other by discriminate.
    apply has_key_rename_from. }
  assert (H2 : has_key d3 "Trade Type" = false).
  { unfold d3. rewrite has_key_rename_other by discriminate.
    apply has_key_rename_from. }
  assert (H3 : has_key d3 "Commodity Group" = false).
  { unfold d3. apply has_key_rename_from. }
  destruct (has_key d3 "Port of Entry" && negb (has_key d3 "POE")) eqn:E.
  - rewrite !has_key_rename_other by discriminate.
    rewrite has_key_rename_from. repeat split; try assumption. discriminate.
  - repeat split; try assumption. intros Hp. rewrite Hp in E.
    destruct (has_key d3 "POE"); [reflexivity|discriminate].
Qed.

Lemma aliased_fixed (n : row) :
  has_key n "Trade Value" = false ->
  has_key n "Trade Type" = false ->
  has_key n "Commodity Group" = false ->
  (has_key n "Port of Entry" = true -> has_key n "POE" = true) ->
  aliased n = n.
Proof.
  intros H1 H2 H3 H4. unfold aliased, rename. rewrite H1, H2, H3.
  destruct (has_key n "Port of Entry") eqn:E; [|reflexivity].
  rewrite (H4 eq_refl). reflexivity.
Qed.

(** The trade value of a normalised row is a number, the one the
    aggregators read. *)
Lemma normalize_tradeValue (d : row) :
  exists q, get (normalize number_of_string d) "TradeValue" = JNum q
            /\ Aggregators.tradeValue (normalize number_of_string d) = q.
Proof.
  rewrite normalize_unfold. eexists. unfold Aggregators.tradeValue.
  rewrite get_columns_other by (apply not_text_column; right; reflexivity).
  rewrite get_set_eq. split; reflexivity.
Qed.

(** X3.  What a normalised row looks like: the spaced column names
    [Trade Value], [Trade Type] and [Commodity Group] are gone; [TradeValue]
    is a number (the one the aggregators then read); [Year] is null or a
    whole number; and every text column holds either no string or a
    non-empty string without blanks at its ends. *)
Theorem normalize_shape (d : row) :
  let n := normalize number_of_string d in
  has_key n "Trade Value" = false
  /\ has_key n "Trade Type" = false
  /\ has_key n "Commodity Group" = false
  /\ (exists q, get n "TradeValue" = JNum q /\ Aggregators.tradeValue n = q)
  /\ (get n "Year" = JNull \/ exists z, get n "Year" = JNum (inject_Z z))
  /\ (forall k, In k textColumns -> clean_text (get n k)).
Proof.
  intros n. unfold n. pose proof (normalize_tradeValue d) as Hvalue.
  rewrite normalize_unfold in *.
  destruct (aliased_no_aliases d) as (H1 & H2 & H3 & _).
  rewrite !has_key_columns, !has_key_set_other by discriminate.
  split; [exact H1|]. split; [exact H2|]. split; [exact H3|].
  split; [exact Hvalue|]. split.
  - rewrite get_columns_other by (apply not_text_column; left; reflexivity).
    rewrite get_set_ne by discriminate. rewrite get_set_eq.
    destruct (parseLooseYear number_of_string (get (aliased d) "Year")) as [z|];
      [right; exists z|left]; reflexivity.
  - intros k Hk. apply columns_clean, Hk.
Qed.

(** X4.  Normalising is idempotent: a row that went through [normalize]
    is left as it is by a second pass. *)
Theorem normalize_idempotent (d : row) :
  normalize number_of_string (normalize number_of_string d)
  = normalize number_of_string d.
Proof.
  set (n := normalize number_of_string d).
  assert (Hkeys : forall k, k <> "Year" -> k <> "TradeValue" ->
                            has_key n k = has_key (aliased d) k).
  { intros k Hy Ht. unfold n. rewrite normalize_unfold, has_key_columns.
    rewrite !has_key_set_other by congruence. reflexivity. }
  destruct (aliased_no_aliases d) as (H1 & H2 & H3 & H4).
  assert (Hal : aliased n = n).
  { apply aliased_fixed; rewrite ?Hkeys by discriminate; assumption. }
  assert (Hyear : get n "Year"
                  = yearValue (parseLooseYear number_of_string (get (aliased d) "Year"))).
  { unfold n. rewrite normalize_unfold.
    rewrite get_columns_other by (apply not_text_column; left; reflexivity).
    rewrite get_set_ne by discriminate. apply get_set_eq. }
  assert (Hval : exists q, get n "TradeValue" = JNum q).
  { unfold n. rewrite normalize_unfold.
    rewrite get_columns_other by (apply not_text_column; right; reflexivity).
    rewrite get_set_eq. eexists. reflexivity. }
  assert (Hky : has_key n "Year" = true).
  { unfold n. rewrite normalize_unfold, has_key_columns.
    rewrite has_key_set_other by discriminate. apply has_key_set_self. }
  assert (Hkv : has_key n "TradeValue" = true).
  { unfold n. rewrite normalize_unfold, has_key_columns. apply has_key_set_self. }
  assert (Hclean : forall k, In k textColumns -> clean_text (get n k)).
  { intros k Hk. unfold n. rewrite normalize_unfold. apply columns_clean, Hk. }
  rewrite (normalize_unfold n), Hal.
  assert (E1 : set n "Year" (yearValue (parseLooseYear number_of_string (get n "Year"))) = n).
  { rewrite Hyear at 1. rewrite parseLooseYear_reread, <- Hyear.
    apply set_same, Hky. }
  rewrite E1.
  assert (E2 : set n "TradeValue"
                 (JNum (parseLooseNumber number_of_string (get n "TradeValue"))) = n).
  { destruct Hval as [q Hq]. rewrite Hq at 1. cbn [parseLooseNumber]. rewrite <- Hq.
    apply set_same, Hkv. }
  rewrite E2. apply columns_fixed, Hclean.
Qed.

End Parsing.

Lemma parseLooseNumber_ignores_separators_witness :
  ascii_text "$1,234" = true
  /\ ascii_text " 1234 " = true
  /\ strip "$1,234" = strip " 1234 "
  /\ parseLooseNumber Cases.decimal_number (JStr "$1,234")
     = parseLooseNumber Cases.decimal_number (JStr " 1234 ").
Proof.
  assert (A : ascii_text "$1,234" = true) by reflexivity.
  assert (B : ascii_text " 1234 " = true) by reflexivity.
  assert (H : strip "$1,234" = strip " 1234 ") by reflexivity.
  split; [exact A|]. split; [exact B|]. split; [exact H|].
  exact (proj1 (parseLooseNumber_ignores_separators Cases.decimal_number
                  "$1,234" " 1234 " A B H)).
Defined.

(** *** Schema warnings *)

(** Whatever [warnIfMissingColumns] logs is a warning. *)
Lemma warnings_only (name : string) (rows : list row) (required : list string) :
  List.forallb is_warning (warnIfMissingColumns name rows required) = true.
Proof.
  unfold warnIfMissingColumns. destruct rows as [|r0 rows]; [reflexivity|].
  destruct (List.filter (fun col => negb (sampled (r0 :: rows) 200 col)) required);
    reflexivity.
Qed.

(** X5.  [warnIfMissingColumns] is silent exactly when the dataset has
    rows and every required column is a key of one of its first 200 rows;
    otherwise it logs one warning (never more, never an error). *)
Theorem schema_warning_iff (name : string) (rows : list row) (required : list string) :
  (warnIfMissingColumns name rows required = []
   <-> rows <> []
       /\ forall col, In col required ->
                      exists r, In r (List.firstn 200 rows) /\ has_key r col = true)
  /\ (List.length (warnIfMissingColumns name rows required) <= 1)%nat
  /\ List.forallb is_warning (warnIfMissingColumns name rows required) = true.
Proof.
  unfold warnIfMissingColumns.
  destruct rows as [|r0 rows]; [split; [split; [discriminate|intros [H _]; congruence]|]|].
  - split; [apply Nat.le_refl|reflexivity].
  - set (all := r0 :: rows).
    destruct (List.filter (fun col => negb (sampled all 200 col)) required)
      as [|m missing] eqn:E.
    + split; [|split; [apply Nat.le_0_l|reflexivity]].
      split; [|reflexivity]. intros _. split; [discriminate|].
      intros col Hcol.
      destruct (sampled all 200 col) eqn:Es.
      * unfold sampled in Es. apply List.existsb_exists in Es. exact Es.
      * assert (Hin : In col (List.filter (fun c => negb (sampled all 200 c)) required)).
        { apply List.filter_In. split; [exact Hcol|]. rewrite Es. reflexivity. }
        rewrite E in Hin. contradiction.
    + split; [|split; [apply Nat.le_refl|reflexivity]].
      split; [discriminate|]. intros [_ Hall]. exfalso.
      assert (Hin : In m (List.filter (fun c => negb (sampled all 200 c)) required)).
      { rewrite E. left. reflexivity. }
      apply List.filter_In in Hin. destruct Hin as [Hreq Hneg].
      apply negb_true_iff in Hneg.
      destruct (Hall m Hreq) as (r & Hr & Hk).
      assert (Hs : sampled all 200 m = true).
      { unfold sampled. apply List.existsb_exists. exists r. split; assumption. }
      congruence.
Qed.

(** *** loadData *)

(** X6.  [loadData] always ends with [loading] off and never touches
    the filters.  When the fetch is rejected the error message is stored
    and the datasets stay as they were; when it succeeds no error is set,
    the four datasets are stored, every stored row has a numeric
    [TradeValue], and whatever is logged is a warning. *)
Theorem loadData_outcome (number_of_string : string -> option Q) (f : fetched)
    (s : TradeStore.state) :
  let s' := fst (loadData number_of_string f s) in
  TradeStore.loading s' = false
  /\ TradeStore.filters s' = TradeStore.filters s
  /\ match f with
     | Rejected message =>
         TradeStore.error s' = Some message
         /\ TradeStore.usAggregated s' = TradeStore.usAggregated s
         /\ TradeStore.txBorderPorts s' = TradeStore.txBorderPorts s
         /\ TradeStore.btsUsState s' = TradeStore.btsUsState s
         /\ TradeStore.masterData s' = TradeStore.masterData s
     | Parsed _ _ _ _ =>
         TradeStore.error s' = None
         /\ (forall rows d,
               In (Some rows) [TradeStore.usAggregated s'; TradeStore.txBorderPorts s';
                               TradeStore.btsUsState s'; TradeStore.masterData s'] ->
               In d rows ->
               exists q, get d "TradeValue" = JNum q)
         /\ List.forallb is_warning (snd (loadData number_of_string f s)) = true
     end.
Proof.
  destruct f as [message|a b c e]; cbn [loadData fst snd TradeStore.loading
    TradeStore.filters TradeStore.error TradeStore.usAggregated TradeStore.txBorderPorts
    TradeStore.btsUsState TradeStore.masterData].
  - repeat split.
  - split; [reflexivity|]. split; [reflexivity|]. split; [reflexivity|]. split.
    + intros rows d Hrows Hd.
      assert (Hn : exists d0, d = normalize number_of_string d0).
      { cbn [In] in Hrows.
        destruct Hrows as [E|[E|[E|[E|[]]]]]; injection E as <-;
          apply List.in_map_iff in Hd; destruct Hd as (d0 & <- & _);
          exists d0; reflexivity. }
      destruct Hn as [d0 ->].
      destruct (normalize_tradeValue number_of_string d0) as (q & Hq & _).
      exists q. exact Hq.
    + rewrite !List.forallb_app.
      rewrite !warnings_only. reflexivity.
Qed.

End LoaderFacts.

(** ** The chat responder's filters *)

Module AiClientFacts.
Import JS AiClient.

Lemma is_string_spec (v : jsval) (s : string) : is_string v s = true <-> v = JStr s.
Proof.
  destruct v as [| |q|t]; cbn; try (split; [discriminate|intros H; discriminate]).
  rewrite String.eqb_eq. split; [intros ->; reflexivity|intros H; injection H as ->; reflexivity].
Qed.

Lemma is_number_spec (v : jsval) (n : option Q) :
  is_number v n = true <-> exists q m, v = JNum q /\ n = Some m /\ (q == m)%Q.
Proof.
  destruct v as [| |q|t]; cbn;
    try (split; [discriminate|intros (q' & m & H & _); discriminate]).
  destruct n as [m|]; [|split; [discriminate|intros (q' & m & _ & H & _); discriminate]].
  rewrite Qeq_bool_iff. split.
  - intros H. exists q, m. repeat split. exact H.
  - intros (q' & m' & E1 & E2 & H). injection E1 as ->. injection E2 as ->. exact H.
Qed.

Lemma passes_spec (f : option string) (test : string -> bool) :
  passes f test = true <-> forall v, f = Some v -> test v = true.
Proof.
  destruct f as [v|]; cbn.
  - split; [intros H w E; injection E as <-; exact H|intros H; apply H; reflexivity].
  - split; [intros _ v E; discriminate|reflexivity].
Qed.

Section Filtering.

Variable string_to_number : string -> option Q.

(** X7.  [applyFilters] keeps, in their order and as often as they
    occur, exactly the rows that match every filter that is set: the
    result is the data filtered by a test that a row passes exactly when
    its [Year] is the number the year filter reads as, and its
    [TradeType], [Mode], [State], [CommodityGroup] and [POE] are the
    strings of the filters of those names. *)
Theorem applyFilters_keeps_matching (data : list row) (f : gmap string string) :
  exists keep : row -> bool,
    applyFilters string_to_number data (Some f) = List.filter keep data
    /\ forall d,
         keep d = true
         <-> (forall y, active f "year" = Some y ->
                        exists q m, get d "Year" = JNum q
                                    /\ string_to_number y = Some m /\ (q == m)%Q)
             /\ (forall key col v, In (key, col) textFilters -> active f key = Some v ->
                                   get d col = JStr v).
Proof.
  exists (keepRow string_to_number f). split; [reflexivity |]. intros d.
  unfold keepRow. rewrite !andb_true_iff, !passes_spec.
  split.
  - intros (((((Hy & Ht) & Hm) & Hs) & Hc) & Hp).
    split.
    + intros y E. apply is_number_spec, Hy, E.
    + intros key col v Hk E. cbn [textFilters In] in Hk.
      destruct Hk as [K|[K|[K|[K|[K|[]]]]]]; injection K as <- <-;
        apply is_string_spec; auto.
  - intros (Hy & Htext).
    repeat split; intros v E.
    + apply is_number_spec, Hy, E.
    + apply is_string_spec, (Htext "tradeType" "TradeType" v); [cbn; tauto|exact E].
    + apply is_string_spec, (Htext "mode" "Mode" v); [cbn; tauto|exact E].
    + apply is_string_spec, (Htext "state" "State" v); [cbn; tauto|exact E].
    + apply is_string_spec, (Htext "commodityGroup" "CommodityGroup" v); [cbn; tauto|exact E].
    + apply is_string_spec, (Htext "port" "POE" v); [cbn; tauto|exact E].
Qed.

Lemma unrestricted_keeps (f : gmap string string) (d : row) :
  unrestricted f -> keepRow string_to_number f d = true.
Proof.
  intros H. unfold keepRow.
  rewrite !(H _) by (cbn; tauto). reflexivity.
Qed.

Lemma filterParts_nil (f : gmap string string) : filterParts f = [] <-> unrestricted f.
Proof.
  unfold filterParts, unrestricted. split.
  - intros H key Hk. cbn [TradeStore.filterKeys In] in Hk.
    destruct (active f "year") eqn:E1; [discriminate|].
    destruct (active f "tradeType") eqn:E2; [discriminate|].
    destruct (active f "mode") eqn:E3; [discriminate|].
    destruct (active f "state") eqn:E4; [discriminate|].
    destruct (active f "commodityGroup") eqn:E5; [discriminate|].
    destruct (active f "port") eqn:E6; [discriminate|].
    destruct Hk as [<-|[<-|[<-|[<-|[<-|[<-|[]]]]]]]; assumption.
  - intros H. rewrite !(H _) by (cbn; tauto). reflexivity.
Qed.

(** X8.  No filter, no restriction: [describeFilters] is the empty text
    exactly when none of the six filters is set, and then [applyFilters]
    returns the data as it is; this is the case after [resetFilters], and
    when there is no filter object at all. *)
Theorem no_filter_no_restriction (data : list row) (f : gmap string string)
    (s : TradeStore.state) :
  (describeFilters (Some f) = EmptyString <-> unrestricted f)
  /\ (unrestricted f -> applyFilters string_to_number data (Some f) = data)
  /\ unrestricted (TradeStore.filters (TradeStore.resetFilters s))
  /\ applyFilters string_to_number data None = data.
Proof.
  split; [|split; [|split; [|reflexivity]]].
  - rewrite <- filterParts_nil. unfold describeFilters.
    destruct (filterParts f) as [|p ps]; [tauto|].
    split; intros H; discriminate.
  - intros H. unfold applyFilters.
    induction data as [|d data IH]; cbn [List.filter]; [reflexivity|].
    rewrite (unrestricted_keeps f d H), IH. reflexivity.
  - intros key Hk. unfold active. cbn [TradeStore.resetFilters TradeStore.with_filters
      TradeStore.filters].
    cbn [TradeStore.filterKeys In] in Hk.
    destruct Hk as [<-|[<-|[<-|[<-|[<-|[<-|[]]]]]]]; vm_compute; reflexivity.
Qed.

Lemma active_insert_other (f : gmap string string) (key key' v : string) :
  key <> key' -> active (<[key := v]> f) key' = active f key'.
Proof. intros H. unfold active. rewrite lookup_insert_ne by exact H. reflexivity. Qed.

Lemma passes_weaker (a b : option string) (test : string -> bool) :
  a = None \/ b = a -> passes b test = true -> passes a test = true.
Proof. intros [-> | ->]; [reflexivity|exact (fun H => H)]. Qed.

(** X9.  Setting a filter that was not set never adds rows: every row
    kept under the new filters was kept before. *)
Theorem adding_a_filter_narrows (data : list row) (f : gmap string string)
    (key v : string) (d : row) :
  active f key = None ->
  In d (applyFilters string_to_number data (Some (<[key := v]> f))) ->
  In d (applyFilters string_to_number data (Some f)).
Proof.
  intros Hnone. unfold applyFilters. rewrite !List.filter_In.
  intros [Hin Hkeep]. split; [exact Hin|].
  assert (Hk : forall key', active f key' = None \/ active (<[key := v]> f) key' = active f key').
  { intros key'. destruct (String.eqb key key') eqn:E.
    - apply String.eqb_eq in E. subst key'. left. exact Hnone.
    - apply String.eqb_neq in E. right. apply active_insert_other, E. }
  unfold keepRow in *. rewrite !andb_true_iff in *.
  destruct Hkeep as (((((H1 & H2) & H3) & H4) & H5) & H6).
  repeat split; eapply passes_weaker; try eassumption; apply Hk.
Qed.

End Filtering.

Lemma adding_a_filter_narrows_witness :
  active TradeStore.emptyFilters "mode" = None
  /\ In Cases.truck_row
       (applyFilters Samples.nan_strings [Cases.truck_row; Cases.rail_row]
          (Some (<["mode" := "Truck"]> TradeStore.emptyFilters)))
  /\ In Cases.truck_row
       (applyFilters Samples.nan_strings [Cases.truck_row; Cases.rail_row]
          (Some TradeStore.emptyFilters)).
Proof.
  assert (A : active TradeStore.emptyFilters "mode" = None) by (vm_compute; reflexivity).
  assert (B : In Cases.truck_row
                (applyFilters Samples.nan_strings [Cases.truck_row; Cases.rail_row]
                   (Some (<["mode" := "Truck"]> TradeStore.emptyFilters))))
    by (vm_compute; left; reflexivity).
  split; [exact A |]. split; [exact B |].
  exact (adding_a_filter_narrows Samples.nan_strings [Cases.truck_row; Cases.rail_row]
           TradeStore.emptyFilters "mode" "Truck" Cases.truck_row A B).
Defined.

End AiClientFacts.

(** ** The aggregators, label by label *)

Module SeriesFacts.
Import JS Aggregators AiClient.
Local Open Scope Q_scope.

Lemma same_value_refl (a : jsval) : same_value a a = true.
Proof.
  destruct a as [| |q|s]; cbn; try reflexivity.
  - apply Qeq_bool_iff. reflexivity.
  - apply String.eqb_refl.
Qed.

Lemma same_value_sym (a b : jsval) : same_value a b = same_value b a.
Proof.
  destruct a as [| |p|s], b as [| |q|t]; cbn; try reflexivity.
  - destruct (Qeq_bool p q) eqn:E1, (Qeq_bool q p) eqn:E2; try reflexivity.
    + apply Qeq_bool_iff in E1. symmetry in E1. apply Qeq_bool_iff in E1. congruence.
    + apply Qeq_bool_iff in E2. symmetry in E2. apply Qeq_bool_iff in E2. congruence.
  - apply String.eqb_sym.
Qed.

Lemma same_value_trans (a b c : jsval) :
  same_value a b = true -> same_value b c = true -> same_value a c = true.
Proof.
  destruct a as [| |p|s], b as [| |q|t], c as [| |r|u]; cbn; try discriminate; try reflexivity.
  - rewrite !Qeq_bool_iff. intros H1 H2. rewrite H1. exact H2.
  - rewrite !String.eqb_eq. congruence.
Qed.

Lemma unlike_trans (a b c : jsval) :
  same_value a b = true -> same_value a c = false -> same_value b c = false.
Proof.
  intros H1 H2. destruct (same_value b c) eqn:E; [|reflexivity].
  rewrite (same_value_trans a b c H1 E) in H2. discriminate.
Qed.

(** What [map.set] does to the list of entries. *)
Lemma map_set_spec (m : jsmap) (k : jsval) (v : Q) :
  (map_get m k = None /\ apart_from k m /\ map_set m k v = m ++ [(k, v)])
  \/ (exists pre k' w post,
        m = pre ++ (k', w) :: post /\ same_value k' k = true
        /\ map_get m k = Some w /\ map_set m k v = pre ++ (k', v) :: post).
Proof.
  induction m as [|[k0 w0] m IH]; cbn [map_get map_set].
  - left. repeat split. intros e [].
  - destruct (same_value k0 k) eqn:E.
    + right. exists [], k0, w0, m. repeat split. exact E.
    + destruct IH as [(Hg & Ha & Hs)|(pre & k' & w & post & Hm & Hk & Hg & Hs)].
      * left. split; [exact Hg|]. split; [|rewrite Hs; reflexivity].
        intros e [<-|He]; [cbn; rewrite same_value_sym; exact E|apply Ha, He].
      * right. exists ((k0, w0) :: pre), k', w, post.
        subst m. rewrite Hs. repeat split; assumption.
Qed.

Lemma sumrows_app (a b : list row) : sumrows (a ++ b) == sumrows a + sumrows b.
Proof.
  induction a as [|d a IH].
  - change (sumrows b == 0 + sumrows b). ring.
  - change (tradeValue d + sumrows (a ++ b) == tradeValue d + sumrows a + sumrows b).
    rewrite IH. ring.
Qed.

Lemma sumTradeValue_snoc (rows : list row) (d : row) :
  sumTradeValue (rows ++ [d]) = Double.plus (sumTradeValue rows) (tradeValue d).
Proof. unfold sumTradeValue. rewrite List.fold_left_app. reflexivity. Qed.

Lemma labelSum_snoc (key : string) (l : jsval) (rows : list row) (d : row) :
  labelSum key l (rows ++ [d])
  = (if truthy (get d key) && same_value (get d key) l
     then Double.plus (labelSum key l rows) (tradeValue d)
     else labelSum key l rows).
Proof.
  unfold labelSum, rowsOf. rewrite List.filter_app. cbn [List.filter].
  destruct (truthy (get d key) && same_value (get d key) l).
  - apply sumTradeValue_snoc.
  - rewrite List.app_nil_r. reflexivity.
Qed.

Lemma labelSum_none (key : string) (l : jsval) (rows : list row) :
  (forall d, In d rows -> truthy (get d key) = true -> same_value (get d key) l = false) ->
  labelSum key l rows == 0.
Proof.
  intros H. unfold labelSum, rowsOf.
  induction rows as [|d rows IH]; cbn [List.filter]; [reflexivity|].
  destruct (truthy (get d key)) eqn:Et; cbn [andb].
  - rewrite (H d (or_introl eq_refl) Et). apply IH.
    intros e He. apply H. right. exact He.
  - apply IH. intros e He. apply H. right. exact He.
Qed.

Lemma apart_from_keys (k : jsval) (s s' : list (jsval * Q)) :
  List.map fst s = List.map fst s' -> apart_from k s -> apart_from k s'.
Proof.
  intros E H e He. apply (List.in_map fst) in He. rewrite <- E in He.
  apply List.in_map_iff in He. destruct He as (e0 & <- & He0). apply H, He0.
Qed.

Lemma labels_apart_keys (s : list (jsval * Q)) : forall s',
  List.map fst s = List.map fst s' -> labels_apart s -> labels_apart s'.
Proof.
  induction s as [|e s IH]; intros [|e' s'] E; try discriminate; [exact (fun H => H)|].
  cbn in E. injection E as E1 E2. cbn [labels_apart]. intros [Ha Hl].
  split; [|exact (IH s' E2 Hl)]. rewrite <- E1. exact (apart_from_keys _ s s' E2 Ha).
Qed.

Lemma labels_apart_snoc (m : list (jsval * Q)) (x : jsval * Q) :
  labels_apart m -> apart_from (fst x) m -> labels_apart (m ++ [x]).
Proof.
  induction m as [|e m IH]; intros Hl Ha; cbn [app labels_apart].
  - split; [intros f []|exact I].
  - destruct Hl as [He Hl]. split.
    + intros f Hf. apply List.in_app_iff in Hf. destruct Hf as [Hf|[<-|[]]].
      * apply He, Hf.
      * rewrite same_value_sym. apply Ha. left. reflexivity.
    + apply IH; [exact Hl|]. intros f Hf. apply Ha. right. exact Hf.
Qed.

(** In a series with labels apart, the label of an entry is unlike the
    labels of all the other entries. *)
Lemma labels_apart_others (pre : list (jsval * Q)) : forall a post e,
  labels_apart (pre ++ a :: post) -> In e (pre ++ post) ->
  same_value (fst a) (fst e) = false.
Proof.
  induction pre as [|p pre IH]; intros a post e; cbn [app labels_apart].
  - intros [Ha _] He. apply Ha, He.
  - intros [Hp Hl] [<-|He].
    + rewrite same_value_sym. apply Hp. apply List.in_app_iff. right. left. reflexivity.
    + apply (IH a post e Hl He).
Qed.

Lemma apart_from_In (k : jsval) (s : list (jsval * Q)) (l : jsval) (v : Q) :
  apart_from k s -> In (l, v) s -> same_value k l = false.
Proof. intros H Hin. exact (H (l, v) Hin). Qed.

(** One step of the grouping keeps the series a grouping of the rows
    seen so far. *)
Lemma groupStep_grouped (key : string) (rows : list row) (m : jsmap) (d : row) :
  grouped key rows m -> grouped key (rows ++ [d]) (groupStep key m d).
Proof.
  intros (Hapart & Hvals & Hcover). unfold groupStep.
  destruct (truthy (get d key)) eqn:Et.
  - set (l0 := get d key) in *.
    destruct (map_set_spec m l0 (Double.plus (or_zero (map_get m l0)) (tradeValue d)))
      as [(Hg & Ha & Hs)|(pre & k' & w & post & Hm & Hk & Hg & Hs)]; rewrite Hs, Hg;
      cbn [or_zero].
    + (* a new label *)
      split; [|split].
      * apply labels_apart_snoc; assumption.
      * intros l v Hin. apply List.in_app_iff in Hin. destruct Hin as [Hin|[E|[]]].
        -- destruct (Hvals l v Hin) as [Htl Hv]. split; [exact Htl|].
           rewrite labelSum_snoc. fold l0. rewrite Et. cbn [andb].
           rewrite (apart_from_In _ _ _ _ Ha Hin). exact Hv.
        -- injection E as <- <-. split; [exact Et|].
           rewrite labelSum_snoc. fold l0. rewrite Et, same_value_refl. cbn [andb].
           rewrite (DoubleFacts.plus_compat (labelSum key l0 rows) 0
                      (tradeValue d) (tradeValue d)); [reflexivity| |reflexivity].
           apply labelSum_none.
           intros e He Hte.
           destruct (Hcover e He Hte) as (l & v & Hin & Hsame).
           destruct (same_value (get e key) l0) eqn:E; [|reflexivity].
           pose proof (same_value_trans _ _ _ Hsame E) as C.
           rewrite same_value_sym in C. rewrite (apart_from_In _ _ _ _ Ha Hin) in C. discriminate.
      * intros e He Hte. apply List.in_app_iff in He. destruct He as [He|[<-|[]]].
        -- destruct (Hcover e He Hte) as (l & v & Hin & Hsame).
           exists l, v. split; [apply List.in_app_iff; left; exact Hin|exact Hsame].
        -- exists l0, (Double.plus 0 (tradeValue d)). split; [|apply same_value_refl].
           apply List.in_app_iff. right. left. reflexivity.
    + (* a label seen before *)
      subst m.
      assert (Hold : forall l v, In (l, v) (pre ++ post) -> same_value l0 l = false).
      { intros l v Hin.
        pose proof (labels_apart_others pre (k', w) post (l, v) Hapart Hin) as H.
        cbn [fst] in H. apply (unlike_trans k' l0 l Hk H). }
      split; [|split].
      * apply (labels_apart_keys (pre ++ (k', w) :: post)); [|exact Hapart].
        rewrite !List.map_app. reflexivity.
      * intros l v Hin. apply List.in_app_iff in Hin.
        rewrite labelSum_snoc. fold l0. rewrite Et. cbn [andb].
        destruct Hin as [Hin|[E|Hin]].
        -- destruct (Hvals l v) as [Htl Hv]; [apply List.in_app_iff; left; exact Hin|].
           split; [exact Htl|].
           rewrite (Hold l v) by (apply List.in_app_iff; left; exact Hin).
           exact Hv.
        -- injection E as <- <-.
           destruct (Hvals k' w) as [Htl Hv];
             [apply List.in_app_iff; right; left; reflexivity|].
           split; [exact Htl|].
           rewrite same_value_sym, Hk.
           rewrite (DoubleFacts.plus_compat w (labelSum key k' rows)
                      (tradeValue d) (tradeValue d) Hv (Qeq_refl _)). reflexivity.
        -- destruct (Hvals l v) as [Htl Hv];
             [apply List.in_app_iff; right; right; exact Hin|].
           split; [exact Htl|].
           rewrite (Hold l v) by (apply List.in_app_iff; right; exact Hin).
           exact Hv.
      * intros e He Hte. apply List.in_app_iff in He. destruct He as [He|[<-|[]]].
        -- destruct (Hcover e He Hte) as (l & v & Hin & Hsame).
           apply List.in_app_iff in Hin. destruct Hin as [Hin|[E|Hin]].
           ++ exists l, v. split; [apply List.in_app_iff; left; exact Hin|exact Hsame].
           ++ injection E as <- <-. exists k', (Double.plus w (tradeValue d)).
              split; [apply List.in_app_iff; right; left; reflexivity|exact Hsame].
           ++ exists l, v. split; [|exact Hsame].
              apply List.in_app_iff. right. right. exact Hin.
        -- exists k', (Double.plus w (tradeValue d)).
           split; [apply List.in_app_iff; right; left; reflexivity|exact Hk].
  - (* a row without a label *)
    split; [exact Hapart|]. split.
    + intros l v Hin. destruct (Hvals l v Hin) as [Htl Hv]. split; [exact Htl|].
      rewrite labelSum_snoc, Et. cbn [andb]. exact Hv.
    + intros e He Hte. apply List.in_app_iff in He. destruct He as [He|[<-|[]]].
      * apply (Hcover e He Hte).
      * congruence.
Qed.

Lemma fold_grouped (key : string) (more : list row) : forall rows m,
  grouped key rows m ->
  grouped key (rows ++ more) (List.fold_left (groupStep key) more m).
Proof.
  induction more as [|d more IH]; intros rows m H; cbn [List.fold_left].
  - rewrite List.app_nil_r. exact H.
  - change (d :: more) with ([d] ++ more). rewrite List.app_assoc.
    apply IH, groupStep_grouped, H.
Qed.

(** *** Sorting *)

Lemma insert_desc_In (e x : jsval * Q) (l : list (jsval * Q)) :
  In x (insert_desc e l) <-> x = e \/ In x l.
Proof.
  induction l as [|f l IH]; cbn [insert_desc].
  - cbn. intuition congruence.
  - destruct (Qle_bool (snd f) (snd e)); cbn [In]; [intuition congruence|].
    rewrite IH. intuition congruence.
Qed.

Lemma sortDesc_In (x : jsval * Q) (l : list (jsval * Q)) : In x (sortDesc l) <-> In x l.
Proof.
  induction l as [|e l IH]; [reflexivity|].
  change (sortDesc (e :: l)) with (insert_desc e (sortDesc l)).
  rewrite insert_desc_In, IH. cbn. intuition congruence.
Qed.

Lemma insert_desc_apart (e : jsval * Q) (l : list (jsval * Q)) :
  apart_from (fst e) l -> labels_apart l -> labels_apart (insert_desc e l).
Proof.
  induction l as [|f l IH]; intros Ha Hl; cbn [insert_desc].
  - split; [exact Ha|exact I].
  - destruct (Qle_bool (snd f) (snd e)); [split; assumption|].
    destruct Hl as [Hf Hl]. cbn [labels_apart]. split.
    + intros x Hx. apply insert_desc_In in Hx. destruct Hx as [->|Hx].
      * rewrite same_value_sym. apply Ha. left. reflexivity.
      * apply Hf, Hx.
    + apply IH; [|exact Hl]. intros x Hx. apply Ha. right. exact Hx.
Qed.

Lemma sortDesc_apart (l : list (jsval * Q)) : labels_apart l -> labels_apart (sortDesc l).
Proof.
  induction l as [|e l IH]; [exact (fun H => H)|]. intros [Ha Hl].
  change (sortDesc (e :: l)) with (insert_desc e (sortDesc l)).
  apply insert_desc_apart; [|exact (IH Hl)].
  intros x Hx. apply Ha. apply sortDesc_In, Hx.
Qed.

Lemma not_le_bool (x y : Q) : Qle_bool x y = false -> y <= x.
Proof.
  intros E. apply Qlt_le_weak, Qnot_le_lt. intros C.
  apply Qle_bool_iff in C. congruence.
Qed.

Lemma insert_desc_descending (e : jsval * Q) (l : list (jsval * Q)) :
  descending l -> descending (insert_desc e l).
Proof.
  induction l as [|f l IH]; intros Hd; cbn [insert_desc].
  - split; [intros x []|exact I].
  - destruct (Qle_bool (snd f) (snd e)) eqn:E.
    + apply Qle_bool_iff in E. split; [|exact Hd].
      destruct Hd as [Hf _]. intros x [<-|Hx]; [exact E|].
      eapply Qle_trans; [apply Hf, Hx|exact E].
    + apply not_le_bool in E. destruct Hd as [Hf Hd]. cbn [descending]. split.
      * intros x Hx. apply insert_desc_In in Hx. destruct Hx as [->|Hx]; [exact E|].
        apply Hf, Hx.
      * apply IH, Hd.
Qed.

Lemma sortDesc_descending (l : list (jsval * Q)) : descending (sortDesc l).
Proof.
  induction l as [|e l IH]; [exact I|].
  change (sortDesc (e :: l)) with (insert_desc e (sortDesc l)).
  apply insert_desc_descending, IH.
Qed.

(** X10.  [groupAndSum(data, key)] is the grouping of the data by the
    column: the labels of the series are truthy and pairwise different,
    the value under each label is the sum of the trade values of the rows
    with that label, every row with a truthy label is counted under a
    label, and the series is sorted by value, largest first. *)
Theorem groupAndSum_groups (data : list row) (key : string) :
  grouped key data (groupAndSum data key) /\ descending (groupAndSum data key).
Proof.
  unfold groupAndSum. split; [|apply sortDesc_descending].
  assert (H : grouped key data (List.fold_left (groupStep key) data [])).
  { apply (fold_grouped key data [] []).
    split; [exact I|]. split; [intros l v []|intros d []]. }
  destruct H as (Hapart & Hvals & Hcover). split; [|split].
  - apply sortDesc_apart, Hapart.
  - intros l v Hin. apply Hvals. apply sortDesc_In, Hin.
  - intros d Hd Ht. destruct (Hcover d Hd Ht) as (l & v & Hin & Hs).
    exists l, v. split; [apply sortDesc_In, Hin|exact Hs].
Qed.

(** *** The Home page's grouping by mode *)

Lemma map_get_set_self (m : jsmap) (k : jsval) (v : Q) :
  map_get (map_set m k v) k = Some v.
Proof.
  induction m as [|[k0 w] m IH]; cbn [map_set map_get].
  - rewrite same_value_refl. reflexivity.
  - destruct (same_value k0 k) eqn:E; cbn [map_get]; rewrite E; [reflexivity|exact IH].
Qed.

Lemma map_set_twice (m : jsmap) (k : jsval) (v w : Q) :
  map_set (map_set m k v) k w = map_set m k w.
Proof.
  induction m as [|[k0 u] m IH]; cbn [map_set].
  - rewrite same_value_refl. reflexivity.
  - destruct (same_value k0 k) eqn:E; cbn [map_set]; rewrite E; [reflexivity|].
    rewrite IH. reflexivity.
Qed.

Lemma modeStep_groupStep (m : jsmap) (d : row) : modeStep m d = groupStep "Mode" m d.
Proof.
  unfold modeStep, groupStep, map_has. cbv zeta.
  destruct (truthy (get d "Mode")); [|reflexivity].
  destruct (map_get m (get d "Mode")) eqn:E; cbv iota.
  - rewrite E. reflexivity.
  - rewrite map_get_set_self, map_set_twice. reflexivity.
Qed.

(** X11.  The Home page's trade-by-mode series is the group-and-sum
    helper applied to the column [Mode]: the two implementations give the
    same series. *)
Theorem modeData_is_groupAndSum (rows : list row) :
  modeData (Some rows) = groupAndSum rows "Mode".
Proof.
  unfold modeData, groupAndSum. f_equal.
  generalize (@nil (jsval * Q)). induction rows as [|d rows IH]; intros acc.
  - reflexivity.
  - cbn [List.fold_left]. rewrite modeStep_groupStep. apply IH.
Qed.

End SeriesFacts.

(** ** The aggregators, in total *)

Module AggregatorsFacts.
Import JS Aggregators Samples.
Local Open Scope Q_scope.

Lemma sumr_cons (m : jsval * Q) (s : list (jsval * Q)) :
  sumr (m :: s) = snd m + sumr s.
Proof. reflexivity. Qed.

Lemma sumrows_cons (d : row) (data : list row) :
  sumrows (d :: data) = tradeValue d + sumrows data.
Proof. reflexivity. Qed.

Lemma sumr_total (s : list (jsval * Q)) : sumr s = Double.total (List.map snd s).
Proof.
  induction s as [|m s IH]; [reflexivity|].
  change (sumr (m :: s)) with (snd m + sumr s). rewrite IH. reflexivity.
Qed.

Lemma sumrows_total (data : list row) :
  sumrows data = Double.total (List.map tradeValue data).
Proof.
  induction data as [|d data IH]; [reflexivity|].
  change (sumrows (d :: data)) with (tradeValue d + sumrows data). rewrite IH. reflexivity.
Qed.

(** On exact values the double sums are the exact sums. *)
Lemma seriesTotal_sumr (s : list (jsval * Q)) :
  Double.exact (List.map snd s) -> seriesTotal s == sumr s.
Proof.
  intros H. unfold seriesTotal. rewrite DoubleFacts.fold_plus_map, sumr_total.
  apply DoubleFacts.exact_sum, H.
Qed.

Lemma sumTradeValue_sumrows (data : list row) :
  exact_values data -> sumTradeValue data == sumrows data.
Proof.
  intros H. unfold sumTradeValue. rewrite DoubleFacts.fold_plus_map, sumrows_total.
  apply DoubleFacts.exact_sum, H.
Qed.

Lemma insert_desc_sum (e : jsval * Q) (l : list (jsval * Q)) :
  sumr (insert_desc e l) == snd e + sumr l.
Proof.
  induction l as [|f rest IH]; cbn [insert_desc].
  - reflexivity.
  - destruct (Qle_bool (snd f) (snd e)); [reflexivity|].
    rewrite !sumr_cons, IH. ring.
Qed.

(** Sorting moves entries around, the total stays. *)
Lemma sortDesc_sum (l : list (jsval * Q)) : sumr (sortDesc l) == sumr l.
Proof.
  induction l as [|e rest IH]; [reflexivity|].
  change (sortDesc (e :: rest)) with (insert_desc e (sortDesc rest)).
  rewrite insert_desc_sum, sumr_cons, IH. reflexivity.
Qed.

Lemma weight_cons (x : Q) (xs : list Q) :
  Double.abs_total (x :: xs) = Qabs x + Double.abs_total xs.
Proof. reflexivity. Qed.

Lemma insert_desc_weight (e : jsval * Q) (l : list (jsval * Q)) :
  Double.abs_total (List.map snd (insert_desc e l))
  == Qabs (snd e) + Double.abs_total (List.map snd l).
Proof.
  induction l as [|f rest IH]; cbn [insert_desc].
  - reflexivity.
  - destruct (Qle_bool (snd f) (snd e)); [reflexivity|].
    cbn [List.map]. rewrite !weight_cons, IH. ring.
Qed.

(** Sorting keeps exact values exact. *)
Lemma sortDesc_exact (l : list (jsval * Q)) :
  Double.exact (List.map snd l) -> Double.exact (List.map snd (sortDesc l)).
Proof.
  intros [Hw Hm]. split.
  - intros x Hx. apply Hw. apply List.in_map_iff in Hx. destruct Hx as (e & <- & He).
    rewrite SeriesFacts.sortDesc_In in He. apply List.in_map, He.
  - eapply Qle_trans; [|exact Hm]. clear.
    induction l as [|e l IH]; [apply Qle_refl|].
    change (sortDesc (e :: l)) with (insert_desc e (sortDesc l)).
    rewrite insert_desc_weight. cbn [List.map]. rewrite weight_cons. lra.
Qed.

Lemma map_set_sum (m : jsmap) (key : jsval) (v : Q) :
  sumr (map_set m key v) == sumr m - or_zero (map_get m key) + v.
Proof.
  induction m as [|[k w] rest IH]; cbn [map_set map_get].
  - change (v + 0 == 0 - 0 + v). ring.
  - destruct (same_value k key).
    + rewrite !sumr_cons. cbn [or_zero snd]. ring.
    + rewrite !sumr_cons, IH. cbn [snd]. ring.
Qed.

Lemma map_set_weight (m : jsmap) (key : jsval) (v : Q) :
  Double.abs_total (List.map snd (map_set m key v))
  == Double.abs_total (List.map snd m) - Qabs (or_zero (map_get m key)) + Qabs v.
Proof.
  induction m as [|[k w] rest IH]; cbn [map_set map_get].
  - change (Qabs v + 0 == 0 - 0 + Qabs v). ring.
  - destruct (same_value k key); cbn [List.map snd].
    + rewrite !weight_cons. cbn [or_zero]. ring.
    + rewrite !weight_cons, IH. ring.
Qed.

Lemma map_set_whole (m : jsmap) (key : jsval) (v : Q) :
  (forall x, In x (List.map snd m) -> Double.whole x) -> Double.whole v ->
  forall x, In x (List.map snd (map_set m key v)) -> Double.whole x.
Proof.
  induction m as [|[k w] rest IH]; cbn [map_set]; intros Hm Hv x.
  - intros [<-|[]]. exact Hv.
  - destruct (same_value k key); cbn [List.map snd].
    + intros [<-|Hx]; [exact Hv | apply Hm; right; exact Hx].
    + intros [<-|Hx]; [apply Hm; left; reflexivity|].
      apply IH; [intros y Hy; apply Hm; right; exact Hy | exact Hv | exact Hx].
Qed.

(** The sum under a label is one of the values, or zero. *)
Lemma map_get_whole (m : jsmap) (key : jsval) :
  (forall x, In x (List.map snd m) -> Double.whole x) ->
  Double.whole (or_zero (map_get m key))
  /\ Qabs (or_zero (map_get m key)) <= Double.abs_total (List.map snd m).
Proof.
  induction m as [|[k w] rest IH]; cbn [map_get]; intros Hm.
  - split; [apply DoubleFacts.whole_zero | apply Qle_refl].
  - cbn [List.map snd]. rewrite weight_cons.
    pose proof (DoubleFacts.abs_total_nonneg (List.map snd rest)) as Hn.
    destruct (same_value k key); cbn [or_zero].
    + split; [apply Hm; left; reflexivity | lra].
    + destruct IH as [H1 H2]; [intros y Hy; apply Hm; right; exact Hy|].
      split; [exact H1|]. pose proof (Qabs_nonneg w). lra.
Qed.

(** One step of the grouping over exact sums: the new sum is exact. *)
Lemma groupStep_sum (key : string) (m : jsmap) (d : row) :
  (forall x, In x (List.map snd m) -> Double.whole x) ->
  Double.whole (tradeValue d) ->
  Double.abs_total (List.map snd m) + Qabs (tradeValue d) <= Double.max_safe ->
  sumr (groupStep key m d)
  == sumr m + (if truthy (get d key) then tradeValue d else 0)
  /\ (forall x, In x (List.map snd (groupStep key m d)) -> Double.whole x)
  /\ Double.abs_total (List.map snd (groupStep key m d))
     <= Double.abs_total (List.map snd m) + Qabs (tradeValue d).
Proof.
  intros Hm Hd Hb. unfold groupStep. destruct (truthy (get d key)).
  - destruct (map_get_whole m (get d key) Hm) as [Hw Hle].
    destruct (DoubleFacts.plus_exact _ _ Hw Hd) as [E W]; [lra|].
    split; [|split].
    + rewrite map_set_sum, E. ring.
    + apply map_set_whole; assumption.
    + rewrite map_set_weight, E.
      pose proof (Qabs_triangle (or_zero (map_get m (get d key))) (tradeValue d)). lra.
  - split; [ring|]. split; [exact Hm|]. pose proof (Qabs_nonneg (tradeValue d)). lra.
Qed.

Lemma labelled_cons (key : string) (d : row) (data : list row) :
  sumrows (labelled key (d :: data))
  == (if truthy (get d key) then tradeValue d else 0) + sumrows (labelled key data).
Proof.
  unfold labelled. cbn [List.filter]. destruct (truthy (get d key)).
  - rewrite sumrows_cons. reflexivity.
  - ring.
Qed.

Lemma fold_steps_sum (key : string) (data : list row) : forall acc,
  (forall x, In x (List.map snd acc) -> Double.whole x) ->
  (forall x, In x (List.map tradeValue data) -> Double.whole x) ->
  Double.abs_total (List.map snd acc) + Double.abs_total (List.map tradeValue data)
  <= Double.max_safe ->
  sumr (List.fold_left (groupStep key) data acc)
  == sumr acc + sumrows (labelled key data)
  /\ Double.exact (List.map snd (List.fold_left (groupStep key) data acc)).
Proof.
  induction data as [|d rest IH]; intros acc Hacc Hdata Hb.
  - cbn [List.fold_left]. split; [change (sumr acc == sumr acc + 0); ring|].
    split; [exact Hacc|]. cbn in Hb. lra.
  - cbn [List.fold_left]. cbn [List.map] in Hb. rewrite weight_cons in Hb.
    pose proof (DoubleFacts.abs_total_nonneg (List.map tradeValue rest)) as Hn.
    destruct (groupStep_sum key acc d Hacc) as (E & W & B).
    { apply Hdata. left. reflexivity. }
    { lra. }
    destruct (IH (groupStep key acc d) W) as [E' X].
    { intros x Hx. apply Hdata. right. exact Hx. }
    { lra. }
    split; [|exact X]. rewrite E', E, labelled_cons. ring.
Qed.

Lemma exact_labelled (key : string) (data : list row) :
  exact_values data -> exact_values (labelled key data).
Proof. apply DoubleFacts.exact_filter. Qed.

Lemma groupAndSum_total (data : list row) (key : string) :
  exact_values data ->
  seriesTotal (groupAndSum data key) == sumrows (labelled key data)
  /\ sumTradeValue (labelled key data) == sumrows (labelled key data).
Proof.
  intros H. split; [|apply sumTradeValue_sumrows, exact_labelled, H].
  destruct H as [Hw Hm]. unfold groupAndSum.
  destruct (fold_steps_sum key data []) as [E X].
  - intros x [].
  - exact Hw.
  - change (Double.abs_total (List.map snd [])) with 0. lra.
  - rewrite seriesTotal_sumr by (apply sortDesc_exact, X).
    rewrite sortDesc_sum, E. change (sumr []) with 0. ring.
Qed.

Lemma labelled_all (key : string) (data : list row) :
  (forall d, In d data -> truthy (get d key) = true) -> labelled key data = data.
Proof.
  induction data as [|d rest IH]; intros H; cbn; [reflexivity|].
  rewrite (H d (or_introl eq_refl)). f_equal. apply IH.
  intros e He. apply H. right. exact He.
Qed.

Lemma modeData_groupAndSum (rows : list row) :
  modeData (Some rows) = groupAndSum rows "Mode".
Proof.
  unfold modeData, groupAndSum. f_equal.
  generalize (@nil (jsval * Q)). induction rows as [|d rows IH]; intros acc.
  - reflexivity.
  - cbn [List.fold_left]. rewrite SeriesFacts.modeStep_groupStep. apply IH.
Qed.

(** C5 (as amended).  For any dataset array and any filter combination
    (any choice [keep] of rows) that leaves rows whose trade values are
    whole numbers with absolute values summing to no more than [2^53],
    the values of the series produced by a page aggregator (the
    trade-by-mode grouping, the group-and-sum helper) sum to the trade
    value of the filtered rows that have a truthy group label, the sums
    being those the code computes in doubles, and they are the exact sum;
    rows without a label are left out of the series.  When every filtered
    row has a label the series sums to the value of all filtered rows. *)
Theorem aggregated_sum_is_labelled_sum (data : list row) (keep : row -> bool)
    (key : string) :
  let rows := List.filter keep data in
  exact_values rows ->
  seriesTotal (groupAndSum rows key) == sumTradeValue (labelled key rows)
  /\ seriesTotal (modeData (Some rows)) == sumTradeValue (labelled "Mode" rows)
  /\ seriesTotal (groupAndSum rows key) == sumrows (labelled key rows)
  /\ seriesTotal (modeData (Some rows)) == sumrows (labelled "Mode" rows)
  /\ ((forall d, In d rows -> truthy (get d key) = true) ->
      seriesTotal (groupAndSum rows key) == sumTradeValue rows).
Proof.
  intros rows H.
  destruct (groupAndSum_total rows key H) as [E1 E2].
  destruct (groupAndSum_total rows "Mode" H) as [E3 E4].
  rewrite modeData_groupAndSum.
  split; [rewrite E1, E2; reflexivity|]. split; [rewrite E3, E4; reflexivity|].
  split; [exact E1|]. split; [exact E3|].
  intros Hall. rewrite E1, (labelled_all key rows Hall).
  symmetry. apply sumTradeValue_sumrows, H.
Qed.

Lemma aggregated_sum_is_labelled_sum_witness :
  exact_values (List.filter keep_all [truck_row; truck_row])
  /\ seriesTotal (groupAndSum (List.filter keep_all [truck_row; truck_row]) "Mode")
     == sumTradeValue (labelled "Mode" (List.filter keep_all [truck_row; truck_row])).
Proof.
  assert (H : exact_values (List.filter keep_all [truck_row; truck_row])).
  { split; [|vm_compute; discriminate].
    intros x [<-|[<-|[]]]; exists 7%Z; reflexivity. }
  split; [exact H|].
  exact (proj1 (aggregated_sum_is_labelled_sum [truck_row; truck_row] keep_all "Mode" H)).
Defined.

(** Two inputs that leave the claim.  A row without a mode counts in the
    rows' total, not in the series.  And with fractional values the two
    sums are taken in different orders and round differently: of the
    rows 0.1 by truck, 0.1 by rail, 1 by truck the series (truck 1.1,
    rail 0.1) sums to 1.2000000000000002 and the rows to 1.2. *)
Lemma aggregated_sum_off_claim :
  (seriesTotal (groupAndSum (List.filter keep_all [truck_row; modeless_row]) "Mode") == 7
   /\ seriesTotal (modeData (Some (List.filter keep_all [truck_row; modeless_row]))) == 7
   /\ sumTradeValue (List.filter keep_all [truck_row; modeless_row]) == 12)
  /\ (Forall (fun d => truthy (get d "Mode") = true) fractional_rows
      /\ Forall (fun d => Double.round (tradeValue d) == tradeValue d) fractional_rows
      /\ seriesTotal (groupAndSum (List.filter keep_all fractional_rows) "Mode")
         == 1351079888211149 # 1125899906842624
      /\ seriesTotal (modeData (Some (List.filter keep_all fractional_rows)))
         == 1351079888211149 # 1125899906842624
      /\ sumTradeValue (List.filter keep_all fractional_rows)
         == 5404319552844595 # 4503599627370496
      /\ ~ seriesTotal (groupAndSum (List.filter keep_all fractional_rows) "Mode")
           == sumTradeValue (List.filter keep_all fractional_rows)).
Proof.
  split; [repeat split|].
  split; [repeat constructor|]. split; [repeat constructor|].
  split; [reflexivity|]. split; [reflexivity|]. split; [reflexivity|].
  intros H. vm_compute in H. discriminate.
Qed.

End AggregatorsFacts.

(** ** The Home page *)

Module HomePageFacts.
Import JS HomePage.
Local Open Scope Q_scope.

Lemma trendTotal_cons (p : trendPoint) (s : list trendPoint) :
  trendTotal (p :: s) = value p + trendTotal s.
Proof. reflexivity. Qed.

Lemma insert_by_year_total (p : trendPoint) (l : list trendPoint) :
  trendTotal (insert_by_year p l) == value p + trendTotal l.
Proof.
  induction l as [|e l IH]; cbn [insert_by_year]; [reflexivity|].
  destruct (Qle_bool _ _); [reflexivity|].
  rewrite !trendTotal_cons, IH. ring.
Qed.

Lemma sortByYear_total (l : list trendPoint) : trendTotal (sortByYear l) == trendTotal l.
Proof.
  induction l as [|p l IH]; [reflexivity|].
  change (sortByYear (p :: l)) with (insert_by_year p (sortByYear l)).
  rewrite insert_by_year_total, trendTotal_cons, IH. reflexivity.
Qed.

Lemma points_app (a b : trendMap) :
  trendTotal (List.map snd (a ++ b))
  == trendTotal (List.map snd a) + trendTotal (List.map snd b).
Proof.
  induction a as [|e a IH].
  - change (trendTotal (List.map snd b) == 0 + trendTotal (List.map snd b)). ring.
  - cbn [app List.map]. rewrite !trendTotal_cons, IH. ring.
Qed.

(** Adding to the point of a key, over exact values: the sum is exact. *)
Lemma bump_total (m : trendMap) (key : string) (v : Q) :
  has m key = true ->
  (forall x, In x (List.map value (List.map snd m)) -> Double.whole x) ->
  Double.whole v ->
  Double.abs_total (List.map value (List.map snd m)) + Qabs v <= Double.max_safe ->
  trendTotal (List.map snd (bump m key v)) == trendTotal (List.map snd m) + v
  /\ (forall x, In x (List.map value (List.map snd (bump m key v))) -> Double.whole x)
  /\ Double.abs_total (List.map value (List.map snd (bump m key v)))
     <= Double.abs_total (List.map value (List.map snd m)) + Qabs v.
Proof.
  unfold has. induction m as [|[k p] m IH]; cbn [List.existsb bump fst]; [discriminate|].
  intros Hhas Hm Hv Hb. cbn [List.map snd] in Hm, Hb.
  rewrite AggregatorsFacts.weight_cons in Hb.
  pose proof (DoubleFacts.abs_total_nonneg (List.map value (List.map snd m))) as Hn.
  destruct (String.eqb k key); cbn [orb List.map snd] in *.
  - destruct (DoubleFacts.plus_exact (value p) v) as [E W];
      [apply Hm; left; reflexivity | exact Hv | lra |].
    split; [|split].
    + rewrite !trendTotal_cons. cbn [value]. rewrite E. ring.
    + intros x [<-|Hx]; [exact W | apply Hm; right; exact Hx].
    + rewrite !AggregatorsFacts.weight_cons. cbn [value]. rewrite E.
      pose proof (Qabs_triangle (value p) v). lra.
  - destruct (IH Hhas) as (E & W & B).
    { intros x Hx. apply Hm. right. exact Hx. }
    { exact Hv. }
    { pose proof (Qabs_nonneg (value p)). lra. }
    split; [|split].
    + rewrite !trendTotal_cons, E. ring.
    + intros x [<-|Hx]; [apply Hm; left; reflexivity | apply W, Hx].
    + rewrite !AggregatorsFacts.weight_cons. lra.
Qed.

Lemma has_snoc (m : trendMap) (key : string) (p : trendPoint) :
  has (m ++ [(key, p)]) key = true.
Proof.
  unfold has. rewrite List.existsb_app. cbn. rewrite String.eqb_refl.
  rewrite orb_true_r. reflexivity.
Qed.

(** A new point of value zero changes neither the total nor the
    exactness. *)
Lemma values_snoc_zero (m : trendMap) (key : string) (y t : jsval) :
  let m1 := m ++ [(key, {| year := y; value := 0; TradeType := t |})] in
  trendTotal (List.map snd m1) == trendTotal (List.map snd m)
  /\ ((forall x, In x (List.map value (List.map snd m)) -> Double.whole x) ->
      forall x, In x (List.map value (List.map snd m1)) -> Double.whole x)
  /\ Double.abs_total (List.map value (List.map snd m1))
     == Double.abs_total (List.map value (List.map snd m)).
Proof.
  cbv zeta. split; [|split].
  - rewrite points_app. cbn [List.map snd]. rewrite trendTotal_cons. cbn [value].
    change (trendTotal []) with 0. ring.
  - intros Hm x Hx. rewrite !List.map_app in Hx. apply List.in_app_iff in Hx.
    destruct Hx as [Hx|[<-|[]]]; [apply Hm, Hx | apply DoubleFacts.whole_zero].
  - induction m as [|[k p] m IH]; [reflexivity|].
    cbn [List.app List.map snd]. rewrite !AggregatorsFacts.weight_cons, IH. reflexivity.
Qed.

Section Trend.

Variable to_string : jsval -> string.

Lemma trendStep_total (m : trendMap) (d : row) :
  (forall x, In x (List.map value (List.map snd m)) -> Double.whole x) ->
  Double.whole (Aggregators.tradeValue d) ->
  Double.abs_total (List.map value (List.map snd m)) + Qabs (Aggregators.tradeValue d)
  <= Double.max_safe ->
  trendTotal (List.map snd (trendStep to_string m d))
  == trendTotal (List.map snd m) + Aggregators.tradeValue d
  /\ (forall x, In x (List.map value (List.map snd (trendStep to_string m d))) ->
                Double.whole x)
  /\ Double.abs_total (List.map value (List.map snd (trendStep to_string m d)))
     <= Double.abs_total (List.map value (List.map snd m))
        + Qabs (Aggregators.tradeValue d).
Proof.
  intros Hm Hd Hb. unfold trendStep. cbv zeta.
  destruct (has m (trendKey to_string d)) eqn:E.
  - apply bump_total; assumption.
  - destruct (values_snoc_zero m (trendKey to_string d) (get d "Year")
                (get d "TradeType")) as (E0 & W0 & B0).
    cbv zeta in E0, W0, B0.
    destruct (bump_total _ (trendKey to_string d) (Aggregators.tradeValue d)
                (has_snoc m _ _) (W0 Hm) Hd) as (E1 & W1 & B1).
    { rewrite B0. exact Hb. }
    split; [|split].
    + rewrite E1, E0. reflexivity.
    + exact W1.
    + rewrite <- B0. exact B1.
Qed.

Lemma trend_fold_total (rows : list row) : forall m,
  (forall x, In x (List.map value (List.map snd m)) -> Double.whole x) ->
  (forall x, In x (List.map Aggregators.tradeValue rows) -> Double.whole x) ->
  Double.abs_total (List.map value (List.map snd m))
  + Double.abs_total (List.map Aggregators.tradeValue rows) <= Double.max_safe ->
  trendTotal (List.map snd (List.fold_left (trendStep to_string) rows m))
  == trendTotal (List.map snd m) + Aggregators.sumrows rows.
Proof.
  induction rows as [|d rows IH]; intros m Hm Hrows Hb; cbn [List.fold_left].
  - change (Aggregators.sumrows []) with 0. ring.
  - cbn [List.map] in Hb.
    change (Double.abs_total (Aggregators.tradeValue d
                                :: List.map Aggregators.tradeValue rows))
      with (Qabs (Aggregators.tradeValue d)
            + Double.abs_total (List.map Aggregators.tradeValue rows)) in Hb.
    pose proof (DoubleFacts.abs_total_nonneg (List.map Aggregators.tradeValue rows)) as Hn.
    destruct (trendStep_total m d Hm) as (E & W & B).
    { apply Hrows. left. reflexivity. }
    { lra. }
    rewrite IH; [| exact W | intros x Hx; apply Hrows; right; exact Hx | lra].
    rewrite E.
    change (Aggregators.sumrows (d :: rows))
      with (Aggregators.tradeValue d + Aggregators.sumrows rows). ring.
Qed.

(** X12.  The trade-trend series counts every row: over source rows
    (the rows of the selected mode when a mode is selected, else all
    rows) whose trade values are whole numbers with absolute values
    summing to no more than [2^53], the values of the series sum to the
    trade value of all the source rows, as the code sums it in doubles
    and exactly, whatever their year and trade type; before the data is
    loaded the series is empty. *)
Theorem trendLineData_total (rows : list row) (selectedMode : option string) :
  (Aggregators.exact_values (sourceRows selectedMode rows) ->
   trendTotal (trendLineData to_string (Some rows) selectedMode)
   == Aggregators.sumTradeValue (sourceRows selectedMode rows)
   /\ trendTotal (trendLineData to_string (Some rows) selectedMode)
      == Aggregators.sumrows (sourceRows selectedMode rows))
  /\ trendLineData to_string None selectedMode = [].
Proof.
  split; [|reflexivity]. intros H. unfold trendLineData.
  assert (E : trendTotal (sortByYear (List.map snd
                (List.fold_left (trendStep to_string) (sourceRows selectedMode rows) [])))
              == Aggregators.sumrows (sourceRows selectedMode rows)).
  { destruct H as [Hw Hm].
    rewrite sortByYear_total, trend_fold_total.
    - change (trendTotal (List.map snd [])) with 0. ring.
    - intros x [].
    - exact Hw.
    - change (Double.abs_total (List.map value (List.map snd []))) with 0. lra. }
  split; [|exact E].
  rewrite E. symmetry. apply AggregatorsFacts.sumTradeValue_sumrows, H.
Qed.

End Trend.

(** Three whole trade values, of two years. *)
Lemma trendLineData_total_witness :
  Aggregators.exact_values (sourceRows None Cases.trend_rows)
  /\ trendTotal (trendLineData Cases.plain_text (Some Cases.trend_rows) None)
     == Aggregators.sumTradeValue (sourceRows None Cases.trend_rows).
Proof.
  assert (H : Aggregators.exact_values (sourceRows None Cases.trend_rows)).
  { split; [|vm_compute; discriminate].
    intros x [<-|[<-|[<-|[]]]]; eexists; reflexivity. }
  split; [exact H|].
  exact (proj1 (proj1 (trendLineData_total Cases.plain_text Cases.trend_rows None) H)).
Defined.

Section Latest.

Variable string_to_number : string -> option Q.

Lemma finiteYears_In (rows : list row) (y : Q) :
  In y (finiteYears string_to_number rows)
  <-> exists d, In d rows /\ to_number string_to_number (get d "Year") = Some y.
Proof.
  induction rows as [|d rows IH]; cbn [finiteYears].
  - split; [intros []|intros (d & [] & _)].
  - destruct (to_number string_to_number (get d "Year")) as [q|] eqn:E.
    + cbn [In]. rewrite IH. split.
      * intros [<-|(e & He & Hy)]; [exists d; split; [left; reflexivity|exact E]|].
        exists e. split; [right; exact He|exact Hy].
      * intros (e & [<-|He] & Hy); [left; congruence|right; exists e; tauto].
    + rewrite IH. split.
      * intros (e & He & Hy). exists e. split; [right; exact He|exact Hy].
      * intros (e & [<-|He] & Hy); [congruence|exists e; tauto].
Qed.

Lemma qmax_fold (ys : list Q) : forall y,
  (List.fold_left qmax ys y = y \/ In (List.fold_left qmax ys y) ys)
  /\ y <= List.fold_left qmax ys y
  /\ (forall q, In q ys -> q <= List.fold_left qmax ys y).
Proof.
  induction ys as [|z ys IH]; intros y; cbn [List.fold_left].
  - split; [left; reflexivity|]. split; [apply Qle_refl|intros q []].
  - destruct (IH (qmax y z)) as (Hin & Hge & Hall).
    assert (Hm : y <= qmax y z /\ z <= qmax y z /\ (qmax y z = y \/ qmax y z = z)).
    { unfold qmax. destruct (Qle_bool y z) eqn:E.
      - apply Qle_bool_iff in E. repeat split; [exact E|apply Qle_refl|right; reflexivity].
      - assert (z <= y).
        { apply Qlt_le_weak, Qnot_le_lt. intros C. apply Qle_bool_iff in C. congruence. }
        repeat split; [apply Qle_refl|assumption|left; reflexivity]. }
    destruct Hm as (H1 & H2 & H3). split; [|split].
    + destruct Hin as [E|Hin]; [|right; right; exact Hin].
      rewrite E. destruct H3 as [-> | ->]; [left|right; left]; reflexivity.
    + eapply Qle_trans; eassumption.
    + intros q [<-|Hq]; [eapply Qle_trans; eassumption|apply Hall, Hq].
Qed.

(** X13.  [latestYear] is the year of some row and no row has a later
    one (years read as numbers, rows without a finite year left aside);
    it is null exactly when no row has a finite year. *)
Theorem latestYear_is_latest (rows : list row) :
  (forall y, latestYear string_to_number (Some rows) = Some y ->
     (exists d, In d rows /\ to_number string_to_number (get d "Year") = Some y)
     /\ (forall d q, In d rows -> to_number string_to_number (get d "Year") = Some q ->
                     q <= y))
  /\ (latestYear string_to_number (Some rows) = None
      <-> forall d, In d rows -> to_number string_to_number (get d "Year") = None).
Proof.
  unfold latestYear. destruct (finiteYears string_to_number rows) as [|y0 ys] eqn:E.
  - split; [intros y H; discriminate|]. split; [|reflexivity].
    intros _ d Hd. destruct (to_number string_to_number (get d "Year")) as [q|] eqn:Eq;
      [|reflexivity].
    assert (Hin : In q (finiteYears string_to_number rows)).
    { apply finiteYears_In. exists d. split; assumption. }
    rewrite E in Hin. contradiction.
  - destruct (qmax_fold ys y0) as (Hin & Hge & Hall). split.
    + intros y H. injection H as <-. split.
      * apply finiteYears_In. rewrite E.
        destruct Hin as [->|Hin]; [left; reflexivity|right; exact Hin].
      * intros d q Hd Hq.
        assert (Hq' : In q (finiteYears string_to_number rows)).
        { apply finiteYears_In. exists d. split; assumption. }
        rewrite E in Hq'. destruct Hq' as [<-|Hq']; [exact Hge|apply Hall, Hq'].
    + split; [discriminate|]. intros H. exfalso.
      assert (Hin0 : In y0 (finiteYears string_to_number rows)) by (rewrite E; left; reflexivity).
      apply finiteYears_In in Hin0. destruct Hin0 as (d & Hd & Hy).
      rewrite (H d Hd) in Hy. discriminate.
Qed.

End Latest.

(** *** The top states *)

Lemma stateStep_groupStep (m : Aggregators.jsmap) (d : row) :
  stateStep m d = Aggregators.groupStep "State" m d.
Proof.
  unfold stateStep, Aggregators.groupStep, Aggregators.map_has. cbv zeta.
  destruct (truthy (get d "State")); [| reflexivity].
  destruct (Aggregators.map_get m (get d "State")) eqn:E; cbv iota.
  - rewrite E. reflexivity.
  - rewrite SeriesFacts.map_get_set_self, SeriesFacts.map_set_twice. reflexivity.
Qed.

Lemma state_fold (rows : list row) : forall m,
  List.fold_left stateStep rows m = List.fold_left (Aggregators.groupStep "State") rows m.
Proof.
  induction rows as [| d rows IH]; intros m; [reflexivity |].
  cbn [List.fold_left]. rewrite stateStep_groupStep. apply IH.
Qed.

Lemma descending_app (l1 l2 : list (jsval * Q)) :
  AiClient.descending (l1 ++ l2) ->
  AiClient.descending l1
  /\ forall e f, In e l1 -> In f l2 -> snd f <= snd e.
Proof.
  induction l1 as [| x l1 IH]; cbn [List.app AiClient.descending].
  - intros _. split; [exact I | intros e f []].
  - intros [Hx Hd]. destruct (IH Hd) as [Hd1 Hcross]. split.
    + split; [| exact Hd1]. intros f Hf. apply Hx, List.in_or_app. now left.
    + intros e f [<- | He] Hf; [| now apply Hcross].
      apply Hx, List.in_or_app. now right.
Qed.

Lemma insert_desc_length (e : jsval * Q) (l : list (jsval * Q)) :
  List.length (Aggregators.insert_desc e l) = S (List.length l).
Proof.
  induction l as [| f l IH]; [reflexivity |]. cbn [Aggregators.insert_desc].
  destruct (Qle_bool (snd f) (snd e)); [reflexivity |]. cbn [List.length]. now rewrite IH.
Qed.

Lemma sortDesc_length (l : list (jsval * Q)) :
  List.length (Aggregators.sortDesc l) = List.length l.
Proof.
  induction l as [| e l IH]; [reflexivity |].
  change (Aggregators.sortDesc (e :: l))
    with (Aggregators.insert_desc e (Aggregators.sortDesc l)).
  rewrite insert_desc_length. cbn [List.length]. now rewrite IH.
Qed.

Lemma is_string_same (l w : jsval) (s : string) :
  same_value l w = true -> AiClient.is_string l s = AiClient.is_string w s.
Proof.
  destruct l as [| |p|a], w as [| |q|b]; cbn; try discriminate; try reflexivity.
  intros H. apply String.eqb_eq in H. subst b. reflexivity.
Qed.

(** X28. The top states of the Home page are the top ten: ten entries,
    or all the states when there are fewer, sorted by value with the
    largest first, each a state of the source rows (those of the selected
    mode, if any) with the sum of its rows' trade values, and no state
    that is left out has a larger value than a state that is shown.  The
    states are those of all the source rows: every row with a state,
    other than the text undefined, is counted under its state. *)
Theorem top_states_are_the_top_ten (rows : list row) (selectedMode : option string) :
  List.length (topStates (Some rows) selectedMode)
  = Nat.min 10 (List.length (stateTotals selectedMode rows))
  /\ (forall d, In d (sourceRows selectedMode rows) ->
        truthy (get d "State") = true ->
        AiClient.is_string (get d "State") "undefined" = false ->
        exists l v, In (l, v) (stateTotals selectedMode rows)
                    /\ same_value l (get d "State") = true)
  /\ AiClient.descending (topStates (Some rows) selectedMode)
  /\ (forall l v, In (l, v) (topStates (Some rows) selectedMode) ->
        In (l, v) (stateTotals selectedMode rows)
        /\ truthy l = true
        /\ v == AiClient.labelSum "State" l (sourceRows selectedMode rows))
  /\ (forall e f, In e (topStates (Some rows) selectedMode) ->
        In f (stateTotals selectedMode rows) ->
        ~ In f (topStates (Some rows) selectedMode) ->
        snd f <= snd e).
Proof.
  unfold topStates. set (all := stateTotals selectedMode rows).
  pose proof (SeriesFacts.sortDesc_descending all) as Hd.
  rewrite <- (List.firstn_skipn 10 (Aggregators.sortDesc all)) in Hd.
  apply descending_app in Hd as [Hd Hcross].
  split; [now rewrite List.length_firstn, sortDesc_length |].
  split.
  { intros d Hd0 Ht Hu.
    destruct (SeriesFacts.fold_grouped "State" (sourceRows selectedMode rows) [] [])
      as (_ & Hvals & Hcover).
    { split; [exact I |]. split; [intros ? ? [] | intros ? []]. }
    destruct (Hcover d Hd0 Ht) as (l & v & Hin & Hs). exists l, v.
    split; [| exact Hs]. unfold all, stateTotals. apply List.filter_In.
    rewrite state_fold. split; [exact Hin |]. unfold keepLabel. cbn [fst].
    rewrite (proj1 (Hvals l v Hin)), (is_string_same l _ _ Hs), Hu. reflexivity. }
  split; [exact Hd |]. split.
  - intros l v Hin.
    assert (Hin' : In (l, v) (Aggregators.sortDesc all)).
    { rewrite <- (List.firstn_skipn 10 (Aggregators.sortDesc all)).
      apply List.in_or_app. now left. }
    clear Hin. rename Hin' into Hin. rewrite SeriesFacts.sortDesc_In in Hin.
    split; [exact Hin |]. unfold all, stateTotals in Hin.
    apply List.filter_In in Hin as [Hin _]. rewrite state_fold in Hin.
    destruct (SeriesFacts.fold_grouped "State" (sourceRows selectedMode rows) [] [])
      as (_ & Hvals & _).
    { split; [exact I |]. split; [intros ? ? [] | intros ? []]. }
    exact (Hvals l v Hin).
  - intros e f He Hf Hout. apply (Hcross e f He).
    rewrite <- SeriesFacts.sortDesc_In in Hf.
    rewrite <- (List.firstn_skipn 10 (Aggregators.sortDesc all)) in Hf.
    apply List.in_app_or in Hf as [Hf | Hf]; [contradiction | exact Hf].
Qed.

End HomePageFacts.

(* ===================================================================== *)
(** ** Chart layout *)
(* ===================================================================== *)

Module LayoutFacts.
Import JS Layout.
Local Open Scope Q_scope.

Lemma qmax_left (a b : Q) : a <= HomePage.qmax a b.
Proof.
  unfold HomePage.qmax. destruct (Qle_bool a b) eqn:E.
  - now apply Qle_bool_iff.
  - apply Qle_refl.
Qed.

Lemma qmax_right (a b : Q) : b <= HomePage.qmax a b.
Proof.
  unfold HomePage.qmax. destruct (Qle_bool a b) eqn:E.
  - apply Qle_refl.
  - now apply LineChartFacts.Qle_bool_false.
Qed.

Lemma qmax_lub (a b c : Q) : a <= c -> b <= c -> HomePage.qmax a b <= c.
Proof. unfold HomePage.qmax. now destruct (Qle_bool a b). Qed.

Lemma qmin_left (a b : Q) : qmin a b <= a.
Proof.
  unfold qmin. destruct (Qle_bool a b) eqn:E.
  - apply Qle_refl.
  - now apply LineChartFacts.Qle_bool_false.
Qed.

Lemma qmin_right (a b : Q) : qmin a b <= b.
Proof.
  unfold qmin. destruct (Qle_bool a b) eqn:E.
  - now apply Qle_bool_iff.
  - apply Qle_refl.
Qed.

Lemma qmin_glb (a b c : Q) : c <= a -> c <= b -> c <= qmin a b.
Proof. unfold qmin. now destruct (Qle_bool a b). Qed.

Lemma floor_between (q : Q) (z : Z) :
  inject_Z z <= q -> q < inject_Z (z + 1) -> Qfloor q = z.
Proof.
  intros Hlo Hhi.
  pose proof (Qfloor_le q) as H1. pose proof (Qlt_floor q) as H2.
  assert (A : (Qfloor q < z + 1)%Z).
  { rewrite Zlt_Qlt. eapply Qle_lt_trans; eassumption. }
  assert (B : (z < Qfloor q + 1)%Z).
  { rewrite Zlt_Qlt. eapply Qle_lt_trans; eassumption. }
  lia.
Qed.

Lemma round_whole (z : Z) : LineChart.round (inject_Z z) = z.
Proof.
  unfold LineChart.round. apply floor_between.
  - lra.
  - rewrite inject_Z_plus. change (inject_Z 1) with 1. lra.
Qed.

Lemma round_mono (a b : Q) : a <= b -> (LineChart.round a <= LineChart.round b)%Z.
Proof. intros H. unfold LineChart.round. apply Qfloor_resp_le. lra. Qed.

(** The font size before rounding lies between 18 and 22 and grows
    with the width. *)
Lemma clamp_range (width : Q) :
  18 <= HomePage.qmax 18 (qmin 22 (14 + width / 200))
  /\ HomePage.qmax 18 (qmin 22 (14 + width / 200)) <= 22.
Proof.
  split.
  - apply qmax_left.
  - apply qmax_lub; [lra | apply qmin_left].
Qed.

Lemma clamp_mono (w w' : Q) :
  w <= w' ->
  HomePage.qmax 18 (qmin 22 (14 + w / 200)) <= HomePage.qmax 18 (qmin 22 (14 + w' / 200)).
Proof.
  intros H. apply qmax_lub.
  - apply qmax_left.
  - eapply Qle_trans; [| apply qmax_right].
    apply qmin_glb.
    + apply qmin_left.
    + eapply Qle_trans; [apply qmin_right |].
      unfold Qdiv. change (/ 200) with (1 # 200). lra.
Qed.

(** X14. The label font size is 16 pixels outside fullscreen and a whole
    number of pixels from 18 to 22 in fullscreen, whatever the width. *)
Theorem font_size_range (width : Q) :
  getResponsiveFontSize width false = 16%Z
  /\ (18 <= getResponsiveFontSize width true <= 22)%Z.
Proof.
  split; [reflexivity |].
  unfold getResponsiveFontSize. cbn [negb].
  destruct (clamp_range width) as [Hlo Hhi].
  split.
  - rewrite <- (round_whole 18). now apply round_mono.
  - rewrite <- (round_whole 22) at 2. now apply round_mono.
Qed.

(** X15. A wider container never gets a smaller font, and the font is 18
    pixels up to a width of 800 and 22 pixels from a width of 1600 on. *)
Theorem font_size_monotone (w w' : Q) (fullscreen : bool) :
  w <= w' ->
  (getResponsiveFontSize w fullscreen <= getResponsiveFontSize w' fullscreen)%Z
  /\ (w' <= 800 -> getResponsiveFontSize w' true = 18%Z)
  /\ (1600 <= w -> getResponsiveFontSize w true = 22%Z).
Proof.
  intros H. split; [| split].
  - unfold getResponsiveFontSize. destruct fullscreen; cbn [negb]; [| lia].
    apply round_mono, clamp_mono, H.
  - intros Hs. unfold getResponsiveFontSize. cbn [negb].
    assert (E : HomePage.qmax 18 (qmin 22 (14 + w' / 200)) == 18).
    { apply Qle_antisym; [| apply qmax_left].
      apply qmax_lub; [lra |]. eapply Qle_trans; [apply qmin_right |].
      unfold Qdiv. change (/ 200) with (1 # 200). lra. }
    unfold LineChart.round. rewrite E. reflexivity.
  - intros Hl. unfold getResponsiveFontSize. cbn [negb].
    assert (E : HomePage.qmax 18 (qmin 22 (14 + w / 200)) == 22).
    { apply Qle_antisym.
      - apply qmax_lub; [lra | apply qmin_left].
      - eapply Qle_trans; [| apply qmax_right].
        unfold Qdiv. change (/ 200) with (1 # 200).
        apply qmin_glb; lra. }
    unfold LineChart.round. rewrite E. reflexivity.
Qed.

Lemma font_size_monotone_witness :
  800 <= 1600
  /\ (getResponsiveFontSize 800 true <= getResponsiveFontSize 1600 true)%Z.
Proof.
  split; [lra |]. apply (font_size_monotone 800 1600 true). lra.
Defined.

(** The legend loop never lowers the row count, adds at most one row per
    name, and adds none for the first name of a row. *)
Lemma legend_fold (fontSize : Z) (availW : Q) (names : list string) :
  forall off rows,
    let r := snd (List.fold_left (legendStep fontSize availW) names (off, rows)) in
    (rows <= r <= rows + Z.of_nat (List.length names))%Z
    /\ (off <= 0 -> names <> [] -> (r <= rows + Z.of_nat (List.length names) - 1)%Z).
Proof.
  induction names as [| n names IH]; intros off rows; cbn zeta.
  - cbn. split; [lia | intros _ H; now destruct H].
  - cbn [List.fold_left List.length].
    assert (Hs : legendStep fontSize availW (off, rows) n
                 = if negb (Qle_bool (off + legendItemWidth fontSize n) availW)
                      && negb (Qle_bool off 0)
                   then (0 + legendItemWidth fontSize n, (rows + 1)%Z)
                   else (off + legendItemWidth fontSize n, rows)) by reflexivity.
    rewrite Hs. clear Hs.
    destruct (negb (Qle_bool (off + legendItemWidth fontSize n) availW)
              && negb (Qle_bool off 0)) eqn:E.
    + destruct (IH (0 + legendItemWidth fontSize n) (rows + 1)%Z) as [[A B] _].
      cbn zeta in A, B. split; [lia |].
      intros Hoff _. apply andb_true_iff in E as [_ E].
      apply negb_true_iff in E.
      assert (Qle_bool off 0 = true) by now apply Qle_bool_iff.
      congruence.
    + destruct (IH (off + legendItemWidth fontSize n) rows) as [[A B] _].
      cbn zeta in A, B. split; lia.
Qed.

Lemma legendRows_nonneg (seriesKey : bool) (names : list string) (width : Q)
    (fontSize : Z) (m : margin) :
  (0 <= legendRows seriesKey names width fontSize m)%Z.
Proof.
  unfold legendRows. destruct (seriesKey && (1 <? List.length names)%nat); [| lia].
  destruct (legend_fold fontSize (width - left m - right m) names 0 1%Z) as [[A _] _].
  cbn zeta in A. lia.
Qed.

(** X16. The legend of a line chart takes no row without a series key or
    with a single series, and otherwise at least one row and at most one
    row per series. *)
Theorem legend_rows_bounds (seriesKey : bool) (names : list string) (width : Q)
    (fontSize : Z) (m : margin) :
  (seriesKey && (1 <? List.length names)%nat = false
   /\ legendRows seriesKey names width fontSize m = 0%Z)
  \/ (seriesKey && (1 <? List.length names)%nat = true
      /\ (1 <= legendRows seriesKey names width fontSize m
          <= Z.of_nat (List.length names))%Z).
Proof.
  unfold legendRows.
  destruct (seriesKey && (1 <? List.length names)%nat) eqn:E; [right | left; now split].
  split; [reflexivity |].
  destruct (legend_fold fontSize (width - left m - right m) names 0 1%Z) as [[A _] B].
  cbn zeta in A, B. split; [exact A |].
  assert (names <> []).
  { intros ->. apply andb_true_iff in E as [_ E]. discriminate. }
  specialize (B (Qle_refl 0) H). lia.
Qed.

Lemma legendSpace_nonneg (rows : Z) : (0 <= rows)%Z -> 0 <= legendSpace rows.
Proof.
  intros H. unfold legendSpace. destruct (0 <? rows)%Z; [| lra].
  assert (0 <= inject_Z rows) by (change 0 with (inject_Z 0); now rewrite <- Zle_Qle).
  nra.
Qed.

(** X17. The plot area of a line chart is at least one pixel wide and at
    least 208 pixels high, the chart at least 300 pixels high, and the
    margins, the plot area and the legend fill the height exactly: the
    legend never takes room from the plot. *)
Theorem line_plot_area (width containerHeight : Q) (isFullscreen seriesKey : bool)
    (names : list string) :
  let p := linePlot width containerHeight isFullscreen seriesKey names in
  let m := lineMargin isFullscreen in
  let space := legendSpace
                 (legendRows seriesKey names width
                    (getResponsiveFontSize width isFullscreen) m) in
  1 <= innerW p
  /\ 208 <= innerH p
  /\ 300 <= height p
  /\ top m + innerH p + bottom m + space == height p.
Proof.
  cbn zeta. unfold linePlot. cbn [innerW innerH height].
  set (m := lineMargin isFullscreen).
  set (rows := legendRows seriesKey names width (getResponsiveFontSize width isFullscreen) m).
  assert (Hrows : (0 <= rows)%Z) by apply legendRows_nonneg.
  pose proof (legendSpace_nonneg rows Hrows) as Hs.
  set (space := legendSpace rows) in *.
  set (h := HomePage.qmax (300 + space)
              (if negb (Qle_bool containerHeight 100) then containerHeight else 300 + space)).
  assert (Hh : 300 + space <= h) by apply qmax_left.
  assert (Hm : top m + bottom m <= 92).
  { unfold m, lineMargin. destruct isFullscreen; cbn; lra. }
  assert (Hi : HomePage.qmax 1 (h - top m - bottom m - space) == h - top m - bottom m - space).
  { apply Qle_antisym; [| apply qmax_right]. apply qmax_lub; lra. }
  split; [apply qmax_left |]. rewrite Hi. repeat split; lra.
Qed.

(** X18. The tooltip stays at least 12 pixels inside the viewport on
    every side whenever the viewport has room for it with that padding. *)
Theorem tooltip_stays_on_screen (clientX clientY tipW tipH innerWidth innerHeight : Q) :
  tipW + 24 <= innerWidth ->
  tipH + 24 <= innerHeight ->
  let p := tooltipPosition clientX clientY tipW tipH innerWidth innerHeight in
  12 <= fst p /\ fst p + tipW + 12 <= innerWidth
  /\ 12 <= snd p /\ snd p + tipH + 12 <= innerHeight.
Proof.
  intros Hw Hh. cbn zeta. unfold tooltipPosition. cbn [fst snd].
  repeat split.
  - apply qmax_left.
  - match goal with |- HomePage.qmax ?a ?b + _ + _ <= _ =>
      assert (HomePage.qmax a b <= innerWidth - tipW - 12)
        by (apply qmax_lub; [lra | apply qmin_right])
    end. lra.
  - apply qmax_left.
  - match goal with |- HomePage.qmax ?a ?b + _ + _ <= _ =>
      assert (HomePage.qmax a b <= innerHeight - tipH - 12)
        by (apply qmax_lub; [lra | apply qmin_right])
    end. lra.
Qed.

Lemma tooltip_stays_on_screen_witness :
  200 + 24 <= 1280 /\ 80 + 24 <= 720
  /\ 12 <= fst (tooltipPosition 1270 5 200 80 1280 720)
  /\ fst (tooltipPosition 1270 5 200 80 1280 720) + 200 + 12 <= 1280.
Proof.
  assert (A : 200 + 24 <= 1280) by lra.
  assert (B : 80 + 24 <= 720) by lra.
  split; [exact A |]. split; [exact B |].
  destruct (tooltip_stays_on_screen 1270 5 200 80 1280 720 A B) as (H1 & H2 & _).
  split; [exact H1 | exact H2].
Defined.

Section Labels.

Variable unit : Type.
Variable ellipsis : unit.

Lemma slice0_length (stop : Z) (text : list unit) :
  (0 <= stop)%Z ->
  List.length (slice0 stop text) = Nat.min (Z.to_nat stop) (List.length text).
Proof.
  intros H. unfold slice0.
  destruct (stop <? 0)%Z eqn:E; [apply Z.ltb_lt in E; lia |].
  apply List.length_firstn.
Qed.

Lemma slice0_prefix (stop : Z) (text : list unit) :
  exists n, slice0 stop text = List.firstn n text.
Proof. unfold slice0. destruct (stop <? 0)%Z; eexists; reflexivity. Qed.

(** X19. In the exported image a treemap label has at most as many
    characters as the cell has room for (at least one): a label that is
    too long is cut to a prefix followed by the ellipsis, others are kept. *)
Theorem export_label_fits (width : Q) (fs : option Q) (text : list unit) :
  exists maxChars : Z,
    maxCharsFor (Some width) fs = Some maxChars
    /\ (1 <= maxChars)%Z
    /\ (Z.of_nat (List.length (exportLabel ellipsis (Some width) fs text)) <= maxChars)%Z
    /\ (exportLabel ellipsis (Some width) fs text = text
        \/ (maxChars < Z.of_nat (List.length text))%Z
           /\ exportLabel ellipsis (Some width) fs text
              = List.firstn (Z.to_nat (maxChars - 1)) text ++ [ellipsis]).
Proof.
  unfold exportLabel.
  destruct (maxCharsFor (Some width) fs) as [m |] eqn:E; [| discriminate].
  exists m. split; [reflexivity |].
  assert (Hm : (1 <= m)%Z).
  { unfold maxCharsFor in E. injection E as <-. lia. }
  split; [exact Hm |].
  destruct (m <? Z.of_nat (List.length text))%Z eqn:L.
  - apply Z.ltb_lt in L. split.
    + rewrite List.length_app, slice0_length by lia. cbn [List.length]. lia.
    + right. split; [exact L |]. unfold slice0.
      destruct (m - 1 <? 0)%Z eqn:N; [apply Z.ltb_lt in N; lia | reflexivity].
  - apply Z.ltb_ge in L. split; [exact L | now left].
Qed.

(** X20. A tick label of a horizontal bar chart fits the room left of the
    axis as soon as that room holds one character: a label that is too
    long is cut to a prefix followed by the ellipsis. *)
Theorem horizontal_label_fits (labelSpace charW : Q) (text : list unit) :
  0 < charW ->
  charW <= labelSpace ->
  inject_Z (Z.of_nat (List.length (horizontalTickLabel ellipsis labelSpace charW text)))
    * charW <= labelSpace
  /\ (horizontalTickLabel ellipsis labelSpace charW text = text
      \/ exists n, (n < List.length text)%nat
                   /\ horizontalTickLabel ellipsis labelSpace charW text
                      = List.firstn n text ++ [ellipsis]).
Proof.
  intros Hc Hroom. unfold horizontalTickLabel.
  destruct (Qle_bool (inject_Z (Z.of_nat (List.length text)) * charW) labelSpace) eqn:E.
  - split; [now apply Qle_bool_iff | now left].
  - assert (Hlong : labelSpace < inject_Z (Z.of_nat (List.length text)) * charW).
    { apply Qnot_le_lt. intros H. apply Qle_bool_iff in H. congruence. }
    set (m := Qfloor (labelSpace / charW)).
    assert (Hq : labelSpace / charW * charW == labelSpace).
    { field. intros H. rewrite H in Hc. now apply Qlt_irrefl in Hc. }
    assert (Hm1 : (1 <= m)%Z).
    { change 1%Z with (Qfloor (inject_Z 1)). apply Qfloor_resp_le.
      apply Qle_shift_div_l; [exact Hc |]. change (inject_Z 1) with 1. lra. }
    assert (Hfl : inject_Z m * charW <= labelSpace).
    { apply Qle_trans with (labelSpace / charW * charW).
      - apply Qmult_le_compat_r; [apply Qfloor_le | lra].
      - rewrite Hq. apply Qle_refl. }
    assert (Hlen : (m < Z.of_nat (List.length text))%Z).
    { rewrite Zlt_Qlt. apply Qmult_lt_r with (z := charW); [exact Hc |].
      eapply Qle_lt_trans; eassumption. }
    split.
    + rewrite List.length_app, slice0_length by lia. cbn [List.length].
      replace (Z.of_nat (Nat.min (Z.to_nat (m - 1)) (List.length text) + 1)) with m by lia.
      exact Hfl.
    + right. exists (Z.to_nat (m - 1)). split; [lia |].
      unfold slice0. destruct (m - 1 <? 0)%Z eqn:N; [apply Z.ltb_lt in N; lia | reflexivity].
Qed.

End Labels.

Lemma horizontal_label_fits_witness :
  0 < (88 # 10) /\ (88 # 10) <= 44
  /\ inject_Z (Z.of_nat (List.length
       (horizontalTickLabel "."%char 44 (88 # 10) (list_ascii_of_string "Transportation"))))
     * (88 # 10) <= 44.
Proof.
  assert (A : 0 < (88 # 10)) by lra.
  assert (B : (88 # 10) <= 44) by lra.
  split; [exact A |]. split; [exact B |].
  exact (proj1 (horizontal_label_fits ascii "."%char 44 (88 # 10)
                  (list_ascii_of_string "Transportation") A B)).
Defined.

End LayoutFacts.

(* ===================================================================== *)
(** ** The buttons of the chart card *)
(* ===================================================================== *)

Module ButtonsFacts.
Import JS Browser Buttons.

Lemma lower_char_plain (c : ascii) :
  Loader.is_space (lower_char c) = Loader.is_space c
  /\ (65 <=? nat_of_ascii (lower_char c))%nat && (nat_of_ascii (lower_char c) <=? 90)%nat
     = false.
Proof. destruct c as [[] [] [] [] [] [] [] []]; split; reflexivity. Qed.

Lemma dashes_no_blank (s : string) : forall inRun,
  Loader.spaceless (dashes inRun s) = true.
Proof.
  induction s as [| c s IH]; intros inRun; [reflexivity |].
  cbn [dashes]. destruct (Loader.is_space c) eqn:E.
  - destruct inRun; [apply IH |]. cbn [Loader.spaceless]. rewrite IH. reflexivity.
  - cbn [Loader.spaceless]. rewrite E, IH. reflexivity.
Qed.

Lemma lower_file_safe (s : string) :
  Loader.spaceless s = true -> file_safe (lower s) = true.
Proof.
  induction s as [| c s IH]; [reflexivity |].
  cbn [Loader.spaceless lower file_safe]. intros H.
  apply andb_true_iff in H as [Hc Hs].
  destruct (lower_char_plain c) as [-> ->]. rewrite Hc, (IH Hs). reflexivity.
Qed.

Lemma exportName_safe (title : option string) :
  exportName title <> "" /\ file_safe (exportName title) = true.
Proof.
  unfold exportName. destruct title as [t |]; [| split; [discriminate | reflexivity]].
  pose proof (lower_file_safe (dashes false t) (dashes_no_blank t false)) as H.
  destruct (lower (dashes false t)); split;
    [discriminate | reflexivity | discriminate | exact H].
Qed.

Lemma safe_char (c : ascii) :
  negb (Loader.is_space c)
  && negb ((65 <=? nat_of_ascii c)%nat && (nat_of_ascii c <=? 90)%nat) = true ->
  Loader.is_space c = false /\ lower_char c = c.
Proof.
  intros H. apply andb_true_iff in H as [Hs Hc].
  apply negb_true_iff in Hs, Hc. split; [exact Hs |].
  unfold lower_char. cbv zeta. now rewrite Hc.
Qed.

(** A name made for a file is its own export name. *)
Lemma safe_fixed (t : string) :
  file_safe t = true ->
  (forall inRun, dashes inRun t = t) /\ lower t = t.
Proof.
  induction t as [| c t IH]; [split; reflexivity |].
  cbn [file_safe]. intros H. apply andb_true_iff in H as [Hc Ht].
  destruct (safe_char c Hc) as [Hs Hl]. destruct (IH Ht) as [Hd Hlow]. split.
  - intros inRun. cbn [dashes]. now rewrite Hs, Hd.
  - cbn [lower]. now rewrite Hl, Hlow.
Qed.

Lemma dashes_app (a b : string) :
  file_safe a = true -> dashes false (a ++ b) = (a ++ dashes false b)%string.
Proof.
  induction a as [| c a IH]; intros H.
  - now rewrite !CsvFacts.app_nil.
  - cbn [file_safe] in H. apply andb_true_iff in H as [Hc Ha].
    destruct (safe_char c Hc) as [Hs _]. rewrite !CsvFacts.app_cons.
    cbn [dashes]. rewrite Hs. now rewrite IH.
Qed.

Lemma lower_app (a b : string) : lower (a ++ b) = (lower a ++ lower b)%string.
Proof.
  induction a as [| c a IH]; [now rewrite !CsvFacts.app_nil |].
  rewrite CsvFacts.app_cons. cbn [lower]. now rewrite IH, CsvFacts.app_cons.
Qed.

(** X21. Whatever the title of the card, a PNG export downloads at most
    one file, named after the title: the export name followed by the
    extension.  The export name is never empty and has no blank and no
    capital letter; it is [chart] when the title is missing or empty; a
    title in ASCII that is already such a name is its own export name;
    and of two such names with a blank between them it makes the two
    names with a dash between them. *)
Theorem png_file_name (chartArea : option (option ExportPng.svgBox))
    (title subtitle : option string) (decodes : bool) (e : effect) :
  In e (handleExportPng chartArea title subtitle decodes) ->
  is_download e = true ->
  handleExportPng chartArea title subtitle decodes = [e]
  /\ (exists w h, e = DownloadPng (exportName title ++ ".png") w h)
  /\ exportName title <> ""
  /\ file_safe (exportName title) = true
  /\ (title = None \/ title = Some "" -> exportName title = "chart")
  /\ (forall t, title = Some t -> t <> "" ->
        Loader.ascii_text t = true -> file_safe t = true -> exportName title = t)
  /\ (forall a c b, title = Some (a ++ String c b)%string ->
        Loader.is_space c = true ->
        Loader.ascii_text a = true -> file_safe a = true ->
        Loader.ascii_text b = true -> file_safe b = true ->
        exportName title = (a ++ String dash b)%string).
Proof.
  intros Hin Hd.
  assert (Hone : handleExportPng chartArea title subtitle decodes = [e]
                 /\ exists w h, e = DownloadPng (exportName title ++ ".png") w h).
  { revert Hin Hd. unfold handleExportPng, ExportPng.exportChartPng.
    destruct chartArea as [[svg |] |]; try (intros []).
    destruct (ExportPng.is_zero (ExportPng.boxWidth svg)
              || ExportPng.is_zero (ExportPng.boxHeight svg)).
    - intros [<- | []]. discriminate.
    - destruct decodes.
      + intros [<- | []] _. split; [reflexivity |]. do 2 eexists. reflexivity.
      + intros [<- | []]. discriminate. }
  destruct Hone as [H1 H2]. destruct (exportName_safe title) as [H3 H4].
  split; [exact H1 |]. split; [exact H2 |]. split; [exact H3 |]. split; [exact H4 |].
  split; [| split].
  - intros [-> | ->]; reflexivity.
  - intros t -> Ht _ Hs. unfold exportName.
    destruct (safe_fixed t Hs) as [Hdash Hlow]. rewrite Hdash, Hlow.
    destruct t; [congruence | reflexivity].
  - intros a c b -> Hc _ Ha _ Hb. unfold exportName.
    rewrite (dashes_app a (String c b) Ha). cbn [dashes]. rewrite Hc.
    rewrite (proj1 (safe_fixed b Hb)). rewrite lower_app.
    rewrite (proj2 (safe_fixed a Ha)). cbn [lower].
    rewrite (proj2 (safe_fixed b Hb)).
    change (lower_char dash) with dash.
    destruct a as [| x a]; [rewrite CsvFacts.app_nil | rewrite CsvFacts.app_cons];
      reflexivity.
Qed.

Lemma png_file_name_witness :
  exists e,
    In e (handleExportPng Cases.measured_area (Some "Trade  by Year") None true)
    /\ is_download e = true
    /\ handleExportPng Cases.measured_area (Some "Trade  by Year") None true = [e].
Proof.
  assert (A : In (List.hd (Warn "")
                    (handleExportPng Cases.measured_area (Some "Trade  by Year") None true))
                (handleExportPng Cases.measured_area (Some "Trade  by Year") None true))
    by (left; reflexivity).
  eexists. split; [exact A |]. split; [reflexivity |].
  exact (proj1 (png_file_name _ _ _ _ _ A eq_refl)).
Defined.

Section Download.

Variable number_to_string : Q -> string.

(** X22. A click on the download button of a card with rows in one data
    set only downloads that one data set as a CSV file and leaves the menu
    closed; with rows in both data sets the click downloads nothing and
    opens or closes the menu. *)
Theorem download_button_click (summary detail : option ChartCard.dataset) (open : bool) :
  rendered summary detail = true ->
  (hasRows summary = true /\ hasRows detail = true
   /\ clickButton number_to_string summary detail open = (negb open, []))
  \/ (exists src first rest,
        ((summary = Some src /\ hasRows detail = false)
         \/ (detail = Some src /\ hasRows summary = false))
        /\ ChartCard.data src = Some (first :: rest)
        /\ clickButton number_to_string summary detail open
           = (false,
              [DownloadText (ChartCard.filename src ++ ".csv")
                 (Csv.BOM ++ Csv.csvText number_to_string first rest)])).
Proof.
  unfold rendered, clickButton, singleOption. intros H.
  destruct (hasRows summary) eqn:Hs, (hasRows detail) eqn:Hd; cbn [andb negb] in *.
  - left. repeat split.
  - right. destruct summary as [[[[| first rest] |] fname] |]; try discriminate.
    exists {| ChartCard.data := Some (first :: rest); ChartCard.filename := fname |},
      first, rest.
    split; [left; split; reflexivity |]. split; reflexivity.
  - right. destruct detail as [[[[| first rest] |] fname] |]; try discriminate.
    exists {| ChartCard.data := Some (first :: rest); ChartCard.filename := fname |},
      first, rest.
    split; [right; split; reflexivity |]. split; reflexivity.
  - discriminate.
Qed.

End Download.

Lemma download_button_click_witness :
  rendered (Some Cases.summary_only) None = true
  /\ fst (clickButton (fun _ => "") (Some Cases.summary_only) None true) = false.
Proof.
  assert (A : rendered (Some Cases.summary_only) None = true) by reflexivity.
  split; [exact A |].
  destruct (download_button_click (fun _ => "") (Some Cases.summary_only) None true A)
    as [(_ & B & _) | (src & first & rest & _ & _ & E)].
  - discriminate B.
  - rewrite E. reflexivity.
Defined.

End ButtonsFacts.

(* ===================================================================== *)
(** ** Line chart: the series drawn, zoom and export together *)
(* ===================================================================== *)

Module ZoomFacts.
Import JS LineChart.
Local Open Scope Q_scope.

Lemma insert_by_x_perm (d : datum) (l : list datum) :
  Permutation (insert_by_x d l) (d :: l).
Proof.
  induction l as [| e l IH]; cbn [insert_by_x]; [reflexivity |].
  destruct (Qle_bool (dx d) (dx e)); [reflexivity |].
  rewrite IH. apply perm_swap.
Qed.

Lemma sort_by_x_perm (l : list datum) : Permutation (sort_by_x l) l.
Proof.
  induction l as [| d l IH]; [reflexivity |].
  cbn [sort_by_x List.fold_right]. fold (sort_by_x l).
  rewrite insert_by_x_perm. now constructor.
Qed.

Lemma insert_by_x_sorted (d : datum) (l : list datum) :
  LineSeries.ascending l -> LineSeries.ascending (insert_by_x d l).
Proof.
  induction l as [| e l IH]; cbn [insert_by_x LineSeries.ascending].
  - intros _. split; [intros ? [] | exact I].
  - intros [Hall Hs]. destruct (Qle_bool (dx d) (dx e)) eqn:E.
    + apply Qle_bool_iff in E. cbn [LineSeries.ascending]. split; [| now split].
      intros a [<- | Ha]; [exact E |]. eapply Qle_trans; [exact E | now apply Hall].
    + apply LineChartFacts.Qle_bool_false in E. cbn [LineSeries.ascending].
      split; [| now apply IH].
      intros a Ha. apply LineChartFacts.insert_by_x_In in Ha as [-> | Ha]; [exact E |].
      now apply Hall.
Qed.

Lemma sort_by_x_sorted (l : list datum) : LineSeries.ascending (sort_by_x l).
Proof.
  induction l as [| d l IH]; [exact I |].
  cbn [sort_by_x List.fold_right]. fold (sort_by_x l). now apply insert_by_x_sorted.
Qed.

Lemma add_to_group_points (d : datum) (gs : list (string * list datum)) :
  Permutation (List.concat (List.map snd (add_to_group d gs)))
              (d :: List.concat (List.map snd gs)).
Proof.
  induction gs as [| [n vs] gs IH]; cbn [add_to_group]; [reflexivity |].
  destruct (String.eqb n (dseries d)); cbn [List.map List.concat snd].
  - rewrite <- List.app_assoc. cbn [List.app]. symmetry. apply Permutation_middle.
  - rewrite IH. symmetry. apply Permutation_middle.
Qed.

Lemma add_to_group_names (d : datum) (gs : list (string * list datum)) (n : string) :
  In n (List.map fst (add_to_group d gs)) <-> n = dseries d \/ In n (List.map fst gs).
Proof.
  induction gs as [| [m vs] gs IH]; cbn [add_to_group List.map fst In].
  - intuition.
  - destruct (String.eqb m (dseries d)) eqn:E; cbn [List.map fst In].
    + apply String.eqb_eq in E. subst m. intuition.
    + rewrite IH. intuition.
Qed.

Lemma add_to_group_distinct (d : datum) (gs : list (string * list datum)) :
  NoDup (List.map fst gs) -> NoDup (List.map fst (add_to_group d gs)).
Proof.
  induction gs as [| [m vs] gs IH]; cbn [add_to_group List.map fst]; intros H.
  - constructor; [intros [] | constructor].
  - inversion H as [| ? ? Hm Hgs]; subst.
    destruct (String.eqb m (dseries d)) eqn:E; cbn [List.map fst].
    + now constructor.
    + constructor; [| now apply IH].
      rewrite add_to_group_names. intros [-> | Hin]; [| now apply Hm].
      rewrite String.eqb_refl in E. discriminate.
Qed.

Lemma group_fold (data : list datum) : forall gs,
  NoDup (List.map fst gs) ->
  NoDup (List.map fst (List.fold_left (fun gs d => add_to_group d gs) data gs))
  /\ Permutation
       (List.concat (List.map snd (List.fold_left (fun gs d => add_to_group d gs) data gs)))
       (List.concat (List.map snd gs) ++ data).
Proof.
  induction data as [| d data IH]; intros gs H; cbn [List.fold_left].
  - rewrite List.app_nil_r. now split.
  - destruct (IH (add_to_group d gs) (add_to_group_distinct d gs H)) as [A B].
    split; [exact A |]. rewrite B, add_to_group_points.
    now rewrite <- Permutation_middle.
Qed.

(** X23. The series of a line chart hold every data point exactly once,
    no two series have the same name, and the points of each series are
    in ascending order of x. *)
Theorem series_partition_the_data (seriesKey : bool) (data : list datum) :
  Permutation (List.concat (List.map values (mkSeries seriesKey data))) data
  /\ NoDup (List.map name (mkSeries seriesKey data))
  /\ List.Forall (fun s => LineSeries.ascending (values s)) (mkSeries seriesKey data).
Proof.
  unfold mkSeries. destruct seriesKey.
  - destruct (group_fold data [] (NoDup_nil _)) as [A B]. fold (group data) in A, B.
    cbn [List.map List.concat List.app] in B.
    rewrite !List.map_map. cbn [name values]. split; [| split].
    + etransitivity; [| exact B]. clear.
      induction (group data) as [| [n vs] gs IH]; [reflexivity |].
      cbn [List.map List.concat snd]. now rewrite sort_by_x_perm, IH.
    + exact A.
    + apply List.Forall_map, List.Forall_forall. intros g _. cbn [values].
      apply sort_by_x_sorted.
  - cbn [List.map List.concat name values]. rewrite List.app_nil_r. split; [| split].
    + apply sort_by_x_perm.
    + constructor; [intros [] | constructor].
    + constructor; [apply sort_by_x_sorted | constructor].
Qed.

(** X24. Zooming back to the identity transform restores the chart and
    the export: the x scale has its full domain again, the reset button
    goes away, and the card, told that there is no range any more, offers
    the unfiltered payload. *)
Theorem reset_zoom_restores_export (string_to_number : string -> option Q)
    (capitalize : string -> string) (x0 : linear) (xk : string) (st : chart)
    (dd : option ChartCard.downloadData) (prev : option ChartCard.zoomRange) :
  ~ fst (range x0) == snd (range x0) ->
  fst (domain (currentX (fst (onZoom x0 xk true zoomIdentity st)))) == fst (domain x0)
  /\ snd (domain (currentX (fst (onZoom x0 xk true zoomIdentity st)))) == snd (domain x0)
  /\ resetShown (fst (onZoom x0 xk true zoomIdentity st)) = false
  /\ exists r,
       snd (onZoom x0 xk true zoomIdentity st) = Some r
       /\ ChartCard.effectiveDownloadData string_to_number capitalize dd
            (setZoomRange r prev) = dd.
Proof.
  intros Hr. destruct x0 as [[d0 d1] [r0 r1]]. cbn [fst snd range domain] in *.
  unfold onZoom, zoomHandler, rescaleX, invert, invertX, zoomIdentity.
  cbn [fst snd range domain currentX resetShown k tx].
  assert (Hne : ~ r1 - r0 == 0) by (intros E; apply Hr; lra).
  split; [field; exact Hne |]. split; [field; exact Hne |].
  split; [reflexivity |].
  exists None. split; [reflexivity |]. destruct dd; reflexivity.
Qed.

Lemma reset_zoom_restores_export_witness :
  ~ fst (range Samples.four_years_scale) == snd (range Samples.four_years_scale)
  /\ resetShown (fst (onZoom Samples.four_years_scale "year" true zoomIdentity
                        Samples.fresh_chart)) = false.
Proof.
  assert (A : ~ fst (range Samples.four_years_scale) == snd (range Samples.four_years_scale))
    by (intros E; discriminate E).
  split; [exact A |].
  exact (proj1 (proj2 (proj2 (reset_zoom_restores_export Samples.nan_strings
                                capitalize_ascii Samples.four_years_scale "year" Samples.fresh_chart
                                None None A)))).
Defined.

Lemma ceiling_le_whole (a : Q) (z : Z) : (Qceiling a <= z)%Z <-> a <= inject_Z z.
Proof.
  split; intros H.
  - eapply Qle_trans; [apply Qle_ceiling |]. now rewrite <- Zle_Qle.
  - rewrite <- (Qceiling_Z z). now apply Qceiling_resp_le.
Qed.

Lemma whole_le_floor (z : Z) (b : Q) : (z <= Qfloor b)%Z <-> inject_Z z <= b.
Proof.
  split; intros H.
  - eapply Qle_trans; [| apply Qfloor_le]. now rewrite <- Zle_Qle.
  - rewrite <- (Qfloor_Z z). now apply Qfloor_resp_le.
Qed.

(** A row passes the filter on the reported range exactly when its axis
    value, a whole number, lies in the domain reported on. *)
Lemma in_reported_range (string_to_number : string -> option Q)
    (cx : linear) (xk key : string) (d : row) :
  (forall q, to_number string_to_number (get d key) = Some q -> whole q) ->
  ChartCard.in_range string_to_number key
    (ChartCard.min (reportedRange xk cx)) (ChartCard.max (reportedRange xk cx)) d = true
  <-> ChartCard.axis_within string_to_number key (fst (domain cx)) (snd (domain cx)) d.
Proof.
  intros Hw. unfold ChartCard.in_range, ChartCard.axis_within, ge_num, le_num, reportedRange.
  cbn [ChartCard.min ChartCard.max].
  destruct (to_number string_to_number (get d key)) as [q|].
  - destruct (Hw q eq_refl) as [z Hq].
    rewrite andb_true_iff, !Qle_bool_iff, !Hq.
    rewrite <- !Zle_Qle, ceiling_le_whole, whole_le_floor. split.
    + intros H. exists q. split; [reflexivity|]. rewrite Hq. exact H.
    + intros (q' & E & H). injection E as <-. rewrite Hq in H. exact H.
  - split; [discriminate | intros (q & E & _); discriminate].
Qed.

(** X25. With whole numbers on the axis the zoomed export is what the
    chart shows.  When a zoom update with [k > 1] reports its range and
    the card filters an array of the payload by it, on the field the
    first row selects ([xKey] when the first row has it, else its
    capitalised variant), the array keeps, in their order, the rows that
    pass a test, these are the rows the card offers for download, and a
    row whose axis value is a whole number passes exactly when that value
    lies in the domain of the scale the chart now shows. *)
Theorem zoomed_export_is_visible_rows (string_to_number : string -> option Q)
    (capitalize : string -> string) (rescale : transform -> linear -> linear)
    (x0 : linear) (xk : string) (t : transform) (st : chart)
    (first : row) (rest : list row) (key : string) :
  1 < k t ->
  ChartCard.pickKey capitalize first xk = Some key ->
  key <> "" ->
  exists r keep,
    snd (zoomHandler rescale x0 xk true t st) = Some (Some r)
    /\ ChartCard.filterArr string_to_number capitalize r (Some (first :: rest))
       = Some (List.filter keep (first :: rest))
    /\ (forall name prev,
          ChartCard.effectiveDownloadData string_to_number capitalize
            (Some {| ChartCard.summary :=
                       Some {| ChartCard.data := Some (first :: rest);
                               ChartCard.filename := name |};
                     ChartCard.detail := None |})
            (setZoomRange (Some r) prev)
          = Some {| ChartCard.summary :=
                      Some {| ChartCard.data := Some (List.filter keep (first :: rest));
                              ChartCard.filename := name |};
                    ChartCard.detail := None |})
    /\ (has_member first xk = true -> key = xk)
    /\ (has_member first xk = false -> key = capitalize xk)
    /\ forall d,
         (forall q, to_number string_to_number (get d key) = Some q -> whole q) ->
         (keep d = true
          <-> ChartCard.axis_within string_to_number key
                (fst (domain (currentX (fst (zoomHandler rescale x0 xk true t st)))))
                (snd (domain (currentX (fst (zoomHandler rescale x0 xk true t st))))) d).
Proof.
  intros Hk Hp Hkey.
  exists (reportedRange xk (rescale t x0)).
  exists (ChartCard.in_range string_to_number key
            (ChartCard.min (reportedRange xk (rescale t x0)))
            (ChartCard.max (reportedRange xk (rescale t x0)))).
  assert (Hf : ChartCard.filterArr string_to_number capitalize
                 (reportedRange xk (rescale t x0)) (Some (first :: rest))
               = Some (List.filter
                         (ChartCard.in_range string_to_number key
                            (ChartCard.min (reportedRange xk (rescale t x0)))
                            (ChartCard.max (reportedRange xk (rescale t x0))))
                         (first :: rest)))
    by (apply ChartCardFacts.filterArr_picked; assumption).
  split; [|split; [|split; [|split; [|split]]]].
  - unfold zoomHandler. cbn [snd]. rewrite (proj2 (LineChartFacts.zoomed_iff t) Hk).
    reflexivity.
  - exact Hf.
  - intros name prev. unfold setZoomRange, ChartCard.effectiveDownloadData.
    cbn [ChartCard.summary ChartCard.detail option_map].
    unfold ChartCard.scope. cbn [ChartCard.data ChartCard.filename].
    rewrite Hf. reflexivity.
  - intros Hm. unfold ChartCard.pickKey in Hp. rewrite Hm in Hp. congruence.
  - intros Hm. unfold ChartCard.pickKey in Hp. rewrite Hm in Hp.
    destruct (has_member first (capitalize xk)); congruence.
  - intros d Hw. cbn [zoomHandler fst currentX]. apply in_reported_range, Hw.
Qed.

Lemma zoomed_export_is_visible_rows_witness :
  1 < k Samples.zoom_twice
  /\ ChartCard.pickKey capitalize_ascii Cases.row_2021 "year" = Some "Year"
  /\ "Year" <> ""
  /\ exists r keep,
       snd (zoomHandler rescaleX Samples.four_years_scale "year" true Samples.zoom_twice
              Samples.fresh_chart) = Some (Some r)
       /\ ChartCard.filterArr Samples.nan_strings capitalize_ascii r
            (Some (Cases.row_2021 :: Cases.rows_2022_2024))
          = Some (List.filter keep (Cases.row_2021 :: Cases.rows_2022_2024)).
Proof.
  assert (A : 1 < k Samples.zoom_twice) by reflexivity.
  assert (B : ChartCard.pickKey capitalize_ascii Cases.row_2021 "year" = Some "Year")
    by reflexivity.
  assert (C : "Year" <> "") by discriminate.
  split; [exact A |]. split; [exact B |]. split; [exact C |].
  destruct (zoomed_export_is_visible_rows Samples.nan_strings capitalize_ascii rescaleX
              Samples.four_years_scale "year" Samples.zoom_twice Samples.fresh_chart
              Cases.row_2021 Cases.rows_2022_2024 "Year" A B C)
    as (r & keep & E1 & E2 & _).
  exists r, keep. split; [exact E1 | exact E2].
Defined.

(** The rows 2021..2024 under that zoom: the chart shows 2021.75 to
    2023.25, and the export holds the rows of 2022 and 2023. *)
Lemma zoomed_export_example :
  ChartCard.filterArr Samples.nan_strings capitalize_ascii
    {| ChartCard.xKey := "year"; ChartCard.min := 2022; ChartCard.max := 2023 |}
    (Some (Cases.row_2021 :: Cases.rows_2022_2024))
  = Some [[("Year", JNum 2022)]; [("Year", JNum 2023)]].
Proof. reflexivity. Qed.

End ZoomFacts.

(* ===================================================================== *)
(** ** The chat store *)
(* ===================================================================== *)

Module ChatStoreFacts.
Import ChatStore.

Lemma update_others (assistantId : string) (f : message -> message) (ms : list message) :
  (forall m, In m ms -> id m <> assistantId) -> update assistantId f ms = ms.
Proof.
  intros H. unfold update. rewrite <- (List.map_id ms) at 2.
  apply List.map_ext_in. intros m Hm.
  destruct (String.eqb (id m) assistantId) eqn:E; [| reflexivity].
  apply String.eqb_eq in E. now apply H in Hm.
Qed.

(** An update touches the placeholder only, when its id is fresh. *)
Lemma update_placeholder (userId assistantId : string) (f : message -> message)
    (ms : list message) (u p : message) :
  (forall m, In m ms -> id m <> assistantId) ->
  id u <> assistantId -> id p = assistantId ->
  update assistantId f (ms ++ [u; p]) = ms ++ [u; f p].
Proof.
  intros Hms Hu Hp. unfold update. rewrite List.map_app.
  fold (update assistantId f ms). rewrite (update_others _ _ _ Hms).
  cbn [List.map]. apply String.eqb_neq in Hu. rewrite Hu.
  rewrite Hp, String.eqb_refl. reflexivity.
Qed.

Lemma concat_chunks (chunks : list string) : forall acc : string,
  List.fold_left String.append chunks acc = (acc ++ String.concat "" chunks)%string.
Proof.
  induction chunks as [| c chunks IH]; intros acc; cbn [List.fold_left].
  - cbn. now rewrite CsvFacts.append_empty_r.
  - rewrite IH. rewrite CsvFacts.append_assoc. f_equal.
    destruct chunks as [| c' chunks]; cbn [String.concat].
    + now rewrite CsvFacts.append_empty_r.
    + now rewrite CsvFacts.app_nil.
Qed.

(** *** Interleaved updates *)

Lemma run_app (a b : list step) (s : state) : run (a ++ b) s = run b (run a s).
Proof. unfold run. apply List.fold_left_app. Qed.

Lemma run_chunks (assistantId : string) (chunks : list string) : forall s,
  run (List.map (Chunk assistantId) chunks) s
  = List.fold_left (fun st c => onChunk assistantId c st) chunks s.
Proof.
  induction chunks as [| c chunks IH]; intros s; [reflexivity |].
  cbn [List.map List.fold_left]. rewrite <- IH. reflexivity.
Qed.

(** Without other updates in between, the updates of a call give what
    [sendMessage] gives. *)
Lemma sendMessage_run (userId assistantId text : string) (t1 t2 : Z) (r : reply)
    (s : state) :
  fst (sendMessage userId assistantId text t1 t2 r s)
  = run (steps userId assistantId text t1 t2 r) s.
Proof.
  destruct r as [chunks suggested | chunks message]; unfold sendMessage, steps;
    cbn [fst]; change (run (?u :: ?l) s) with (run l (apply u s));
    rewrite run_app, run_chunks; reflexivity.
Qed.

Lemma effect_id (m : message) (u : step) : id (effect m u) = id m.
Proof. destruct u; reflexivity. Qed.

Lemma filter_update (a b : string) (f : message -> message) (ms : list message) :
  (forall m, id (f m) = id m) ->
  List.filter (fun m => String.eqb (id m) a) (update b f ms)
  = update b f (List.filter (fun m => String.eqb (id m) a) ms).
Proof.
  intros Hf. unfold update. induction ms as [| m ms IH]; [reflexivity |].
  cbn [List.map List.filter].
  destruct (String.eqb (id m) b) eqn:Eb; [rewrite Hf |];
    destruct (String.eqb (id m) a); cbn [List.map]; rewrite ?Eb, IH; reflexivity.
Qed.

Lemma withId_update (a b : string) (f : message -> message) (s : state)
    (o l : bool) (e : option string) :
  (forall m, id (f m) = id m) ->
  withId a {| isOpen := o; messages := update b f (messages s);
              isLoading := l; error := e |}
  = update b f (withId a s).
Proof. intros Hf. unfold withId. cbn [messages]. now apply filter_update. Qed.

Lemma update_on_call (a b : string) (f : message -> message) (ms : list message) :
  (forall m, In m ms -> String.eqb (id m) a = true) ->
  update b f ms
  = List.map (fun m => if String.eqb (id m) a && String.eqb b a then f m else m) ms.
Proof.
  intros Hid. unfold update. apply List.map_ext_in. intros m Hm.
  rewrite (Hid m Hm). cbn [andb]. pose proof (Hid m Hm) as Ha.
  apply String.eqb_eq in Ha. rewrite Ha. now rewrite String.eqb_sym.
Qed.

Lemma brings_begin (a userId assistantId text : string) (t1 t2 : Z) :
  brings a (Begin userId assistantId text t1 t2) = false ->
  String.eqb userId a = false /\ String.eqb assistantId a = false.
Proof. cbn [brings]. apply orb_false_iff. Qed.

(** An update that is not of the call leaves the answer of the call as it
    is, an update of the call has its effect on it; the chat is not
    cleared. *)
Lemma withId_step (a : string) (u : step) (s : state) (ms : list message) :
  withId a s = ms ->
  brings a u = false ->
  is_clear u = false ->
  withId a (apply u s)
  = List.map (fun m => if String.eqb (id m) a && of_call a u then effect m u else m) ms.
Proof.
  intros <- Hb Hc.
  assert (Hid : forall m, In m (withId a s) -> String.eqb (id m) a = true).
  { intros m Hm. apply List.filter_In in Hm. tauto. }
  assert (Hsame : forall f : message -> message,
             (forall m, In m (withId a s) -> f m = m) ->
             withId a s = List.map f (withId a s)).
  { intros f Hf. rewrite <- (List.map_id (withId a s)) at 1.
    apply List.map_ext_in. intros m Hm. now rewrite Hf. }
  destruct u as [| | | | userId assistantId text t1 t2 | b chunk | b suggested | b message];
    cbn [apply of_call]; try discriminate Hc.
  - apply Hsame. intros m _. now rewrite andb_false_r.
  - apply Hsame. intros m _. now rewrite andb_false_r.
  - apply Hsame. intros m _. now rewrite andb_false_r.
  - apply brings_begin in Hb as [Hu Ha]. unfold withId, begin. cbn [messages].
    rewrite List.filter_app. cbn [List.filter userMsg placeholder id].
    rewrite Hu, Ha, List.app_nil_r. apply Hsame. intros m _.
    now rewrite andb_false_r.
  - unfold onChunk. rewrite withId_update by reflexivity.
    now apply update_on_call.
  - unfold finish. rewrite withId_update by reflexivity.
    now apply update_on_call.
  - unfold fail. rewrite withId_update by reflexivity.
    now apply update_on_call.
Qed.

(** No update but a [Begin] with the id brings a message with the id
    into the chat. *)
Lemma absent_run (a : string) (trace : list step) : forall s,
  withId a s = [] ->
  (forall u, In u trace -> brings a u = false) ->
  withId a (run trace s) = [].
Proof.
  induction trace as [| u trace IH]; intros s Hs Hb; [exact Hs |].
  change (run (u :: trace) s) with (run trace (apply u s)).
  apply IH; [| intros v Hv; apply Hb; now right].
  destruct (is_clear u) eqn:Ec.
  - destruct u; try discriminate Ec. reflexivity.
  - rewrite (withId_step a u s [] Hs (Hb u (or_introl eq_refl)) Ec). reflexivity.
Qed.

(** The answer of a call while the chat is not cleared: the updates of
    the call, and only they, have their effect on it. *)
Lemma answer_run (a : string) (trace : list step) : forall (s : state) (m : message),
  withId a s = [m] ->
  id m = a ->
  (forall u, In u trace -> brings a u = false) ->
  List.existsb is_clear trace = false ->
  withId a (run trace s) = [List.fold_left effect (List.filter (of_call a) trace) m].
Proof.
  induction trace as [| u trace IH]; intros s m Hs Hm Hb Hc; [exact Hs |].
  change (run (u :: trace) s) with (run trace (apply u s)).
  cbn [List.existsb] in Hc. apply orb_false_iff in Hc as [Hcu Hc].
  pose proof (withId_step a u s [m] Hs (Hb u (or_introl eq_refl)) Hcu) as Hstep.
  cbn [List.map] in Hstep. rewrite Hm, String.eqb_refl in Hstep. cbn [andb] in Hstep.
  cbn [List.filter]. destruct (of_call a u).
  - cbn [List.fold_left]. apply IH; try assumption.
    + now rewrite effect_id.
    + intros v Hv. apply Hb. now right.
  - apply IH; try assumption. intros v Hv. apply Hb. now right.
Qed.

Lemma effect_chunks (a : string) (chunks : list string) : forall m,
  List.fold_left effect (List.map (Chunk a) chunks) m
  = {| id := id m; role := role m;
       content := List.fold_left String.append chunks (content m);
       timestamp := timestamp m; suggestions := suggestions m |}.
Proof.
  induction chunks as [| c chunks IH]; intros m; [now destruct m |].
  cbn [List.map List.fold_left effect]. rewrite IH. reflexivity.
Qed.

(** The updates of a call turn the placeholder into its answer. *)
Lemma effect_steps (userId assistantId text : string) (t1 t2 : Z) (r : reply) :
  List.fold_left effect (List.tl (steps userId assistantId text t1 t2 r))
    (placeholder assistantId t2)
  = answer assistantId t2 r.
Proof.
  destruct r as [chunks suggested | chunks message]; cbn [steps List.tl];
    rewrite List.fold_left_app, effect_chunks; cbn [List.fold_left effect];
    unfold attach, apologise, answer, placeholder;
    cbn [id role content timestamp suggestions]; [| reflexivity].
  rewrite concat_chunks, CsvFacts.app_nil. reflexivity.
Qed.

Lemma fresh_withId (a : string) (s : state) : fresh a s <-> withId a s = [].
Proof.
  unfold fresh, withId. split.
  - intros H. induction (messages s) as [| m ms IH]; [reflexivity |].
    cbn [List.filter]. destruct (String.eqb (id m) a) eqn:E.
    + apply String.eqb_eq in E. exfalso. exact (H m (or_introl eq_refl) E).
    + apply IH. intros x Hx. apply H. now right.
  - intros H m Hm E.
    assert (Hin : In m (List.filter (fun x => String.eqb (id x) a) (messages s))).
    { apply List.filter_In. split; [exact Hm |]. now apply String.eqb_eq. }
    rewrite H in Hin. exact Hin.
Qed.

(** The chat just after the call began. *)
Lemma withId_begun (userId assistantId text : string) (t1 t2 : Z) (s : state) :
  withId assistantId s = [] ->
  userId <> assistantId ->
  withId assistantId (begin userId assistantId text t1 t2 s) = [placeholder assistantId t2].
Proof.
  intros Hs Hu. unfold withId, begin. cbn [messages]. rewrite List.filter_app.
  fold (withId assistantId s). rewrite Hs. cbn [List.filter userMsg placeholder id List.app].
  apply String.eqb_neq in Hu. rewrite Hu, String.eqb_refl. reflexivity.
Qed.

(** With nothing but the updates of the call and the opening and closing
    of the drawer, the messages before the question stay as they are. *)
Lemma frame_run (userId a : string) (ms : list message) (u : message)
    (trace : list step) :
  (forall m, In m ms -> id m <> a) ->
  id u <> a ->
  (forall v, In v trace -> brings a v = false) ->
  List.forallb (fun v => of_call a v || view_only v) trace = true ->
  forall (m : message) (o l : bool) (e : option string),
    id m = a ->
    let final := run trace {| isOpen := o; messages := ms ++ [u; m];
                              isLoading := l; error := e |} in
    messages final = ms ++ [u; List.fold_left effect (List.filter (of_call a) trace) m]
    /\ (isLoading final, error final)
       = List.fold_left flags (List.filter (of_call a) trace) (l, e).
Proof.
  intros Hms Hu. induction trace as [| v trace IH]; intros Hb Hall m o l e Hm.
  - cbn. split; reflexivity.
  - cbn [List.forallb] in Hall. apply andb_true_iff in Hall as [Hv Hall].
    assert (Hb' : forall w, In w trace -> brings a w = false)
      by (intros w Hw; apply Hb; now right).
    pose proof (Hb v (or_introl eq_refl)) as Hbv.
    cbn zeta. change (run (v :: trace) ?st) with (run trace (apply v st)).
    destruct v as [| | | | userId' b text t1 t2 | b chunk | b suggested | b message];
      cbn [of_call view_only orb] in Hv; try discriminate Hv;
      cbn [List.filter of_call].
    + apply (IH Hb' Hall m _ l e Hm).
    + apply (IH Hb' Hall m _ l e Hm).
    + apply (IH Hb' Hall m _ l e Hm).
    + apply brings_begin in Hbv as [_ Hbv]. rewrite orb_false_r in Hv. congruence.
    + rewrite orb_false_r in Hv. rewrite Hv. apply String.eqb_eq in Hv. subst b.
      cbn [apply]. unfold onChunk. cbn [isOpen messages isLoading error].
      rewrite (update_placeholder userId) by assumption.
      cbn [List.fold_left effect flags].
      apply (IH Hb' Hall (appendChunk chunk m) o l e). exact Hm.
    + rewrite orb_false_r in Hv. rewrite Hv. apply String.eqb_eq in Hv. subst b.
      cbn [apply]. unfold finish. cbn [isOpen messages isLoading error].
      rewrite (update_placeholder userId) by assumption.
      cbn [List.fold_left effect flags snd].
      apply (IH Hb' Hall (attach suggested m) o false e). exact Hm.
    + rewrite orb_false_r in Hv. rewrite Hv. apply String.eqb_eq in Hv. subst b.
      cbn [apply]. unfold fail. cbn [isOpen messages isLoading error].
      rewrite (update_placeholder userId) by assumption.
      cbn [List.fold_left effect flags].
      apply (IH Hb' Hall (apologise m) o false (Some message)). exact Hm.
Qed.

(** Before the call began, its id being fresh, such updates change no
    message. *)
Lemma frame_before (a : string) (trace : list step) : forall s,
  fresh a s ->
  (forall v, In v trace -> brings a v = false) ->
  List.forallb (fun v => of_call a v || view_only v) trace = true ->
  messages (run trace s) = messages s.
Proof.
  induction trace as [| v trace IH]; intros s Hf Hb Hall; [reflexivity |].
  cbn [List.forallb] in Hall. apply andb_true_iff in Hall as [Hv Hall].
  assert (Hb' : forall w, In w trace -> brings a w = false)
    by (intros w Hw; apply Hb; now right).
  pose proof (Hb v (or_introl eq_refl)) as Hbv.
  change (run (v :: trace) s) with (run trace (apply v s)).
  assert (Hstep : messages (apply v s) = messages s).
  { destruct v as [| | | | userId' b text t1 t2 | b chunk | b suggested | b message];
      cbn [of_call view_only orb] in Hv; try discriminate Hv; try reflexivity.
    - apply brings_begin in Hbv as [_ Hbv]. rewrite orb_false_r in Hv. congruence.
    - rewrite orb_false_r in Hv. apply String.eqb_eq in Hv. subst b.
      cbn [apply onChunk messages]. now apply update_others.
    - rewrite orb_false_r in Hv. apply String.eqb_eq in Hv. subst b.
      cbn [apply finish messages]. now apply update_others.
    - rewrite orb_false_r in Hv. apply String.eqb_eq in Hv. subst b.
      cbn [apply fail messages]. now apply update_others. }
  rewrite IH; [exact Hstep | | exact Hb' | exact Hall].
  unfold fresh. rewrite Hstep. exact Hf.
Qed.

Lemma flags_chunks (a : string) (chunks : list string) (le : bool * option string) :
  List.fold_left flags (List.map (Chunk a) chunks) le = le.
Proof. induction chunks as [| c chunks IH]; [reflexivity | exact IH]. Qed.

Lemma flags_steps (userId assistantId text : string) (t1 t2 : Z) (r : reply) :
  List.fold_left flags (List.tl (steps userId assistantId text t1 t2 r)) (true, None)
  = (false, match r with Answered _ _ => None | Threw _ message => Some message end).
Proof.
  destruct r as [chunks suggested | chunks message]; cbn [steps List.tl];
    rewrite List.fold_left_app, flags_chunks; reflexivity.
Qed.

(** The answer of a call whose id is fresh and which no other call
    draws, while the chat is not cleared after the call began. *)
Lemma answer_of_call (userId assistantId text : string) (t1 t2 : Z) (r : reply)
    (before after : list step) (s : state) :
  fresh assistantId s ->
  userId <> assistantId ->
  (forall u, In u (before ++ after) -> brings assistantId u = false) ->
  List.filter (of_call assistantId) after
  = List.tl (steps userId assistantId text t1 t2 r) ->
  List.existsb is_clear after = false ->
  withId assistantId (run (before ++ Begin userId assistantId text t1 t2 :: after) s)
  = [answer assistantId t2 r].
Proof.
  intros Hf Hu Hb Hown Hc. rewrite run_app.
  change (run (?u :: ?l) ?st) with (run l (apply u st)). cbn [apply].
  assert (H0 : withId assistantId (run before s) = []).
  { apply absent_run; [now apply fresh_withId |].
    intros u Hin. apply Hb, List.in_or_app. now left. }
  rewrite (answer_run assistantId after _ (placeholder assistantId t2)).
  - now rewrite Hown, effect_steps.
  - now apply withId_begun.
  - reflexivity.
  - intros u Hin. apply Hb, List.in_or_app. now right.
  - exact Hc.
Qed.

(** X26. The updates of a call of [sendMessage] can be interleaved with
    other updates of the store.  When the id drawn for the answer is fresh
    and no other call draws it: if the chat is not cleared after the call
    began, the chat ends with exactly one message of that id, the answer
    (the chunks put together with the suggestions attached, or the apology
    after an exception, whatever was streamed before); if the chat is
    cleared after the call began, the answer is lost; and when nothing but
    the opening and closing of the drawer comes in between, the call
    appends the question and the answer, changes no other message, leaves
    the store no longer loading and records the error of an exception. *)
Theorem send_message_outcome (userId assistantId text : string) (t1 t2 : Z) (r : reply)
    (before after : list step) (s : state) :
  fresh assistantId s ->
  userId <> assistantId ->
  (forall u, In u (before ++ after) -> brings assistantId u = false) ->
  List.filter (of_call assistantId) after
  = List.tl (steps userId assistantId text t1 t2 r) ->
  (List.existsb is_clear after = false ->
   withId assistantId (run (before ++ Begin userId assistantId text t1 t2 :: after) s)
   = [answer assistantId t2 r])
  /\ (List.existsb is_clear after = true ->
      withId assistantId (run (before ++ Begin userId assistantId text t1 t2 :: after) s)
      = [])
  /\ (List.forallb (fun u => of_call assistantId u || view_only u) (before ++ after) = true ->
      messages (run (before ++ Begin userId assistantId text t1 t2 :: after) s)
      = messages s ++ [userMsg userId text t1; answer assistantId t2 r]
      /\ isLoading (run (before ++ Begin userId assistantId text t1 t2 :: after) s) = false
      /\ error (run (before ++ Begin userId assistantId text t1 t2 :: after) s)
         = match r with Answered _ _ => None | Threw _ message => Some message end).
Proof.
  intros Hf Hu Hb Hown. split; [| split].
  - now apply answer_of_call.
  - intros Hc. apply List.existsb_exists in Hc as (c & Hin & Hc).
    apply List.in_split in Hin as (a1 & a2 & ->).
    destruct c; try discriminate Hc.
    replace (before ++ Begin userId assistantId text t1 t2 :: a1 ++ ClearChat :: a2)
      with ((before ++ Begin userId assistantId text t1 t2 :: a1) ++ ClearChat :: a2)
      by (rewrite <- List.app_assoc; reflexivity).
    rewrite run_app. change (run (ClearChat :: a2) ?st) with (run a2 (clearChat st)).
    apply absent_run; [reflexivity |].
    intros u Hin. apply Hb. apply List.in_or_app. right.
    apply List.in_or_app. right. now right.
  - intros Hall. rewrite List.forallb_app in Hall. apply andb_true_iff in Hall as [Hall1 Hall2].
    assert (Hb1 : forall u, In u before -> brings assistantId u = false)
      by (intros u Hin; apply Hb, List.in_or_app; now left).
    assert (Hb2 : forall u, In u after -> brings assistantId u = false)
      by (intros u Hin; apply Hb, List.in_or_app; now right).
    rewrite run_app. change (run (?u :: ?l) ?st) with (run l (apply u st)).
    cbn [apply]. unfold begin.
    rewrite (frame_before assistantId before s Hf Hb1 Hall1).
    destruct (frame_run userId assistantId (messages s) (userMsg userId text t1) after
                Hf Hu Hb2 Hall2 (placeholder assistantId t2)
                (isOpen (run before s)) true None eq_refl) as [Hm Hle].
    cbn zeta in Hm, Hle. rewrite Hown, effect_steps in Hm.
    rewrite Hown, flags_steps in Hle. split; [exact Hm |].
    injection Hle as -> ->. split; reflexivity.
Qed.

Lemma send_message_outcome_witness :
  fresh "a2" Cases.earlier_chat /\ "u2" <> "a2"
  /\ withId "a2" (run ([Toggle] ++ Begin "u2" "a2" "Total?" 3 4 :: Cases.interleaved)
                    Cases.earlier_chat)
     = [answer "a2" 4 (Answered ["4"; "2"] ["More"])].
Proof.
  assert (A : fresh "a2" Cases.earlier_chat).
  { intros m [<- | [<- | []]]; discriminate. }
  assert (B : "u2" <> "a2") by discriminate.
  assert (C : forall u, In u ([Toggle] ++ Cases.interleaved) -> brings "a2" u = false).
  { intros u Hin. cbn in Hin. repeat destruct Hin as [<- | Hin]; try reflexivity.
    destruct Hin. }
  split; [exact A |]. split; [exact B |].
  exact (proj1 (send_message_outcome "u2" "a2" "Total?" 3 4 (Answered ["4"; "2"] ["More"])
                  [Toggle] Cases.interleaved Cases.earlier_chat A B C eq_refl) eq_refl).
Defined.

Lemma lastN_length {A : Type} (n : nat) (l : list A) : (List.length (lastN n l) <= n)%nat.
Proof. unfold lastN. rewrite List.length_skipn. lia. Qed.

Lemma lastN_In {A : Type} (n : nat) (l : list A) (x : A) : In x (lastN n l) -> In x l.
Proof.
  unfold lastN. intros H. rewrite <- (List.firstn_skipn (List.length l - n) l).
  apply List.in_or_app. now right.
Qed.

Lemma last_skipn {A : Type} (d : A) (l : list A) : forall n,
  (n < List.length l)%nat -> List.last (List.skipn n l) d = List.last l d.
Proof.
  induction l as [| x l IH]; intros n H; [cbn in H; lia |].
  destruct n as [| n]; [reflexivity |]. cbn [List.skipn].
  cbn [List.length] in H. rewrite IH by lia.
  destruct l; [cbn in H; lia | reflexivity].
Qed.

(** X27. The history handed over with a question has at most ten
    messages, none of them empty: each is an earlier message of the chat
    or the question itself, never the empty answer that was just appended,
    and the question, if it is not empty, comes last. *)
Theorem history_is_recent_and_nonempty (userId assistantId text : string) (t1 t2 : Z)
    (r : reply) (s : state) :
  let h := snd (sendMessage userId assistantId text t1 t2 r s) in
  (List.length h <= 10)%nat
  /\ (forall m, In m h ->
        content m <> "" /\ (In m (messages s) \/ m = userMsg userId text t1))
  /\ (text <> "" -> List.last h (placeholder assistantId t2) = userMsg userId text t1).
Proof.
  cbn zeta.
  assert (E : snd (sendMessage userId assistantId text t1 t2 r s)
              = history (begin userId assistantId text t1 t2 s)) by (now destruct r).
  rewrite E. clear E. unfold history, begin. cbn [messages].
  split; [apply lastN_length |]. split.
  - intros m Hm. apply lastN_In, List.filter_In in Hm as [Hin Hc].
    split.
    + intros Hz. rewrite Hz in Hc. discriminate.
    + apply List.in_app_or in Hin as [Hin | [<- | [<- | []]]];
        [now left | now right | discriminate].
  - intros Ht. rewrite List.filter_app. cbn [List.filter userMsg placeholder content].
    apply String.eqb_neq in Ht. rewrite Ht. cbn [negb String.eqb].
    unfold lastN. rewrite last_skipn by (rewrite List.length_app; cbn; lia).
    apply List.last_last.
Qed.

Lemma history_is_recent_and_nonempty_witness :
  "Total?" <> ""
  /\ List.last (snd (sendMessage "u2" "a2" "Total?" 3 4 (Threw [] "offline")
                       Cases.earlier_chat)) (placeholder "a2" 4)
     = userMsg "u2" "Total?" 3.
Proof.
  assert (A : "Total?" <> "") by discriminate.
  split; [exact A |].
  exact (proj2 (proj2 (history_is_recent_and_nonempty "u2" "a2" "Total?" 3 4
                         (Threw [] "offline") Cases.earlier_chat)) A).
Defined.

Lemma streamText_whole (text : string) : String.concat "" (streamText text) = text.
Proof.
  induction text as [| c text IH]; [reflexivity |].
  cbn [streamText String.concat]. destruct text as [| c' text]; [reflexivity |].
  cbn [streamText] in *. rewrite IH. rewrite CsvFacts.app_nil. reflexivity.
Qed.

(** X29. An answer that the responder streams character by character
    arrives whole, also with other updates of the store in between: when
    the id of the answer is fresh, no other call draws it and the chat is
    not cleared after the call began, the chat ends with exactly one
    message of that id, the assistant's, whose content is the answer. *)
Theorem streamed_answer_arrives_whole (userId assistantId text reply : string)
    (t1 t2 : Z) (suggested : list string) (before after : list step) (s : state) :
  fresh assistantId s ->
  userId <> assistantId ->
  (forall u, In u (before ++ after) -> brings assistantId u = false) ->
  List.filter (of_call assistantId) after
  = List.tl (steps userId assistantId text t1 t2 (Answered (streamText reply) suggested)) ->
  List.existsb is_clear after = false ->
  withId assistantId (run (before ++ Begin userId assistantId text t1 t2 :: after) s)
  = [{| id := assistantId; role := Assistant; content := reply;
        timestamp := t2; suggestions := Some suggested |}].
Proof.
  intros Hf Hu Hb Hown Hc.
  rewrite (answer_of_call userId assistantId text t1 t2
             (Answered (streamText reply) suggested) before after s Hf Hu Hb Hown Hc).
  unfold answer. now rewrite streamText_whole.
Qed.

Lemma streamed_answer_arrives_whole_witness :
  fresh "a2" Cases.earlier_chat /\ "u2" <> "a2"
  /\ List.map content
       (withId "a2" (run ([Toggle] ++ Begin "u2" "a2" "Total?" 3 4 :: Cases.interleaved)
                       Cases.earlier_chat))
     = ["42"].
Proof.
  assert (A : fresh "a2" Cases.earlier_chat).
  { intros m [<- | [<- | []]]; discriminate. }
  assert (B : "u2" <> "a2") by discriminate.
  assert (C : forall u, In u ([Toggle] ++ Cases.interleaved) -> brings "a2" u = false).
  { intros u Hin. cbn in Hin. repeat destruct Hin as [<- | Hin]; try reflexivity.
    destruct Hin. }
  split; [exact A |]. split; [exact B |].
  rewrite (streamed_answer_arrives_whole "u2" "a2" "Total?" "42" 3 4 ["More"]
             [Toggle] Cases.interleaved Cases.earlier_chat A B C eq_refl eq_refl).
  reflexivity.
Defined.

End ChatStoreFacts.
